(** * Tendermint consensus core and backend of autonity: event driver and
    host hand-off

    A shallow embedding of
    - [consensus/tendermint/core] (the handler file: [Start], [Stop],
      [handleConsensusEvents], [handleMsg], [handleCheckedMsg]; and of
      core.go [startRound] and [setCore]) and
    - [consensus/tendermint/backend/backend.go] ([AskSync], [Gossip],
      [Commit]),
    followed by the properties of the driver and of the backend that the
    specification states.

    Go state is threaded explicitly.  A method of the [core] struct becomes a
    function on a [world]: the struct together with the ordered list of calls
    the method makes outside the handler file.  Those callees are the
    fields of the class [Collaborators]. *)

From Stdlib Require Import ZArith List Lia Bool.
From stdpp Require Import base option list gmap strings.
Import ListNotations.

Local Open Scope Z_scope.

(** ** Machine integers *)

(** Two's-complement reduction to Go's [int64]. *)
Definition wrap64 (z : Z) : Z := (z + 2 ^ 63) mod 2 ^ 64 - 2 ^ 63.

(** [big.Int.Int64]: the low 64 bits, read as signed. *)
Definition Int64 (z : Z) : Z := wrap64 z.

Definition bytes := list Byte.byte.

(** ** package common *)
Module common.
(** 20-byte address, 32-byte hash: read as numbers. *)
Definition Address := N.
Definition Hash := N.
End common.

(** ** package validator *)
Module validator.
Record Validator := { Address : common.Address }.

(** [validator.Set] is an interface; the driver and the backend use its
    [List], [F], [Quorum] and [Copy] methods. *)
Record ValSet := { List : list Validator }.

Definition Size (vs : ValSet) : Z := Z.of_nat (length (List vs)).

(** Modelled from the spec: the Byzantine budget, of which only the call
    [valSet.F()] is in the sources.  §3: f = floor((n-1)/3). *)
Definition F (vs : ValSet) : Z := (Size vs - 1) / 3.

(** Modelled from the spec: the quorum threshold, of which only the call
    [valSet.Quorum()] is in the sources.  §3: Q = ceil(2n/3). *)
Definition Quorum (vs : ValSet) : Z := (2 * Size vs + 2) / 3.

(** Values are immutable here, so a copy is the set itself. *)
Definition Copy (vs : ValSet) : ValSet := vs.

Definition GetByAddress (vs : ValSet) (a : common.Address) : option Validator :=
  find (fun v => N.eqb (Address v) a) (List vs).
End validator.

(** ** Errors *)

(** Go compares errors by identity ([err == errFutureRoundMessage]); each
    package-level error value is a constructor.  [errOther] stands for an
    error value created by a library (the RLP decoder, the host). *)
Inductive error : Set :=
| errFutureHeightMessage
| errFutureRoundMessage
| errFutureStepMessage
| errOldHeightMessage
| errOldRoundMessage
| errInvalidMessage
| errFailedDecodeProposal
| errFailedDecodeVote
| ErrUnauthorizedAddress
| ErrInvalidSignature
| ErrStoppedEngine
| errOther (id : N).

#[global] Instance error_eq_dec : EqDecision error.
Proof. solve_decision. Defined.

(** A Go [error] result: [None] is [nil]. *)
Definition result := option error.

(** The three classifications that park a message. *)
Definition is_future (e : error) : bool :=
  match e with
  | errFutureHeightMessage | errFutureRoundMessage | errFutureStepMessage => true
  | _ => false
  end.

(** The two decode errors of the package that the handler file does not
    name, [errFailedDecodePrevote] and [errFailedDecodePrecommit], and the
    family of the four. *)
Definition errFailedDecodePrevote : error := errOther 104.
Definition errFailedDecodePrecommit : error := errOther 105.

Definition is_errFailedDecode (e : error) : bool :=
  bool_decide (e = errFailedDecodeProposal \/ e = errFailedDecodePrevote \/
               e = errFailedDecodePrecommit \/ e = errFailedDecodeVote).


(** ** package core: the event driver *)
Module Core.

(** Message codes.  The constant block is declared next to the message type,
    outside the handler file; the driver only needs them distinct. *)
Definition msgProposal : Z := 0.
Definition msgPrevote : Z := 1.
Definition msgPrecommit : Z := 2.

(** Modelled from the spec: the message envelope of §3 (its declaration is
    not in the handler file).  [Code] is the tag, [Msg] the encoded payload
    that carries round and height, [Address] the claimed sender. *)
Record Message := {
  Code : Z;
  Msg : bytes;
  Address : common.Address;
  Signature : bytes;
  CommittedSeal : bytes
}.

(** The two payloads [msg.Decode] can fill in.  The driver reads [Round]
    (a [big.Int]) from either. *)
Record Proposal := {
  Proposal_Round : Z;
  Proposal_Height : Z;
  Proposal_ValidRound : Z;
  Proposal_Block : common.Hash
}.

Record Vote := {
  Vote_Round : Z;
  Vote_Height : Z;
  Vote_ProposedBlockHash : common.Hash
}.

(** Event types the driver subscribes to on the backend's mux. *)
Inductive EventKind : Set :=
| MessageEvent_t
| backlogEvent_t
| NewUnminedBlockEvent_t
| TimeoutEvent_t
| CommitEvent_t
| SyncEvent_t.

(** A subscription is known by the types it was opened for. *)
Definition Subscription := list EventKind.

(** The goroutines the driver spawns. *)
Inductive Routine : Set :=
| go_handleNewUnminedBlockEvent
| go_handleConsensusEvents
| go_HandleUnhandledMsgs
| go_syncLoop.

(** The three round timers. *)
Inductive Timer : Set := proposeTimeout | prevoteTimeout | precommitTimeout.

(** [roundState]: the view held in [c.currentRoundState]. *)
Record roundState := { Round : Z; Height : Z }.

(** Modelled from the spec: [roundState.Update(r, h)] (declared with the
    round state, outside the handler file) makes (h, r) the current view. *)
Definition Update (r h : Z) (_ : roundState) : roundState :=
  {| Round := r; Height := h |}.

(** What arrives on the three channels of the driver's [select]. *)
Record TimeoutEvent := { step : Z; roundWhenCalled : Z; heightWhenCalled : Z }.

Inductive MessageSubData :=
| MessageEvent (Payload : bytes)
| backlogEvent (msg : Message) (src : validator.Validator)
| otherMessageSubData.

Inductive Selected :=
| recv_messageEventSub (ev : option MessageSubData)
| recv_timeoutEventSub (ev : option (option TimeoutEvent))
| recv_committedSub (ev : option bool)
| ctx_Done.

(** Calls that leave the handler file, in program order.  [call_startRound]
    remembers the view the core held when the call was made. *)
Inductive Call :=
| call_backend_Start
| call_backend_Subscribe (kinds : list EventKind)
| call_backend_LastCommittedProposal
| call_backend_Gossip (vs : validator.ValSet) (payload : bytes)
| call_backend_Close
| call_go (r : Routine)
| call_stopTimer (t : Timer)
| call_cancel
| call_stopFutureProposalTimer
| call_Unsubscribe (s : Subscription)
| call_recv_stopped
| call_send_stopped
| call_handleProposal (m : Message)
| call_handlePrevote (m : Message)
| call_handlePrecommit (m : Message)
| call_storeBacklog (m : Message) (sender : validator.Validator)
| call_startRound (view : roundState) (r : Z)
| call_handleTimeoutPropose (e : TimeoutEvent)
| call_handleTimeoutPrevote (e : TimeoutEvent)
| call_handleTimeoutPrecommit (e : TimeoutEvent)
| call_handleCommit.

Section driver.

(** [B]: the state behind the [c.backend] interface.  [Ext]: everything in
    the [core] struct that the handler file never reads or writes itself
    (locks, valid value, old round states, vote sets, the backlog queues,
    pending blocks). *)
Context {B Ext : Type}.

Record core := mkCore {
  isStarted : Z;
  isStarting : Z;
  isStopped : Z;
  isStopping : Z;
  cancel : bool;
  backend : B;
  address : common.Address;
  valSet : validator.ValSet;
  currentRoundState : roundState;
  futureRoundsChange : gmap Z Z;
  messageEventSub : option Subscription;
  newUnminedBlockEventSub : option Subscription;
  timeoutEventSub : option Subscription;
  committedSub : option Subscription;
  syncEventSub : option Subscription;
  ext : Ext
}.

Record world := mkWorld { st : core; calls : list Call }.

(** The callees of the handler file that are defined in other files.  Each
    may rewrite the whole struct.  [startRound] is the one of core.go
    (module [CoreRound] below), which itself runs into [processBacklog] and
    [sendProposal]; the driver is stated for any [startRound]. *)
Class Collaborators := {
  backend_Start : B -> B * result;
  backend_Close : B -> B * result;
  (** number of the block [LastCommittedProposal] returns *)
  backend_LastCommittedProposal : B -> Z;
  backend_Gossip : validator.ValSet -> bytes -> B -> B;
  rlpDecode : bytes -> Message + error;
  recoverSigner : Message -> common.Address + error;
  Decode_Proposal : Message -> option Proposal;
  Decode_Vote : Message -> option Vote;
  Payload : Message -> bytes + error;
  handleProposal : Message -> core -> core * result;
  handlePrevote : Message -> core -> core * result;
  handlePrecommit : Message -> core -> core * result;
  storeBacklog : Message -> validator.Validator -> core -> core;
  startRound : Z -> core -> core;
  handleTimeoutPropose : TimeoutEvent -> core -> core;
  handleTimeoutPrevote : TimeoutEvent -> core -> core;
  handleTimeoutPrecommit : TimeoutEvent -> core -> core;
  handleCommit : core -> core
}.

Context `{!Collaborators}.

(** *** Field updates *)

Definition set_flags (started starting stopped stopping : Z) (c : core) : core :=
  mkCore started starting stopped stopping (cancel c) (backend c) (address c) (valSet c)
    (currentRoundState c) (futureRoundsChange c) (messageEventSub c)
    (newUnminedBlockEventSub c) (timeoutEventSub c) (committedSub c)
    (syncEventSub c) (ext c).

Definition set_isStarted (v : Z) (c : core) : core :=
  set_flags v (isStarting c) (isStopped c) (isStopping c) c.

Definition set_isStarting (v : Z) (c : core) : core :=
  set_flags (isStarted c) v (isStopped c) (isStopping c) c.

Definition set_isStopped (v : Z) (c : core) : core :=
  set_flags (isStarted c) (isStarting c) v (isStopping c) c.

Definition set_isStopping (v : Z) (c : core) : core :=
  set_flags (isStarted c) (isStarting c) (isStopped c) v c.

Definition set_cancel (v : bool) (c : core) : core :=
  mkCore (isStarted c) (isStarting c) (isStopped c) (isStopping c) v
    (backend c) (address c) (valSet c) (currentRoundState c) (futureRoundsChange c)
    (messageEventSub c) (newUnminedBlockEventSub c) (timeoutEventSub c)
    (committedSub c) (syncEventSub c) (ext c).

Definition set_backend (b : B) (c : core) : core :=
  mkCore (isStarted c) (isStarting c) (isStopped c) (isStopping c) (cancel c)
    b (address c) (valSet c) (currentRoundState c) (futureRoundsChange c)
    (messageEventSub c) (newUnminedBlockEventSub c) (timeoutEventSub c)
    (committedSub c) (syncEventSub c) (ext c).

Definition set_currentRoundState (rs : roundState) (c : core) : core :=
  mkCore (isStarted c) (isStarting c) (isStopped c) (isStopping c) (cancel c)
    (backend c) (address c) (valSet c) rs (futureRoundsChange c)
    (messageEventSub c) (newUnminedBlockEventSub c) (timeoutEventSub c)
    (committedSub c) (syncEventSub c) (ext c).

Definition set_futureRoundsChange (m : gmap Z Z) (c : core) : core :=
  mkCore (isStarted c) (isStarting c) (isStopped c) (isStopping c) (cancel c)
    (backend c) (address c) (valSet c) (currentRoundState c) m
    (messageEventSub c) (newUnminedBlockEventSub c) (timeoutEventSub c)
    (committedSub c) (syncEventSub c) (ext c).

Definition set_subs (s s1 s2 s3 s4 : option Subscription) (c : core) : core :=
  mkCore (isStarted c) (isStarting c) (isStopped c) (isStopping c) (cancel c)
    (backend c) (address c) (valSet c) (currentRoundState c) (futureRoundsChange c)
    s s1 s2 s3 s4 (ext c).

(** Run a step on the struct / record a call. *)
Definition upd (f : core -> core) (w : world) : world :=
  mkWorld (f (st w)) (calls w).

Definition emit (k : Call) (w : world) : world :=
  mkWorld (st w) (calls w ++ [k]).

(** [w'] is [w] after some more calls. *)
Definition extends (w w' : world) : Prop :=
  exists more, calls w' = calls w ++ more.

(** Reading a Go map: an absent key reads as zero. *)
Definition map_get (m : gmap Z Z) (k : Z) : Z := default 0 (m !! k).


(** *** Start and Stop *)

(** The deferred function of [Start]: three atomic stores, in this order. *)
Definition Start_deferred (c : core) : core :=
  let c := set_isStarting 0 c in
  let c := set_isStopped 0 c in
  set_isStarted 1 c.

Definition subscribeEvents (w : world) : world :=
  let s := [MessageEvent_t; backlogEvent_t] in
  let w := emit (call_backend_Subscribe s) w in
  let s1 := [NewUnminedBlockEvent_t] in
  let w := emit (call_backend_Subscribe s1) w in
  let s2 := [TimeoutEvent_t] in
  let w := emit (call_backend_Subscribe s2) w in
  let s3 := [CommitEvent_t] in
  let w := emit (call_backend_Subscribe s3) w in
  let s4 := [SyncEvent_t] in
  let w := emit (call_backend_Subscribe s4) w in
  upd (set_subs (Some s) (Some s1) (Some s2) (Some s3) (Some s4)) w.

(** [Start].  The two guards return before the [defer] is registered; past
    them the deferred function runs on every return. *)
Definition Start (w : world) : world * result :=
  if isStarted (st w) =? 1 then (w, None)
  else if negb (isStarting (st w) =? 0) then (w, None)
  else
    let w := upd (set_isStarting 1) w in
    let w := upd (set_cancel true) w in
    let w := emit call_backend_Start w in
    let '(b, err) := backend_Start (backend (st w)) in
    let w := upd (set_backend b) w in
    match err with
    | Some err => (upd Start_deferred w, Some err)
    | None =>
        let w := subscribeEvents w in
        let w := emit call_backend_LastCommittedProposal w in
        let height := backend_LastCommittedProposal (backend (st w)) + 1 in
        let w := upd (fun c => set_currentRoundState
                                 (Update 0 height (currentRoundState c)) c) w in
        let w := emit (call_go go_handleNewUnminedBlockEvent) w in
        let w := emit (call_go go_handleConsensusEvents) w in
        let w := emit (call_go go_HandleUnhandledMsgs) w in
        (upd Start_deferred w, None)
    end.

(** How a call ends: it returns an [error] value, or it panics (a nil
    function or a nil subscription is used). *)
Inductive outcome :=
| returns (r : result)
| panics.

(** The deferred function of [Stop]: three atomic stores, in this order. *)
Definition Stop_deferred (c : core) : core :=
  let c := set_isStopping 0 c in
  let c := set_isStopped 1 c in
  set_isStarted 0 c.

(** [unsubscribeEvents]: stops at the first subscription that was never
    opened. *)
Fixpoint unsubscribeAll (subs : list (option Subscription)) (w : world) : option world :=
  match subs with
  | [] => Some w
  | None :: _ => None
  | Some s :: rest => unsubscribeAll rest (emit (call_Unsubscribe s) w)
  end.

Definition unsubscribeEvents (w : world) : option world :=
  let c := st w in
  unsubscribeAll [messageEventSub c; newUnminedBlockEventSub c;
                  timeoutEventSub c; committedSub c; syncEventSub c] w.

(** [Stop].  The two receives on [c.stopped] wait for the two driver
    goroutines to leave their loops; they are recorded as calls. *)
Definition Stop (w : world) : world * outcome :=
  if isStopped (st w) =? 1 then (w, returns None)
  else if negb (isStopping (st w) =? 0) then (w, returns None)
  else
    let w := upd (set_isStopping 1) w in
    let w := emit (call_stopTimer proposeTimeout) w in
    let w := emit (call_stopTimer prevoteTimeout) w in
    let w := emit (call_stopTimer precommitTimeout) w in
    if negb (cancel (st w)) then (upd Stop_deferred w, panics)
    else
      let w := emit call_cancel w in
      let w := emit call_stopFutureProposalTimer w in
      match unsubscribeEvents w with
      | None => (upd Stop_deferred w, panics)
      | Some w =>
          let w := emit call_recv_stopped w in
          let w := emit call_recv_stopped w in
          let w := emit call_backend_Close w in
          let '(b, err) := backend_Close (backend (st w)) in
          let w := upd (set_backend b) w in
          match err with
          | Some err => (upd Stop_deferred w, returns (Some err))
          | None => (upd Stop_deferred w, returns None)
          end
      end.

(** *** Message handling *)

(** Modelled from the spec: [crypto.CheckValidatorSignature], which
    [handleMsg] passes to [FromPayload]; it is not in the sources.  §4.1 (b):
    the recovered sender must be a member of the validator set it is given.
    [ErrUnauthorizedAddress] is the backend's error for an address that
    cannot be found in the validator set. *)
Definition CheckValidatorSignature (vs : validator.ValSet) (m : Message)
  : validator.Validator + error :=
  match recoverSigner m with
  | inr e => inr e
  | inl a =>
      match validator.GetByAddress vs a with
      | Some v => inl v
      | None => inr ErrUnauthorizedAddress
      end
  end.

(** Modelled from the spec: [Message.FromPayload], called by [handleMsg] and
    declared with the message type, outside the sources.  §4.1 (a)-(c): the
    payload must decode against its tag, the signature must verify against
    the given validator set, and the signer must be the sender the message
    names.  §4.1, "Failures → errInvalidMessage or errFailedDecode*": a
    payload that does not decode is answered with the decoder's error when
    that is one of the errFailedDecode errors and with [errInvalidMessage]
    otherwise; a signer that is refused, or that is not the sender the
    message names, with [errInvalidMessage]. *)
Definition FromPayload (b : bytes) (vs : validator.ValSet)
    (validateFn : validator.ValSet -> Message -> validator.Validator + error)
  : (Message * validator.Validator) + error :=
  match rlpDecode b with
  | inr e => inr (if is_errFailedDecode e then e else errInvalidMessage)
  | inl m =>
      match validateFn vs m with
      | inr _ => inr errInvalidMessage
      | inl v =>
          if (validator.Address v =? Address m)%N then inl (m, v)
          else inr errInvalidMessage
      end
  end.

Definition do_storeBacklog (msg : Message) (sender : validator.Validator) (w : world) : world :=
  upd (storeBacklog msg sender) (emit (call_storeBacklog msg sender) w).

Definition do_startRound (r : Z) (w : world) : world :=
  upd (startRound r) (emit (call_startRound (currentRoundState (st w)) r) w).

(** The round a future-round message is counted under: [msgRound] of
    [testBacklog], or the decode error it returns instead. *)
Definition decode_msgRound (msg : Message) : Z + error :=
  if Code msg =? msgProposal then
    match Decode_Proposal msg with
    | None => inr errFailedDecodeProposal
    | Some p => inl (Int64 (Proposal_Round p))
    end
  else
    match Decode_Vote msg with
    | None => inr errFailedDecodeVote
    | Some v => inl (Int64 (Vote_Round v))
    end.

(** The height a message names, read from its payload like the round. *)
Definition msgHeight (msg : Message) : option Z :=
  if Code msg =? msgProposal then Proposal_Height <$> Decode_Proposal msg
  else Vote_Height <$> Decode_Vote msg.


(** [c.futureRoundsChange[msgRound] = c.futureRoundsChange[msgRound] + 1],
    in [int64]. *)
Definition count_future_round (msgRound : Z) (w : world) : world :=
  upd (fun c => set_futureRoundsChange
                  (<[msgRound := wrap64 (map_get (futureRoundsChange c) msgRound + 1)]>
                     (futureRoundsChange c)) c) w.

(** The closure [testBacklog] of [handleCheckedMsg]. *)
Definition testBacklog (msg : Message) (sender : validator.Validator)
    (w : world) (err : result) : world * result :=
  match err with
  | Some errFutureHeightMessage => (do_storeBacklog msg sender w, err)
  | Some errFutureRoundMessage =>
      let w := do_storeBacklog msg sender w in
      match decode_msgRound msg with
      | inr e => (w, Some e)
      | inl msgRound =>
          let w := count_future_round msgRound w in
          let totalFutureRoundMessages := map_get (futureRoundsChange (st w)) msgRound in
          if totalFutureRoundMessages >? validator.F (valSet (st w))
          then (do_startRound msgRound w, err)
          else (w, err)
      end
  | Some errFutureStepMessage => (do_storeBacklog msg sender w, err)
  | _ => (w, err)
  end.

(** Call one of the three per-type handlers. *)
Definition run_handler (k : Call) (h : core -> core * result) (w : world) : world * result :=
  let w := emit k w in
  let '(c, err) := h (st w) in
  (mkWorld c (calls w), err).

(** The [switch msg.Code]: the handler the message is given to and what it
    returns; [None] in the [default] case. *)
Definition dispatch (msg : Message) (w : world) : option (world * result) :=
  if Code msg =? msgProposal then
    Some (run_handler (call_handleProposal msg) (handleProposal msg) w)
  else if Code msg =? msgPrevote then
    Some (run_handler (call_handlePrevote msg) (handlePrevote msg) w)
  else if Code msg =? msgPrecommit then
    Some (run_handler (call_handlePrecommit msg) (handlePrecommit msg) w)
  else None.

Definition handleCheckedMsg (msg : Message) (sender : validator.Validator)
    (w : world) : world * result :=
  match dispatch msg w with
  | Some (w, err) => testBacklog msg sender w err
  | None => (w, Some errInvalidMessage)
  end.

(** What [handleMsg] hands on to [handleCheckedMsg], if anything. *)
Definition accepted (payload : bytes) (w : world) : option (Message * validator.Validator) :=
  match FromPayload payload (validator.Copy (valSet (st w))) CheckValidatorSignature with
  | inr _ => None
  | inl x => Some x
  end.

Definition handleMsg (payload : bytes) (w : world) : world * result :=
  match FromPayload payload (validator.Copy (valSet (st w))) CheckValidatorSignature with
  | inr err => (w, Some err)
  | inl (msg, sender) => handleCheckedMsg msg sender w
  end.

(** *** The event loop *)

Definition do_Gossip (payload : bytes) (w : world) : world :=
  let vs := validator.Copy (valSet (st w)) in
  upd (fun c => set_backend (backend_Gossip vs payload (backend c)) c)
      (emit (call_backend_Gossip vs payload) w).

(** One turn of the [select] in [handleConsensusEvents].  The boolean tells
    whether the loop goes on ([false]: [break eventLoop]). *)
Definition eventStep (ev : Selected) (w : world) : world * bool :=
  match ev with
  | recv_messageEventSub None => (w, false)
  | recv_messageEventSub (Some (MessageEvent payload)) =>
      let '(w, err) := handleMsg payload w in
      match err with
      | Some _ => (w, true)
      | None => (do_Gossip payload w, true)
      end
  | recv_messageEventSub (Some (backlogEvent msg src)) =>
      let '(w, err) := handleCheckedMsg msg src w in
      match err with
      | Some _ => (w, true)
      | None =>
          match Payload msg with
          | inr _ => (w, true)
          | inl p => (do_Gossip p w, true)
          end
      end
  | recv_messageEventSub (Some otherMessageSubData) => (w, true)
  | recv_timeoutEventSub None => (w, false)
  | recv_timeoutEventSub (Some None) => (w, true)
  | recv_timeoutEventSub (Some (Some timeoutE)) =>
      if step timeoutE =? msgProposal then
        (upd (handleTimeoutPropose timeoutE) (emit (call_handleTimeoutPropose timeoutE) w), true)
      else if step timeoutE =? msgPrevote then
        (upd (handleTimeoutPrevote timeoutE) (emit (call_handleTimeoutPrevote timeoutE) w), true)
      else if step timeoutE =? msgPrecommit then
        (upd (handleTimeoutPrecommit timeoutE) (emit (call_handleTimeoutPrecommit timeoutE) w), true)
      else (w, true)
  | recv_committedSub None => (w, false)
  | recv_committedSub (Some true) => (upd handleCommit (emit call_handleCommit w), true)
  | recv_committedSub (Some false) => (w, true)
  | ctx_Done => (w, false)
  end.

(** The loop over the events that arrive.  When the list runs out the
    goroutine is waiting in [select] ([false]); after a [break] it has left
    the loop ([true]). *)
Fixpoint eventLoop (evs : list Selected) (w : world) : world * bool :=
  match evs with
  | [] => (w, false)
  | ev :: rest =>
      let '(w, continue) := eventStep ev w in
      if continue then eventLoop rest w else (w, true)
  end.

Definition handleConsensusEvents (evs : list Selected) (w : world) : world * bool :=
  let w := do_startRound 0 w in
  let w := emit (call_go go_syncLoop) w in
  let '(w, exited) := eventLoop evs w in
  if exited then (emit call_send_stopped w, true) else (w, false).

End driver.

Arguments core : clear implicits.
Arguments world : clear implicits.
Arguments Collaborators : clear implicits.

End Core.

(** ** package core: [startRound] and [setCore] (core.go) *)
Module CoreRound.
Import Core.

(** [big.Int.Uint64]: the low 64 bits of the absolute value. *)
Definition Uint64 (z : Z) : Z := Z.abs z mod 2 ^ 64.

(** What the loop [for i = 0; i <= r.Int64(); i++] of [setCore] leaves of
    the counters: it deletes the counter of every round from 0 to [r]. *)
Definition delete_rounds_upto (r : Z) (m : gmap Z Z) : gmap Z Z :=
  filter (fun kv : Z * Z => ~ (0 <= kv.1 <= r)) m.

Section round.
Context {B Ext : Type}.

(** What the two functions call in other files: the number and the
    proposer of the block [backend.LastCommittedProposal] returns, and
    [backend.Validators]; and what they do to the part of the struct kept in
    [ext]: at round 0 the locks and the valid value go back to their initial
    values and the old round states are dropped ([new_height]); at every
    round the timeouts are reset, the round state so far is kept under
    [r - 1] when [r > 0], the proposer is calculated from the last one and
    the sent flags are cleared ([new_round]); [startRound] then sets the
    step to propose and proposes or arms the propose timeout
    ([enter_propose]). *)
Variable LastCommittedProposal_Number : B -> Z.
Variable LastCommittedProposal_Proposer : B -> common.Address.
Variable backend_Validators : Z -> B -> validator.ValSet.
Variable new_height : Ext -> Ext.
Variable new_round : Z -> common.Address -> roundState -> Ext -> Ext.
Variable enter_propose : Z -> Z -> core B Ext -> core B Ext.

Definition set_valSet (vs : validator.ValSet) (c : core B Ext) : core B Ext :=
  mkCore (isStarted c) (isStarting c) (isStopped c) (isStopping c) (cancel c)
    (backend c) (address c) vs (currentRoundState c) (futureRoundsChange c)
    (messageEventSub c) (newUnminedBlockEventSub c) (timeoutEventSub c)
    (committedSub c) (syncEventSub c) (ext c).

Definition set_ext (e : Ext) (c : core B Ext) : core B Ext :=
  mkCore (isStarted c) (isStarting c) (isStopped c) (isStopping c) (cancel c)
    (backend c) (address c) (valSet c) (currentRoundState c) (futureRoundsChange c)
    (messageEventSub c) (newUnminedBlockEventSub c) (timeoutEventSub c)
    (committedSub c) (syncEventSub c) e.

(** [setCore].  [None]: the call does not return, because for
    [r.Int64() = math.MaxInt64] the test [i <= r.Int64()] of the loop never
    fails. *)
Definition setCore (r h : Z) (lastProposer : common.Address) (c : core B Ext) :
    option (core B Ext) :=
  let c :=
    if Int64 r =? 0 then
      let c := set_ext (new_height (ext c)) c in
      let valSet := backend_Validators (Uint64 h) (backend c) in
      let c := set_valSet valSet c in
      set_futureRoundsChange ∅ c
    else c in
  if Int64 r =? 2 ^ 63 - 1 then None
  else
    let c := set_futureRoundsChange
               (delete_rounds_upto (Int64 r) (futureRoundsChange c)) c in
    let c := set_ext (new_round r lastProposer (currentRoundState c) (ext c)) c in
    Some (set_currentRoundState (Update r h (currentRoundState c)) c).

(** [startRound] ([measureHeightRoundMetrics] only marks meters). *)
Definition startRound (round : Z) (c : core B Ext) : option (core B Ext) :=
  let height := LastCommittedProposal_Number (backend c) + 1 in
  let lastCommittedProposalBlockProposer :=
    LastCommittedProposal_Proposer (backend c) in
  match setCore round height lastCommittedProposalBlockProposer c with
  | None => None
  | Some c => Some (enter_propose round height c)
  end.

End round.

End CoreRound.

(** ** package backend *)
Module backend.

(** [fetcherID]: the id under which a committed block is queued. *)
Definition fetcherID : string := "tendermint".

(** The two p2p message codes the backend sends (declared with the protocol
    handler). *)
Inductive P2PCode : Set := tendermintMsg | tendermintSyncMsg.

(** A connected peer, known by its connection id. *)
Definition Peer := N.

(** A location of a per-peer cache: [recentMessages] stores pointers. *)
Definition loc := N.

(** A block as [Commit] sees it: a header and the rest. *)
Record Header := { Number : Z; Extra : bytes }.
Record Block := { header : Header; body : N }.

(** [Block.Header] returns a copy of the header. *)
Definition Block_Header (b : Block) : Header := header b.

(** [Block.WithSeal]: the same block with the header replaced. *)
Definition WithSeal (b : Block) (h : Header) : Block :=
  {| header := h; body := body b |}.

(** [consensus.Broadcaster]: [FindPeers] returns the connected peers among
    the targets, here in the order in which the Go map is ranged over. *)
Record Broadcaster := {
  FindPeers : gset common.Address -> list (common.Address * Peer)
}.

(** What leaves the backend, in program order. *)
Inductive Effect :=
| Send (addr : common.Address) (p : Peer) (code : P2PCode) (payload : bytes)
| Enqueue (id : string) (b : Block)
| sendResultChan_send (b : Block).

(** Library code behind the backend: the ARC cache, the RLP hash, the
    header codec. *)
Class Host := {
  ARCCache : Type -> Type;
  NewARC : forall {V : Type}, Z -> ARCCache V;
  (** a lookup also refreshes the entry, so it returns the cache *)
  Get : forall {V : Type}, ARCCache V -> N -> ARCCache V * option V;
  Add : forall {V : Type}, ARCCache V -> N -> V -> ARCCache V;
  inmemoryMessages : Z;
  RLPHash : bytes -> common.Hash;
  WriteCommittedSeals : Header -> list bytes -> Header + error;
  Block_Hash : Block -> common.Hash
}.

Section backend.
Context `{!Host}.

Record Backend := mkBackend {
  address : common.Address;
  broadcaster : option Broadcaster;
  (** whether [commitCh] is non-nil *)
  commitCh : bool;
  proposedBlockHash : common.Hash;
  recentMessages : ARCCache loc;
  knownMessages : ARCCache bool;
  (** the per-peer caches that [recentMessages] points to *)
  arcs : gmap loc (ARCCache bool);
  sent : list Effect
}.

Definition Address (sb : Backend) : common.Address := address sb.

Definition emit (e : Effect) (sb : Backend) : Backend :=
  mkBackend (address sb) (broadcaster sb) (commitCh sb) (proposedBlockHash sb)
    (recentMessages sb) (knownMessages sb) (arcs sb) (sent sb ++ [e]).

Definition set_recentMessages (c : ARCCache loc) (sb : Backend) : Backend :=
  mkBackend (address sb) (broadcaster sb) (commitCh sb) (proposedBlockHash sb)
    c (knownMessages sb) (arcs sb) (sent sb).

Definition set_knownMessages (c : ARCCache bool) (sb : Backend) : Backend :=
  mkBackend (address sb) (broadcaster sb) (commitCh sb) (proposedBlockHash sb)
    (recentMessages sb) c (arcs sb) (sent sb).

Definition set_arcs (h : gmap loc (ARCCache bool)) (sb : Backend) : Backend :=
  mkBackend (address sb) (broadcaster sb) (commitCh sb) (proposedBlockHash sb)
    (recentMessages sb) (knownMessages sb) h (sent sb).

(** The cache a pointer refers to.  Every pointer kept in [recentMessages]
    was allocated by [Gossip]; a location that was never allocated reads as
    an empty cache. *)
Definition deref (sb : Backend) (l : loc) : ARCCache bool :=
  default (NewARC inmemoryMessages) (arcs sb !! l).

(** The common head of [AskSync] and [Gossip]: every validator address but
    the node's own. *)
Definition targets_of (sb : Backend) (valSet : validator.ValSet) : gset common.Address :=
  foldl (fun targets val =>
           if decide (validator.Address val ≠ Address sb)
           then targets ∪ {[validator.Address val]} else targets)
        ∅ (validator.List valSet).

(** The loop of [AskSync]. *)
Fixpoint AskSync_loop (ps : list (common.Address * Peer)) (count quorum : Z)
    (sb : Backend) : Backend :=
  match ps with
  | [] => sb
  | (addr, p) :: rest =>
      if count =? quorum then sb
      else AskSync_loop rest (count + 1) quorum (emit (Send addr p tendermintSyncMsg []) sb)
  end.

(** The request one peer is sent, and the peers a call of [AskSync] reaches:
    the first [Quorum()] of those found. *)
Definition sync_request (ap : common.Address * Peer) : Effect :=
  Send ap.1 ap.2 tendermintSyncMsg [].

Definition asked (sb : Backend) (valSet : validator.ValSet) : list (common.Address * Peer) :=
  match broadcaster sb with
  | Some b =>
      if Z.of_nat (size (targets_of sb valSet)) >? 0
      then take (Z.to_nat (validator.Quorum valSet)) (FindPeers b (targets_of sb valSet))
      else []
  | None => []
  end.

Definition AskSync (valSet : validator.ValSet) (sb : Backend) : Backend :=
  let targets := targets_of sb valSet in
  match broadcaster sb with
  | Some b =>
      if Z.of_nat (size targets) >? 0 then
        AskSync_loop (FindPeers b targets) 0 (validator.Quorum valSet) sb
      else sb
  | None => sb
  end.

(** The test of the loop body of [Gossip]: the peer has a cache and the
    cache holds the hash. *)
Definition peer_has (sb : Backend) (addr : common.Address) (hash : common.Hash) : bool :=
  match Get (recentMessages sb) addr with
  | (rm, Some l) =>
      match Get (deref (set_recentMessages rm sb) l) hash with
      | (_, Some _) => true
      | (_, None) => false
      end
  | (_, None) => false
  end.

(** The peer has a cache, and that cache holds the hash: read off
    [recentMessages] and the caches it points to. *)
Definition peer_cache_holds (sb : Backend) (addr : common.Address) (hash : common.Hash) : Prop :=
  exists l m,
    (Get (recentMessages sb) addr).2 = Some l /\
    arcs sb !! l = Some m /\
    is_Some (Get m hash).2.

(** The tail of the loop body of [Gossip]: remember the hash for the peer
    and send. *)
Definition Gossip_send (hash : common.Hash) (payload : bytes)
    (addr : common.Address) (p : Peer) (l : loc) (m : ARCCache bool)
    (sb : Backend) : Backend :=
  let m := Add m hash true in
  let sb := set_arcs (<[l := m]> (arcs sb)) sb in
  let sb := set_recentMessages (Add (recentMessages sb) addr l) sb in
  emit (Send addr p tendermintMsg payload) sb.

(** What a peer is sent when it is not skipped. *)
Definition gossip_message (payload : bytes) (ap : common.Address * Peer) : Effect :=
  Send ap.1 ap.2 tendermintMsg payload.

(** One turn of the loop of [Gossip]. *)
Definition Gossip_peer (hash : common.Hash) (payload : bytes)
    (sb : Backend) (ap : common.Address * Peer) : Backend :=
  let '(addr, p) := ap in
  let '(rm, ms) := Get (recentMessages sb) addr in
  let sb := set_recentMessages rm sb in
  match ms with
  | Some l =>
      let '(m, k) := Get (deref sb l) hash in
      let sb := set_arcs (<[l := m]> (arcs sb)) sb in
      match k with
      | Some _ => sb
      | None => Gossip_send hash payload addr p l m sb
      end
  | None =>
      let l : loc := fresh (dom (arcs sb)) in
      Gossip_send hash payload addr p l (NewARC inmemoryMessages) sb
  end.

Definition Gossip (valSet : validator.ValSet) (payload : bytes) (sb : Backend) : Backend :=
  let hash := RLPHash payload in
  let sb := set_knownMessages (Add (knownMessages sb) hash true) sb in
  let targets := targets_of sb valSet in
  match broadcaster sb with
  | Some b =>
      if Z.of_nat (size targets) >? 0 then
        foldl (Gossip_peer hash payload) sb (FindPeers b targets)
      else sb
  | None => sb
  end.

(** [isResultChanNil] and [sendResultChan] are defined next to [Seal]: the
    first tells whether [commitCh] is nil, the second sends on it. *)
Definition isResultChanNil (sb : Backend) : bool := negb (commitCh sb).

Definition sendResultChan (block : Block) (sb : Backend) : Backend :=
  emit (sendResultChan_send block) sb.

Definition Commit (proposal : Block) (seals : list bytes) (sb : Backend) : Backend * result :=
  let block := proposal in
  let h := Block_Header block in
  match WriteCommittedSeals h seals with
  | inr err => (sb, Some err)
  | inl h =>
      let block := WithSeal block h in
      if (proposedBlockHash sb =? Block_Hash block)%N && negb (isResultChanNil sb)
      then (sendResultChan block sb, None)
      else
        match broadcaster sb with
        | Some _ => (emit (Enqueue fetcherID block) sb, None)
        | None => (sb, None)
        end
  end.

End backend.

Arguments Backend : clear implicits.

End backend.

(** ** Test doubles

    Concrete collaborators on which the driver and the backend can be run,
    in the manner of the repository's [testSystemBackend]. *)
Module double.
Import Core.

(** The part of the core state the doubles keep: the parked messages and
    the step. *)
Record Ext := { backlog : list (Message * validator.Validator); cur_step : Z }.

(** A four-byte wire format: code, round, height, sender. *)
Definition encode_N (n : N) : Byte.byte := default Byte.x00 (Byte.of_N n).

Definition rlpDecode (b : bytes) : Message + error :=
  match b with
  | [c; r; h; a] =>
      inl {| Code := Z.of_N (Byte.to_N c); Msg := [r; h];
             Address := Byte.to_N a; Signature := []; CommittedSeal := [] |}
  | _ => inr (errOther 0)
  end.

Definition Payload (m : Message) : bytes + error :=
  match Msg m with
  | [r; h] => inl [encode_N (Z.to_N (Code m)); r; h; encode_N (Address m)]
  | _ => inr (errOther 1)
  end.

Definition Decode_Proposal (m : Message) : option Proposal :=
  match Msg m with
  | [r; h] =>
      Some {| Proposal_Round := Z.of_N (Byte.to_N r);
              Proposal_Height := Z.of_N (Byte.to_N h);
              Proposal_ValidRound := -1; Proposal_Block := 0%N |}
  | _ => None
  end.

Definition Decode_Vote (m : Message) : option Vote :=
  match Msg m with
  | [r; h] =>
      Some {| Vote_Round := Z.of_N (Byte.to_N r);
              Vote_Height := Z.of_N (Byte.to_N h);
              Vote_ProposedBlockHash := 0%N |}
  | _ => None
  end.

(** Validators A, B, C, D of the spec's scenarios: n = 4, f = 1, Q = 3. *)
Definition valA : validator.Validator := {| validator.Address := 10%N |}.
Definition valB : validator.Validator := {| validator.Address := 11%N |}.
Definition valC : validator.Validator := {| validator.Address := 12%N |}.
Definition valD : validator.Validator := {| validator.Address := 13%N |}.
Definition valE : validator.Validator := {| validator.Address := 14%N |}.

Definition abcd : validator.ValSet := {| validator.List := [valA; valB; valC; valD] |}.

(** Six validators: Q = 4 of the five possible peers. *)
Definition six : validator.ValSet :=
  {| validator.List := [valA; valB; valC; valD; valE; {| validator.Address := 15%N |}] |}.

(** The set after D is replaced by E. *)
Definition abce : validator.ValSet := {| validator.List := [valA; valB; valC; valE] |}.

(** The host's lookup of the validator set of a height: D leaves at 2. *)
Definition Validators (number : Z) : validator.ValSet :=
  if number >=? 2 then abce else abcd.

(** Modelled from the spec: the classification table of §4.6, which the
    three handlers apply after decoding.  A message of the current view or of
    a past round is applied (the double keeps no votes, so nothing changes). *)
Definition checkMessage (c : core Z Ext) (code round height : Z) : result :=
  let cur := currentRoundState c in
  if height <? Height cur then Some errOldHeightMessage
  else if height >? Height cur then Some errFutureHeightMessage
  else if round >? Round cur then Some errFutureRoundMessage
  else if (round =? Round cur) && (code >? cur_step (ext c)) then Some errFutureStepMessage
  else None.

Definition handleProposal (m : Message) (c : core Z Ext) : core Z Ext * result :=
  match Decode_Proposal m with
  | None => (c, Some errFailedDecodeProposal)
  | Some p => (c, checkMessage c (Code m) (Proposal_Round p) (Proposal_Height p))
  end.

Definition handleVote (m : Message) (c : core Z Ext) : core Z Ext * result :=
  match Decode_Vote m with
  | None => (c, Some errFailedDecodeVote)
  | Some v => (c, checkMessage c (Code m) (Vote_Round v) (Vote_Height v))
  end.

Definition set_ext (e : Ext) (c : core Z Ext) : core Z Ext :=
  mkCore (isStarted c) (isStarting c) (isStopped c) (isStopping c) (cancel c)
    (backend c) (address c) (valSet c) (currentRoundState c) (futureRoundsChange c)
    (messageEventSub c) (newUnminedBlockEventSub c) (timeoutEventSub c)
    (committedSub c) (syncEventSub c) e.

Definition storeBacklog (m : Message) (sender : validator.Validator) (c : core Z Ext) : core Z Ext :=
  set_ext {| backlog := backlog (ext c) ++ [(m, sender)]; cur_step := cur_step (ext c) |} c.

(** [startRound] of core.go on the double: the chain head is the backend
    itself, the validator set of a height is [Validators], and the double
    keeps neither locks nor timeouts, so that of [ext] only the step changes,
    to propose.  Where [setCore] does not return the double stops short: the
    core is left as it was. *)
Definition startRound (r : Z) (c : core Z Ext) : core Z Ext :=
  default c
    (CoreRound.startRound (fun b => b) (fun _ => validator.Address valA)
       (fun number _ => Validators number)
       (fun e => e) (fun _ _ _ e => e)
       (fun _ _ c => set_ext {| backlog := backlog (ext c); cur_step := 0 |} c)
       r c).

(** The backend double is the number of the chain head. *)
Definition collaborators : Collaborators Z Ext := {|
  backend_Start := fun b => (b, None);
  backend_Close := fun b => (b, None);
  backend_LastCommittedProposal := fun b => b;
  backend_Gossip := fun _ _ b => b;
  Core.rlpDecode := rlpDecode;
  recoverSigner := fun m => inl (Address m);
  Core.Decode_Proposal := Decode_Proposal;
  Core.Decode_Vote := Decode_Vote;
  Core.Payload := Payload;
  Core.handleProposal := handleProposal;
  handlePrevote := handleVote;
  handlePrecommit := handleVote;
  Core.storeBacklog := storeBacklog;
  Core.startRound := startRound;
  handleTimeoutPropose := fun _ c => c;
  handleTimeoutPrevote := fun _ c => c;
  handleTimeoutPrecommit := fun _ c => c;
  handleCommit := fun c => c
|}.

(** Messages on the wire: C's prevote and precommit for round 2 of height 1,
    D's prevote for round 0 of height 2, and a message with an unknown code. *)
Definition prevote_C_r2 : bytes := [Byte.x01; Byte.x02; Byte.x01; Byte.x0c].
Definition precommit_C_r2 : bytes := [Byte.x02; Byte.x02; Byte.x01; Byte.x0c].
Definition prevote_D_h2 : bytes := [Byte.x01; Byte.x00; Byte.x02; Byte.x0d].

Definition unknown_code : Message :=
  {| Code := 7; Msg := []; Address := 12%N; Signature := []; CommittedSeal := [] |}.

(** Node B at height 1, round 0, step prevote, stopped. *)
Definition core0 : core Z Ext :=
  mkCore 0 0 1 0 false 0 11%N abcd {| Round := 0; Height := 1 |} ∅
    None None None None None {| backlog := []; cur_step := 1 |}.

Definition world0 : world Z Ext := mkWorld core0 [].

(** The same node once it is in round 2, step prevote. *)
Definition core2 : core Z Ext :=
  mkCore 0 0 1 0 false 0 11%N abcd {| Round := 2; Height := 1 |} ∅
    None None None None None {| backlog := []; cur_step := 1 |}.

Definition world2 : world Z Ext := mkWorld core2 [].

(** C's prevote for round 2 of height 1, decoded. *)
Definition prevote_C : Message :=
  {| Code := 1; Msg := [Byte.x02; Byte.x01]; Address := 12%N;
     Signature := []; CommittedSeal := [] |}.

(** An LRU cache with a capacity, standing in for the ARC cache. *)
Record lru (V : Type) := { capacity : nat; items : list (N * V) }.
Arguments capacity {V}.
Arguments items {V}.

Definition lru_new {V : Type} (size : Z) : lru V :=
  {| capacity := Z.to_nat size; items := [] |}.

Definition lru_drop {V : Type} (k : N) (l : list (N * V)) : list (N * V) :=
  filter (fun kv => negb (N.eqb (fst kv) k)) l.

Definition lru_add {V : Type} (c : lru V) (k : N) (v : V) : lru V :=
  {| capacity := capacity c;
     items := take (capacity c) ((k, v) :: lru_drop k (items c)) |}.

Definition lru_get {V : Type} (c : lru V) (k : N) : lru V * option V :=
  match find (fun kv => N.eqb (fst kv) k) (items c) with
  | Some (_, v) => ({| capacity := capacity c; items := (k, v) :: lru_drop k (items c) |}, Some v)
  | None => (c, None)
  end.

Definition hash_bytes (b : bytes) : N :=
  fold_left (fun acc x => (acc * 256 + Byte.to_N x)%N) b 0%N.

Definition host : backend.Host := {|
  backend.ARCCache := lru;
  backend.NewARC := @lru_new;
  backend.Get := @lru_get;
  backend.Add := @lru_add;
  backend.inmemoryMessages := 1024;
  backend.RLPHash := hash_bytes;
  backend.WriteCommittedSeals := fun h seals =>
    match seals with
    | [] => inr (errOther 2)
    | _ => inl {| backend.Number := backend.Number h;
                  backend.Extra := backend.Extra h ++ concat seals |}
    end;
  backend.Block_Hash := fun b => (backend.body b + Z.to_N (backend.Number (backend.header b)))%N
|}.

(** Every validator but the node itself is connected, on connection
    [addr + 100]. *)
Definition all_connected : backend.Broadcaster :=
  {| backend.FindPeers := fun targets => (fun a => (a, (a + 100)%N)) <$> elements targets |}.

(** A block to commit and one seal. *)
Definition block1 : backend.Block :=
  {| backend.header := {| backend.Number := 1; backend.Extra := [] |};
     backend.body := 5%N |}.

Definition seal1 : bytes := [Byte.x01].

Definition backendB (b : option backend.Broadcaster) : backend.Backend host :=
  backend.mkBackend (H := host) 11%N b false 0%N
    (lru_new (V := backend.loc) 64) (lru_new (V := bool) 1024) ∅ [].

End double.

(** ** The rules as the specification words them *)
Module rules.
Import Core.

Section rules.
Context {B Ext : Type} `{!Collaborators B Ext}.





(** §4.1 (a)-(b), read with its "validator set for message.height":
    [Validators] is the host's lookup of the set of a height. *)
Definition accepts_validators_of_message_height
    (Validators : Z -> validator.ValSet) (payload : bytes) (w : world B Ext) : Prop :=
  forall msg sender, accepted payload w = Some (msg, sender) ->
    exists h, msgHeight msg = Some h /\
      is_Some (validator.GetByAddress (Validators h) (validator.Address sender)).

End rules.

(** §4.6, commit: the sealed block reaches the executor exactly once.  The
    deliveries among the effects of a call: *)
Definition is_delivery (e : backend.Effect) : bool :=
  match e with
  | backend.Enqueue _ _ | backend.sendResultChan_send _ => true
  | backend.Send _ _ _ _ => false
  end.

Definition commit_delivers_once `{!backend.Host} (sb : backend.Backend _)
    (proposal : backend.Block) (seals : list bytes) : Prop :=
  forall h,
    backend.WriteCommittedSeals (backend.Block_Header proposal) seals = inl h ->
    (backend.Commit proposal seals sb).2 = None /\
    exists d,
      backend.sent (backend.Commit proposal seals sb).1 = backend.sent sb ++ [d] /\
      is_delivery d = true.

End rules.

(** ** package core: the other two loops of the handler file *)
Module CoreExt.
Import Core.

(** Calls the two loops make, in program order. *)
Inductive LoopCall :=
| call_storeUnminedBlockMsg (pb : backend.Block)
| call_stopped_send
| call_NewTimer
| call_backend_AskSync (vs : validator.ValSet)
| call_SyncPeer (addr : common.Address).

(** What the [select] of [handleNewUnminedBlockEvent] receives: an event of
    the subscription ([None]: the channel is closed) or [ctx.Done]. *)
Inductive UnminedSelected :=
| recv_newUnminedBlockEventSub (ev : option backend.Block)
| unmined_ctx_Done.

(** What the [select] of [syncLoop] receives.  A firing of the timer comes
    with the view and the validator set the core holds at that moment: the
    driver goroutine changes them while this loop runs. *)
Inductive SyncSelected :=
| timer_C (view : roundState) (vs : validator.ValSet)
| recv_syncEventSub (ev : option common.Address)
| sync_ctx_Done.

Section loops.
Context {B Ext : Type} `{!Collaborators B Ext}.

(** [c.storeUnminedBlockMsg], defined with the proposer's block supply. *)
Variable storeUnminedBlockMsg : backend.Block -> core B Ext -> core B Ext.

(** The loop of [handleNewUnminedBlockEvent]: the struct, the calls made
    and whether the loop was left ([false]: it waits in [select]). *)
Fixpoint unminedLoop (evs : list UnminedSelected) (c : core B Ext)
  : core B Ext * list LoopCall * bool :=
  match evs with
  | [] => (c, [], false)
  | recv_newUnminedBlockEventSub None :: _ => (c, [], true)
  | recv_newUnminedBlockEventSub (Some pb) :: rest =>
      let '(c', log, exited) := unminedLoop rest (storeUnminedBlockMsg pb c) in
      (c', call_storeUnminedBlockMsg pb :: log, exited)
  | unmined_ctx_Done :: _ => (c, [], true)
  end.

Definition handleNewUnminedBlockEvent (evs : list UnminedSelected) (c : core B Ext)
  : core B Ext * list LoopCall * bool :=
  let '(c', log, exited) := unminedLoop evs c in
  if exited then (c', log ++ [call_stopped_send], true) else (c', log, false).

(** The loop of [syncLoop], with its two local variables: the calls made and
    whether the function returned. *)
Fixpoint syncLoop_loop (round height : Z) (evs : list SyncSelected)
  : list LoopCall * bool :=
  match evs with
  | [] => ([], false)
  | timer_C view vs :: rest =>
      let currentRound := Round view in
      let currentHeight := Height view in
      let ask :=
        if (currentHeight =? height) && (currentRound =? round)
        then [call_backend_AskSync (validator.Copy vs)] else [] in
      let '(log, returned) := syncLoop_loop currentRound currentHeight rest in
      (ask ++ call_NewTimer :: log, returned)
  | recv_syncEventSub None :: _ => ([], true)
  | recv_syncEventSub (Some addr) :: rest =>
      let '(log, returned) := syncLoop_loop round height rest in
      (call_SyncPeer addr :: log, returned)
  | sync_ctx_Done :: _ => ([], true)
  end.

Definition syncLoop (c : core B Ext) (evs : list SyncSelected) : list LoopCall * bool :=
  let round := Round (currentRoundState c) in
  let height := Height (currentRoundState c) in
  let '(log, returned) := syncLoop_loop round height evs in
  (call_NewTimer :: call_backend_AskSync (validator.Copy (valSet c)) :: log, returned).

(** [Start] once both guards are passed, up to the call of [backend.Start]. *)
Definition Start_entered (w : world B Ext) : world B Ext :=
  emit call_backend_Start (upd (set_cancel true) (upd (set_isStarting 1) w)).

(** [testBacklog] on one future-round message after the other. *)
Definition feed_future_round (msgs : list (Message * validator.Validator))
    (w : world B Ext) : world B Ext :=
  foldl (fun w ms => fst (testBacklog ms.1 ms.2 w (Some errFutureRoundMessage))) w msgs.

End loops.

(** Reading the logs. *)
Definition is_AskSync (k : LoopCall) : bool :=
  match k with call_backend_AskSync _ => true | _ => false end.

Definition synced_peers (log : list LoopCall) : list common.Address :=
  omap (fun k => match k with call_SyncPeer a => Some a | _ => None end) log.

Definition ticks (evs : list SyncSelected) : list roundState :=
  omap (fun e => match e with timer_C view _ => Some view | _ => None end) evs.

Definition sync_requests (evs : list SyncSelected) : list common.Address :=
  omap (fun e => match e with recv_syncEventSub (Some a) => Some a | _ => None end) evs.

(** The view differs from one firing of the timer to the next, starting
    from [prev]. *)
Fixpoint view_changes (prev : roundState) (views : list roundState) : Prop :=
  match views with
  | [] => True
  | v :: rest => v <> prev /\ view_changes v rest
  end.

(** No close and no cancellation among the events. *)
Definition sync_goes_on (e : SyncSelected) : bool :=
  match e with
  | timer_C _ _ | recv_syncEventSub (Some _) => true
  | recv_syncEventSub None | sync_ctx_Done => false
  end.

(** The events of the driver's [select] that end its loop. *)
Definition ends_eventLoop (e : Selected) : bool :=
  match e with
  | recv_messageEventSub None | recv_timeoutEventSub None
  | recv_committedSub None | ctx_Done => true
  | _ => false
  end.

End CoreExt.

(** ** [Start] and [Stop] between their atomic operations *)
Module Atomic.
Import Core.

(** The points of a call of [Start] or [Stop] at which another goroutine can
    run: the flags are read and written by atomic operations, one at a
    time.  A call begins at the load of its first guard and goes on to the
    compare-and-swap of its second; once both are passed the body runs, and
    the deferred function then makes its three stores one after the other. *)
Inductive Point :=
| at_load
| at_cas
| at_body
| at_store1 (r : outcome)
| at_store2 (r : outcome)
| at_store3 (r : outcome)
| returned (r : outcome).

Section steps.
Context {B Ext : Type} `{!Collaborators B Ext}.

(** [Start] from the line after the [defer] to its [return]. *)
Definition Start_body (w : world B Ext) : world B Ext * result :=
  let w := upd (set_cancel true) w in
  let w := emit call_backend_Start w in
  let '(b, err) := backend_Start (backend (st w)) in
  let w := upd (set_backend b) w in
  match err with
  | Some err => (w, Some err)
  | None =>
      let w := subscribeEvents w in
      let w := emit call_backend_LastCommittedProposal w in
      let height := backend_LastCommittedProposal (backend (st w)) + 1 in
      let w := upd (fun c => set_currentRoundState
                               (Update 0 height (currentRoundState c)) c) w in
      let w := emit (call_go go_handleNewUnminedBlockEvent) w in
      let w := emit (call_go go_handleConsensusEvents) w in
      let w := emit (call_go go_HandleUnhandledMsgs) w in
      (w, None)
  end.

Definition Start_step (p : Point) (w : world B Ext) : Point * world B Ext :=
  match p with
  | at_load =>
      if isStarted (st w) =? 1 then (returned (returns None), w) else (at_cas, w)
  | at_cas =>
      if negb (isStarting (st w) =? 0) then (returned (returns None), w)
      else (at_body, upd (set_isStarting 1) w)
  | at_body => let '(w, err) := Start_body w in (at_store1 (returns err), w)
  | at_store1 r => (at_store2 r, upd (set_isStarting 0) w)
  | at_store2 r => (at_store3 r, upd (set_isStopped 0) w)
  | at_store3 r => (returned r, upd (set_isStarted 1) w)
  | returned r => (returned r, w)
  end.

(** [Stop] from the line after the [defer] to its [return] or its panic. *)
Definition Stop_body (w : world B Ext) : world B Ext * outcome :=
  let w := emit (call_stopTimer proposeTimeout) w in
  let w := emit (call_stopTimer prevoteTimeout) w in
  let w := emit (call_stopTimer precommitTimeout) w in
  if negb (cancel (st w)) then (w, panics)
  else
    let w := emit call_cancel w in
    let w := emit call_stopFutureProposalTimer w in
    match unsubscribeEvents w with
    | None => (w, panics)
    | Some w =>
        let w := emit call_recv_stopped w in
        let w := emit call_recv_stopped w in
        let w := emit call_backend_Close w in
        let '(b, err) := backend_Close (backend (st w)) in
        let w := upd (set_backend b) w in
        (w, returns err)
    end.

Definition Stop_step (p : Point) (w : world B Ext) : Point * world B Ext :=
  match p with
  | at_load =>
      if isStopped (st w) =? 1 then (returned (returns None), w) else (at_cas, w)
  | at_cas =>
      if negb (isStopping (st w) =? 0) then (returned (returns None), w)
      else (at_body, upd (set_isStopping 1) w)
  | at_body => let '(w, r) := Stop_body w in (at_store1 r, w)
  | at_store1 r => (at_store2 r, upd (set_isStopping 0) w)
  | at_store2 r => (at_store3 r, upd (set_isStopped 1) w)
  | at_store3 r => (returned r, upd (set_isStarted 0) w)
  | returned r => (returned r, w)
  end.

(** A call after [n] of its steps. *)
Fixpoint run (step : Point -> world B Ext -> Point * world B Ext) (n : nat)
    (p : Point) (w : world B Ext) : Point * world B Ext :=
  match n with
  | O => (p, w)
  | S n => let '(p, w) := step p w in run step n p w
  end.

(** The four flags of a core. *)
Definition flags (c : core B Ext) : Z * Z * Z * Z :=
  (isStarted c, isStarting c, isStopped c, isStopping c).

(** The call stands in its deferred function, between the first and the
    last of the three stores. *)
Definition in_deferred (p : Point) : bool :=
  match p with
  | at_store2 _ | at_store3 _ => true
  | _ => false
  end.

End steps.

End Atomic.

(** ** package backend: the rest of backend.go *)
Module backendExt.
Import backend.

(** Error values of other packages that backend.go compares with or
    returns: [core.ErrBlacklistedHash], [errInconsistentValidatorSet],
    [consensus.ErrFutureBlock], [types.ErrEmptyCommittedSeals]. *)
Definition ErrBlacklistedHash : error := errOther 100.
Definition errInconsistentValidatorSet : error := errOther 101.
Definition ErrFutureBlock : error := errOther 102.
Definition ErrEmptyCommittedSeals : error := errOther 103.

(** [ringCapacity]: 10 rounds, 20 validators, 3 message types. *)
Definition ringCapacity : Z := 10 * 20 * 3.

(** Go's [uint64] and the conversion [big.Int.Uint64]. *)
Definition wrapU64 (z : Z) : Z := z mod 2 ^ 64.

(** The consensus configuration and the part of the chain configuration
    [New] reads. *)
Record Config := {
  RequestTimeout : Z;
  BlockPeriod : Z;
  ProposerPolicy : Z;
  Epoch : Z
}.

(** The cryptography and the chain behind the backend: code of other
    packages that backend.go calls. *)
Class Chain := {
  PrivateKey : Type;
  (** the address of the public half of a key *)
  PubkeyToAddress : PrivateKey -> common.Address;
  Keccak256 : bytes -> bytes;
  crypto_Sign : bytes -> PrivateKey -> bytes + error;
  GetSignatureAddress : bytes -> bytes -> common.Address + error;
  (** the state database with the gas pool and the used-gas counter *)
  State : Type;
  Tx : Type;
  Receipt : Type;
  Block_ParentHash : Block -> common.Hash;
  Block_Transactions : Block -> list Tx;
  Block_Root : Block -> common.Hash;
  Header_Time : Header -> Z;
  VerifyHeader : Header -> result;
  GetBlock : common.Hash -> Z -> option Block;
  StateAt : common.Hash -> State + error;
  ValidateBody : Block -> result;
  Prepare : Tx -> Block -> nat -> State -> State;
  ApplyTransaction : Header -> Tx -> State -> (State * Receipt) + error;
  DeployAutonityContract : Header -> State -> State * result;
  ApplyPerformRedistribution : list Tx -> list Receipt -> Header -> State -> State * result;
  ValidateState : Block -> State -> list Receipt -> result;
  ContractGetValidators : Header -> State -> list common.Address + error;
  retrieveSavedValidators : Z -> list common.Address + error;
  (** [None]: the nil pointer [ExtractBFTHeaderExtra] returns with an error *)
  ExtractBFTHeaderExtra : Header -> option (list common.Address);
  (** [time.Unix(t, 0).Sub(now())] *)
  Sub_now : Z -> Z
}.

Section rest.
Context `{!Host} `{!Chain}.

(** [msg.Payload()] of the core's message type; [Purge] of the cache;
    the sizes of the two caches declared elsewhere. *)
Variable Payload : Core.Message -> bytes + error.
Variable Purge : ARCCache bool -> ARCCache bool.
Variable inmemorySnapshots inmemoryPeers : Z.

(** The [Backend] struct with the fields the rest of backend.go uses:
    [base] holds those of the gossip and commit code. *)
Record Node := mkNode {
  base : Backend _;
  config : Config;
  privateKey : PrivateKey;
  coreStarted : bool;
  (** [nil] until the engine is started *)
  hasBadBlock : option (common.Hash -> bool);
  recents : ARCCache unit;
  pendingMessages_capacity : Z
}.

Definition set_address (a : common.Address) (sb : Backend _) : Backend _ :=
  mkBackend a (broadcaster sb) (commitCh sb) (proposedBlockHash sb)
    (recentMessages sb) (knownMessages sb) (arcs sb) (sent sb).

(** [config.SetProposerPolicy]. *)
Definition SetProposerPolicy (p : Z) (c : Config) : Config :=
  {| RequestTimeout := RequestTimeout c; BlockPeriod := BlockPeriod c;
     ProposerPolicy := p; Epoch := Epoch c |}.

(** [New].  [chainConfig] stands for [chainConfig.Tendermint]; the fields of
    the struct literal that are not listed start as zero values. *)
Definition New (config : Config) (privateKey : PrivateKey) (chainConfig : Config) : Node :=
  let config :=
    if negb (Epoch chainConfig =? 0)
    then {| RequestTimeout := RequestTimeout config; BlockPeriod := BlockPeriod config;
            ProposerPolicy := ProposerPolicy config; Epoch := Epoch chainConfig |}
    else config in
  let config :=
    if negb (RequestTimeout chainConfig =? 0)
    then {| RequestTimeout := RequestTimeout chainConfig; BlockPeriod := BlockPeriod config;
            ProposerPolicy := ProposerPolicy config; Epoch := Epoch config |}
    else config in
  let config :=
    if negb (BlockPeriod chainConfig =? 0)
    then {| RequestTimeout := RequestTimeout config; BlockPeriod := BlockPeriod chainConfig;
            ProposerPolicy := ProposerPolicy config; Epoch := Epoch config |}
    else config in
  let config := SetProposerPolicy (ProposerPolicy chainConfig) config in
  let recents := NewARC inmemorySnapshots in
  let recentMessages := NewARC inmemoryPeers in
  let knownMessages := NewARC inmemoryMessages in
  mkNode
    (mkBackend (PubkeyToAddress privateKey) None false 0%N
       recentMessages knownMessages ∅ [])
    config privateKey false None recents ringCapacity.

(** [Address], [GetPrivateKey] (a copy of the key), [SetPrivateKey]. *)
Definition Node_Address (n : Node) : common.Address := address (base n).

Definition GetPrivateKey (n : Node) : PrivateKey := privateKey n.

Definition SetPrivateKey (key : PrivateKey) (n : Node) : Node :=
  mkNode (set_address (PubkeyToAddress key) (base n)) (config n) key
    (coreStarted n) (hasBadBlock n) (recents n) (pendingMessages_capacity n).

Definition Sign (data : bytes) (n : Node) : bytes + error :=
  let hashData := Keccak256 data in
  crypto_Sign hashData (GetPrivateKey n).

Definition CheckSignature (data : bytes) (address : common.Address) (sig : bytes) : result :=
  match GetSignatureAddress data sig with
  | inr err => Some err
  | inl signer =>
      if negb (signer =? address)%N then Some ErrInvalidSignature else None
  end.

Definition HasBadProposal (n : Node) (hash : common.Hash) : bool :=
  match hasBadBlock n with
  | None => false
  | Some f => f hash
  end.

(** Modelled from the spec: [validator.NewSet], declared with the validator
    set; §3: an ordered sequence of validator ids.  The policy plays no part
    in what this file proves. *)
Definition NewSet (addrs : list common.Address) (policy : Z) : validator.ValSet :=
  {| validator.List := map (fun a => {| validator.Address := a |}) addrs |}.

Definition Validators (number : Z) (n : Node) : validator.ValSet :=
  match retrieveSavedValidators number with
  | inr _ => NewSet [] (ProposerPolicy (config n))
  | inl validators => NewSet validators (ProposerPolicy (config n))
  end.

(** [Broadcast]: the backend after the gossip, the payloads of the message
    events posted to the node's own mux, and the result. *)
Definition Broadcast (valSet : validator.ValSet) (payload : bytes) (sb : Backend _)
  : Backend _ * list bytes * result :=
  let sb := Gossip valSet payload sb in
  (sb, [payload], None).

(** [ps[address]] on the map [FindPeers] returns. *)
Definition lookup_peer (ps : list (common.Address * Peer)) (address : common.Address)
  : option Peer :=
  snd <$> find (fun ap => (ap.1 =? address)%N) ps.

(** One turn of the loop of [SyncPeer]. *)
Definition SyncPeer_send (address : common.Address) (p : Peer) (sb : Backend _)
    (msg : Core.Message) : Backend _ :=
  match Payload msg with
  | inr _ => sb
  | inl payload => emit (Send address p tendermintMsg payload) sb
  end.

(** What a connected peer is sent for a list of messages: the payloads that
    could be built, in order. *)
Definition sync_payloads (address : common.Address) (p : Peer)
    (messages : list Core.Message) : list Effect :=
  omap (fun msg => match Payload msg with
                   | inl payload => Some (Send address p tendermintMsg payload)
                   | inr _ => None
                   end) messages.

Definition SyncPeer (address : common.Address) (messages : list Core.Message)
    (sb : Backend _) : Backend _ :=
  match broadcaster sb with
  | None => sb
  | Some b =>
      let targets : gset common.Address := {[address]} in
      let ps := FindPeers b targets in
      match lookup_peer ps address with
      | None => sb
      | Some p => foldl (SyncPeer_send address p) sb messages
      end
  end.

Definition ResetPeerCache (address : common.Address) (sb : Backend _) : Backend _ :=
  let '(rm, ms) := Get (recentMessages sb) address in
  let sb := set_recentMessages rm sb in
  match ms with
  | Some l => set_arcs (<[l := Purge (deref sb l)]> (arcs sb)) sb
  | None => sb
  end.

(** *** VerifyProposal *)

(** How [VerifyProposal] ends: with a duration and an error value, or in a
    panic on a nil pointer. *)
Inductive verdict :=
| verdict_return (d : Z) (err : result)
| verdict_panic.

(** The loop over the transactions of the block: the state and the receipts
    so far, or the error of the first transaction that fails. *)
Fixpoint apply_transactions (header : Header) (block : Block) (i : nat)
    (txs : list Tx) (state : State) (receipts : list Receipt)
  : (State * list Receipt) + error :=
  match txs with
  | [] => inl (state, receipts)
  | tx :: rest =>
      let state := Prepare tx block i state in
      match ApplyTransaction header tx state with
      | inr receiptErr => inr receiptErr
      | inl (state, receipt) =>
          apply_transactions header block (S i) rest state (receipts ++ [receipt])
      end
  end.

(** The loop [for i := range validators] once the lengths are equal. *)
Fixpoint same_validators (extra validators : list common.Address) : bool :=
  match extra, validators with
  | e :: extra, v :: validators =>
      if negb (e =? v)%N then false else same_validators extra validators
  | _, _ => true
  end.

Definition compare_validators (extra validators : list common.Address) : result :=
  if negb (length extra =? length validators)%nat
  then Some errInconsistentValidatorSet
  else if same_validators extra validators then None
       else Some errInconsistentValidatorSet.

(** The branch of [VerifyProposal] that a valid header leads to. *)
Definition VerifyProposal_body (block : Block) : verdict :=
  let header := Block_Header block in
  let proposalNumber := wrapU64 (Number header) in
  match GetBlock (Block_ParentHash block) (wrapU64 (wrapU64 (Number (Block_Header block)) - 1)) with
  | None => verdict_panic
  | Some parent =>
      match StateAt (Block_Root parent) with
      | inr stateErr => verdict_return 0 (Some stateErr)
      | inl state =>
          match ValidateBody block with
          | Some err => verdict_return 0 (Some err)
          | None =>
              match apply_transactions header block 0 (Block_Transactions block) state [] with
              | inr receiptErr => verdict_return 0 (Some receiptErr)
              | inl (state, receipts) =>
                  let '(state, err) :=
                    if proposalNumber =? 1 then DeployAutonityContract header state
                    else if proposalNumber >? 1 then
                      ApplyPerformRedistribution (Block_Transactions block) receipts
                        (Block_Header block) state
                    else (state, None) in
                  match err with
                  | Some err => verdict_return 0 (Some err)
                  | None =>
                      match ValidateState block state receipts with
                      | Some err => verdict_return 0 (Some err)
                      | None =>
                          match (if proposalNumber >? 1
                                 then ContractGetValidators header state
                                 else retrieveSavedValidators 1) with
                          | inr err => verdict_return 0 (Some err)
                          | inl validators =>
                              match ExtractBFTHeaderExtra header with
                              | None => verdict_panic
                              | Some extra =>
                                  verdict_return 0 (compare_validators extra validators)
                              end
                          end
                      end
                  end
              end
          end
      end
  end.

Definition VerifyProposal (proposal : Block) (n : Node) : verdict :=
  let block := proposal in
  if HasBadProposal n (Block_Hash block) then verdict_return 0 (Some ErrBlacklistedHash)
  else
    let err := VerifyHeader (Block_Header block) in
    if bool_decide (err = None \/ err = Some ErrEmptyCommittedSeals)
    then VerifyProposal_body block
    else if bool_decide (err = Some ErrFutureBlock)
    then verdict_return (Sub_now (Header_Time (Block_Header block))) (Some ErrFutureBlock)
    else verdict_return 0 err.

(** What can be said of a cache of bounded size, in terms of what it holds
    ([content]) and of the number of new keys it still takes before it
    evicts an entry ([room]): a lookup returns what is held and changes
    neither; an [Add] of a key that is held, or while there is room, stores
    the value and evicts nothing; and only the [Add] of a new key uses up
    room, one place at a time. *)
Definition bounded_cache
    (content : forall V, ARCCache V -> gmap N V)
    (room : forall V, ARCCache V -> nat) : Prop :=
  (forall V (c : ARCCache V) k,
      (Get c k).2 = content V c !! k /\
      content V (Get c k).1 = content V c /\
      room V (Get c k).1 = room V c) /\
  (forall V (c : ARCCache V) k v,
      is_Some (content V c !! k) \/ (0 < room V c)%nat ->
      content V (Add c k v) = <[k := v]> (content V c)) /\
  (forall V (c : ARCCache V) k v,
      is_Some (content V c !! k) -> room V (Add c k v) = room V c) /\
  (forall V (c : ARCCache V) k v,
      content V c !! k = None -> (0 < room V c)%nat ->
      room V (Add c k v) = pred (room V c)).

(** The peer has a cache that holds the hash, in terms of [content]. *)
Definition served (content : forall V, ARCCache V -> gmap N V) (hash : N)
    (sb : Backend _) (addr : N) : Prop :=
  exists l m,
    content _ (recentMessages sb) !! addr = Some l /\
    arcs sb !! l = Some m /\
    is_Some (content _ m !! hash).

(** Every cache of a peer holds the hash or has room for it. *)
Definition roomy (content : forall V, ARCCache V -> gmap N V)
    (room : forall V, ARCCache V -> nat) (hash : N) (sb : Backend _) : Prop :=
  forall l m, arcs sb !! l = Some m ->
    is_Some (content _ m !! hash) \/ (0 < room _ m)%nat.

(** The peers [Gossip] ranges over. *)
Definition gossip_peers (valSet : validator.ValSet) (sb : Backend _)
  : list (common.Address * Peer) :=
  match broadcaster sb with
  | Some b =>
      if Z.of_nat (size (targets_of sb valSet)) >? 0
      then FindPeers b (targets_of sb valSet) else []
  | None => []
  end.

End rest.

Arguments Node {_ _}.

End backendExt.

(** ** More test doubles *)
Module double2.
Import Core double.

(** Collaborators whose [backend.Start] fails. *)
Definition collaborators_down : Collaborators Z Ext := {|
  backend_Start := fun b => (b, Some ErrStoppedEngine);
  backend_Close := fun b => (b, None);
  backend_LastCommittedProposal := fun b => b;
  backend_Gossip := fun _ _ b => b;
  Core.rlpDecode := rlpDecode;
  recoverSigner := fun m => inl (Address m);
  Core.Decode_Proposal := Decode_Proposal;
  Core.Decode_Vote := Decode_Vote;
  Core.Payload := Payload;
  Core.handleProposal := handleProposal;
  handlePrevote := handleVote;
  handlePrecommit := handleVote;
  Core.storeBacklog := storeBacklog;
  Core.startRound := startRound;
  handleTimeoutPropose := fun _ c => c;
  handleTimeoutPrevote := fun _ c => c;
  handleTimeoutPrecommit := fun _ c => c;
  handleCommit := fun c => c
|}.

(** A wire format for rounds of any size: the bytes of the payload but the
    last are the round, big-endian, and the last byte is the height.  On a
    payload of two bytes it is the format of [double]. *)
Definition big_endian (b : bytes) : Z := Z.of_N (hash_bytes b).

Definition Decode_Proposal_wide (m : Message) : option Proposal :=
  match reverse (Msg m) with
  | h :: rs =>
      Some {| Proposal_Round := big_endian (reverse rs);
              Proposal_Height := Z.of_N (Byte.to_N h);
              Proposal_ValidRound := -1; Proposal_Block := 0%N |}
  | [] => None
  end.

Definition Decode_Vote_wide (m : Message) : option Vote :=
  match reverse (Msg m) with
  | h :: rs =>
      Some {| Vote_Round := big_endian (reverse rs);
              Vote_Height := Z.of_N (Byte.to_N h);
              Vote_ProposedBlockHash := 0%N |}
  | [] => None
  end.

Definition handleProposal_wide (m : Message) (c : core Z Ext) : core Z Ext * result :=
  match Decode_Proposal_wide m with
  | None => (c, Some errFailedDecodeProposal)
  | Some p => (c, checkMessage c (Code m) (Proposal_Round p) (Proposal_Height p))
  end.

Definition handleVote_wide (m : Message) (c : core Z Ext) : core Z Ext * result :=
  match Decode_Vote_wide m with
  | None => (c, Some errFailedDecodeVote)
  | Some v => (c, checkMessage c (Code m) (Vote_Round v) (Vote_Height v))
  end.

Definition collaborators_wide : Collaborators Z Ext := {|
  backend_Start := fun b => (b, None);
  backend_Close := fun b => (b, None);
  backend_LastCommittedProposal := fun b => b;
  backend_Gossip := fun _ _ b => b;
  Core.rlpDecode := rlpDecode;
  recoverSigner := fun m => inl (Address m);
  Core.Decode_Proposal := Decode_Proposal_wide;
  Core.Decode_Vote := Decode_Vote_wide;
  Core.Payload := Payload;
  Core.handleProposal := handleProposal_wide;
  handlePrevote := handleVote_wide;
  handlePrecommit := handleVote_wide;
  Core.storeBacklog := storeBacklog;
  Core.startRound := startRound;
  handleTimeoutPropose := fun _ c => c;
  handleTimeoutPrevote := fun _ c => c;
  handleTimeoutPrecommit := fun _ c => c;
  handleCommit := fun c => c
|}.


(** A prevote for round 0 of height 1 signed by E, who is not in the set
    that node B holds. *)
Definition prevote_E_r0 : bytes := [Byte.x01; Byte.x00; Byte.x01; Byte.x0e].

(** Node B before any [Start]: no flag set, no context, no subscription. *)
Definition core_new : core Z Ext :=
  mkCore 0 0 0 0 false 0 11%N abcd {| Round := 0; Height := 1 |} ∅
    None None None None None {| backlog := []; cur_step := 0 |}.

Definition world_new : world Z Ext := mkWorld core_new [].

(** The double of [storeUnminedBlockMsg] keeps the number of the block as
    the chain head of the backend double. *)
Definition storeUnminedBlockMsg (pb : backend.Block) (c : core Z Ext) : core Z Ext :=
  set_backend (backend.Number (backend.header pb)) c.

(** A cache without a capacity: a finite map. *)
Definition host_unbounded : backend.Host := {|
  backend.ARCCache := gmap N;
  backend.NewARC := fun V _ => ∅;
  backend.Get := fun V c k => (c, c !! k);
  backend.Add := fun V c k v => <[k := v]> c;
  backend.inmemoryMessages := 1024;
  backend.RLPHash := hash_bytes;
  backend.WriteCommittedSeals := backend.WriteCommittedSeals (Host := host);
  backend.Block_Hash := backend.Block_Hash (Host := host)
|}.

Definition Purge (c : gmap N bool) : gmap N bool := ∅.

(** A cache of bounded size that starts afresh when it is full: an [Add]
    of a new key to a full cache drops what was held. *)
Record bounded (V : Type) := { limit : nat; table : gmap N V }.
Arguments limit {V}.
Arguments table {V}.

Definition bounded_new {V : Type} (size : Z) : bounded V :=
  {| limit := Z.to_nat size; table := ∅ |}.

Definition bounded_get {V : Type} (c : bounded V) (k : N) : bounded V * option V :=
  (c, table c !! k).

Definition bounded_add {V : Type} (c : bounded V) (k : N) (v : V) : bounded V :=
  if decide (is_Some (table c !! k) \/ (size (table c) < limit c)%nat)
  then {| limit := limit c; table := <[k := v]> (table c) |}
  else {| limit := limit c;
          table := if decide (limit c = 0%nat) then ∅ else {[k := v]} |}.

Definition host_bounded : backend.Host := {|
  backend.ARCCache := bounded;
  backend.NewARC := @bounded_new;
  backend.Get := @bounded_get;
  backend.Add := @bounded_add;
  backend.inmemoryMessages := 1024;
  backend.RLPHash := hash_bytes;
  backend.WriteCommittedSeals := backend.WriteCommittedSeals (Host := host);
  backend.Block_Hash := backend.Block_Hash (Host := host)
|}.

(** Node B's backend with room for four peers. *)
Definition backendS (b : option backend.Broadcaster) : backend.Backend host_bounded :=
  backend.mkBackend (H := host_bounded) 11%N b false 0%N
    (bounded_new (V := backend.loc) 4) (bounded_new (V := bool) 1024) ∅ [].

Definition backendU (b : option backend.Broadcaster) : backend.Backend host_unbounded :=
  backend.mkBackend (H := host_unbounded) 11%N b false 0%N ∅ ∅ ∅ [].

(** A toy chain.  A key is one byte, its address the byte's value and a
    signature the key itself.  The transactions of a block are the bytes of
    its extra data; a zero transaction fails.  Every header names A, B, C, D
    and is valid. *)
Definition chain : backendExt.Chain := {|
  backendExt.PrivateKey := Byte.byte;
  backendExt.PubkeyToAddress := Byte.to_N;
  backendExt.Keccak256 := fun d => d;
  backendExt.crypto_Sign := fun _ k => inl [k];
  backendExt.GetSignatureAddress := fun _ s =>
    match s with
    | [k] => inl (Byte.to_N k)
    | _ => inr ErrInvalidSignature
    end;
  backendExt.State := nat;
  backendExt.Tx := N;
  backendExt.Receipt := N;
  backendExt.Block_ParentHash := fun b => (backend.body b - 1)%N;
  backendExt.Block_Transactions := fun b => map Byte.to_N (backend.Extra (backend.header b));
  backendExt.Block_Root := backend.body;
  backendExt.Header_Time := fun _ => 0;
  backendExt.VerifyHeader := fun h =>
    if backend.Number h >? 100 then Some backendExt.ErrFutureBlock else None;
  backendExt.GetBlock := fun h number =>
    Some {| backend.header := {| backend.Number := number; backend.Extra := [] |};
            backend.body := h |};
  backendExt.StateAt := fun _ => inl 0%nat;
  backendExt.ValidateBody := fun _ => None;
  backendExt.Prepare := fun _ _ _ s => s;
  backendExt.ApplyTransaction := fun _ tx s =>
    if (tx =? 0)%N then inr (errOther 7) else inl (S s, tx);
  backendExt.DeployAutonityContract := fun _ s => (s, None);
  backendExt.ApplyPerformRedistribution := fun _ _ _ s => (s, None);
  backendExt.ValidateState := fun _ _ _ => None;
  backendExt.ContractGetValidators := fun _ _ => inl [10; 11; 12; 13]%N;
  backendExt.retrieveSavedValidators := fun number =>
    if number >? 100 then inr (errOther 8) else inl [10; 11; 12; 13]%N;
  backendExt.ExtractBFTHeaderExtra := fun _ => Some [10; 11; 12; 13]%N;
  backendExt.Sub_now := fun t => t - 1000
|}.

Definition config0 : backendExt.Config :=
  {| backendExt.RequestTimeout := 10000; backendExt.BlockPeriod := 1;
     backendExt.ProposerPolicy := 0; backendExt.Epoch := 30000 |}.

(** The backend of the node with key 11, fresh from [New], and the same
    with a bad-block check that reports hash 8. *)
Definition node0 : backendExt.Node (H := host_unbounded) (H0 := chain) :=
  backendExt.New (H := host_unbounded) (H0 := chain) 128 64 config0 Byte.x0b config0.

Definition node_wary : backendExt.Node (H := host_unbounded) (H0 := chain) :=
  backendExt.mkNode (backendExt.base node0) (backendExt.config node0)
    (backendExt.privateKey node0) false (Some (fun h => (h =? 8)%N))
    (backendExt.recents node0) backendExt.ringCapacity.

(** Blocks 2 with two good transactions, with a failing second
    transaction, and a block too far ahead. *)
Definition block_ok : backend.Block :=
  {| backend.header := {| backend.Number := 2; backend.Extra := [Byte.x01; Byte.x02] |};
     backend.body := 5%N |}.

Definition block_bad_tx : backend.Block :=
  {| backend.header := {| backend.Number := 2;
                          backend.Extra := [Byte.x01; Byte.x00; Byte.x03] |};
     backend.body := 5%N |}.

(** A block whose hash, 8, is on the list of [node_wary]. *)
Definition block_listed : backend.Block :=
  {| backend.header := {| backend.Number := 2; backend.Extra := [] |};
     backend.body := 6%N |}.

Definition block_future : backend.Block :=
  {| backend.header := {| backend.Number := 101; backend.Extra := [] |};
     backend.body := 5%N |}.

End double2.

(** * Properties of the driver *)

Section driver_properties.
Import Core.
Context {B Ext : Type} `{!Collaborators B Ext}.
Implicit Types (w : world B Ext) (msg : Message) (sender : validator.Validator).

Lemma calls_emit k w : calls (emit k w) = calls w ++ [k].
Proof. reflexivity. Qed.

Lemma st_emit k w : st (emit k w) = st w.
Proof. reflexivity. Qed.

Lemma calls_upd f w : calls (upd f w) = calls w.
Proof. reflexivity. Qed.

Lemma st_upd f w : st (upd f w) = f (st w).
Proof. reflexivity. Qed.

Lemma calls_do_storeBacklog msg sender w :
  calls (do_storeBacklog msg sender w) = calls w ++ [call_storeBacklog msg sender].
Proof. reflexivity. Qed.

Lemma calls_do_startRound r w :
  calls (do_startRound r w) = calls w ++ [call_startRound (currentRoundState (st w)) r].
Proof. reflexivity. Qed.

Lemma run_handler_calls k h w :
  calls (fst (run_handler k h w)) = calls w ++ [k].
Proof. unfold run_handler. simpl. destruct (h (st w)); reflexivity. Qed.

(** A handler is called exactly when the code is one of the three. *)
Lemma dispatch_None msg w :
  dispatch msg w = None <->
  Code msg <> msgProposal /\ Code msg <> msgPrevote /\ Code msg <> msgPrecommit.
Proof.
  unfold dispatch.
  destruct (Z.eqb_spec (Code msg) msgProposal);
    destruct (Z.eqb_spec (Code msg) msgPrevote);
    destruct (Z.eqb_spec (Code msg) msgPrecommit);
    split; try discriminate; try tauto; reflexivity.
Qed.

Lemma dispatch_calls msg w w1 err :
  dispatch msg w = Some (w1, err) -> exists k, calls w1 = calls w ++ [k].
Proof.
  unfold dispatch. intros Hd.
  repeat match type of Hd with
         | (if ?b then _ else _) = _ => destruct b
         end; try discriminate;
    injection Hd as Hd;
    match type of Hd with
    | run_handler ?k ?h w = _ =>
        exists k; rewrite <- (run_handler_calls k h w), Hd; reflexivity
    end.
Qed.

(** Reading back the counter that was just written. *)
Lemma map_get_insert (m : gmap Z Z) k v : map_get (<[k := v]> m) k = v.
Proof. unfold map_get. by rewrite lookup_insert_eq. Qed.

Lemma map_get_insert_ne (m : gmap Z Z) k k' v :
  k' <> k -> map_get (<[k := v]> m) k' = map_get m k'.
Proof. intros Hne. unfold map_get. by rewrite lookup_insert_ne. Qed.

(** The future-round branch of [testBacklog] once the round is decoded. *)
(** The increment touches one counter and nothing else in the struct. *)
Lemma count_future_round_at r w :
  map_get (futureRoundsChange (st (count_future_round r w))) r =
  wrap64 (map_get (futureRoundsChange (st w)) r + 1).
Proof. unfold count_future_round. rewrite st_upd. apply map_get_insert. Qed.

Lemma count_future_round_other r r' w :
  r' <> r ->
  map_get (futureRoundsChange (st (count_future_round r w))) r' =
  map_get (futureRoundsChange (st w)) r'.
Proof. intros Hne. unfold count_future_round. rewrite st_upd. by apply map_get_insert_ne. Qed.

Lemma count_future_round_frame r w :
  calls (count_future_round r w) = calls w /\
  valSet (st (count_future_round r w)) = valSet (st w) /\
  currentRoundState (st (count_future_round r w)) = currentRoundState (st w) /\
  ext (st (count_future_round r w)) = ext (st w) /\
  backend (st (count_future_round r w)) = backend (st w).
Proof. repeat split. Qed.

(** The future-round branch of [testBacklog] once the round is decoded. *)
Lemma testBacklog_future_round msg sender w r :
  decode_msgRound msg = inl r ->
  let w3 := count_future_round r (do_storeBacklog msg sender w) in
  testBacklog msg sender w (Some errFutureRoundMessage) =
    (if map_get (futureRoundsChange (st w3)) r >? validator.F (valSet (st w3))
     then do_startRound r w3 else w3,
     Some errFutureRoundMessage).
Proof.
  intros Hr. cbv zeta. unfold testBacklog. rewrite Hr.
  match goal with |- (if ?b then _ else _) = _ => destruct b end; reflexivity.
Qed.

(** A future-round message whose payload does not decode is parked and
    answered with the decode error; it is not counted. *)
Lemma testBacklog_future_round_undecodable msg sender w e :
  decode_msgRound msg = inr e ->
  testBacklog msg sender w (Some errFutureRoundMessage) =
    (do_storeBacklog msg sender w, Some e).
Proof. intros Hr. unfold testBacklog. by rewrite Hr. Qed.

(** The decode error is one of the two the closure names. *)
Lemma decode_msgRound_error msg e :
  decode_msgRound msg = inr e -> e = errFailedDecodeProposal \/ e = errFailedDecodeVote.
Proof.
  unfold decode_msgRound.
  destruct (Code msg =? msgProposal);
    [destruct (Decode_Proposal msg) | destruct (Decode_Vote msg)];
    intros [= <-]; auto.
Qed.

(** *** Messages that are dropped *)

(** What [handleMsg] hands on: nothing exactly when the payload does not
    decode, the signer cannot be recovered, the signer is not in the
    validator set the core holds, or the signer is not the sender the
    message names. *)
Lemma accepted_None w payload :
  accepted payload w = None <->
  match rlpDecode payload with
  | inr _ => True
  | inl m =>
      match recoverSigner m with
      | inr _ => True
      | inl a => validator.GetByAddress (valSet (st w)) a = None \/ a <> Address m
      end
  end.
Proof.
  unfold accepted, FromPayload, CheckValidatorSignature, validator.Copy.
  destruct (rlpDecode payload) as [m | e]; [| done].
  destruct (recoverSigner m) as [a | e]; [| done].
  destruct (validator.GetByAddress (valSet (st w)) a) as [v |] eqn:Hv; [| tauto].
  apply find_some in Hv as [_ Hv]. apply N.eqb_eq in Hv. rewrite Hv.
  destruct (N.eqb_spec a (Address m)) as [Heq | Hne].
  - split; [done |]. intros [[=] | Hne]. done.
  - split; [| done]. intros _. by right.
Qed.

(** The error of a payload that [FromPayload] refuses. *)
Lemma FromPayload_error payload vs validateFn e :
  FromPayload payload vs validateFn = inr e ->
  e = errInvalidMessage \/ is_errFailedDecode e = true.
Proof.
  unfold FromPayload.
  destruct (rlpDecode payload) as [m | e'].
  - destruct (validateFn vs m) as [v | e2]; [| intros [= <-]; by left].
    destruct (validator.Address v =? Address m)%N; [done | intros [= <-]; by left].
  - destruct (is_errFailedDecode e') eqn:He; intros [= <-]; auto.
Qed.

(** C3.  A payload that fails the decode or the check of its signature
    (it does not decode, its signer cannot be recovered, is not in the
    validator set the core holds or is not the sender the message names)
    makes [handleMsg] return [errInvalidMessage] or one of the
    errFailedDecode errors, and a message whose code is none of proposal,
    prevote, precommit makes [handleCheckedMsg] (and [handleMsg], when the
    message arrives as a payload) return [errInvalidMessage].  In all these
    cases the world is left as it was, also by the turn of the driver's loop
    that received the message: no call to [storeBacklog], to a handler, to
    [startRound] or to [Gossip] is made and the struct is unchanged.
    Whatever error [FromPayload] reports, [handleMsg] returns that very
    error. *)
Theorem malformed_message_is_dropped w payload msg sender :
  (accepted payload w = None <->
   match rlpDecode payload with
   | inr _ => True
   | inl m =>
       match recoverSigner m with
       | inr _ => True
       | inl a => validator.GetByAddress (valSet (st w)) a = None \/ a <> Address m
       end
   end) /\
  (accepted payload w = None ->
   exists e,
     (e = errInvalidMessage \/ is_errFailedDecode e = true) /\
     handleMsg payload w = (w, Some e) /\
     eventStep (recv_messageEventSub (Some (MessageEvent payload))) w = (w, true)) /\
  (Code msg <> msgProposal -> Code msg <> msgPrevote -> Code msg <> msgPrecommit ->
   handleCheckedMsg msg sender w = (w, Some errInvalidMessage) /\
   eventStep (recv_messageEventSub (Some (backlogEvent msg sender))) w = (w, true) /\
   (accepted payload w = Some (msg, sender) ->
    handleMsg payload w = (w, Some errInvalidMessage) /\
    eventStep (recv_messageEventSub (Some (MessageEvent payload))) w = (w, true))) /\
  (forall e,
     FromPayload payload (validator.Copy (valSet (st w))) CheckValidatorSignature = inr e ->
     handleMsg payload w = (w, Some e)).
Proof.
  split; [apply accepted_None |].
  split; [| split; [| intros e Hf; unfold handleMsg; by rewrite Hf]].
  - unfold accepted. intros Hacc.
    destruct (FromPayload payload (validator.Copy (valSet (st w))) CheckValidatorSignature)
      as [x | e] eqn:Hf; [discriminate Hacc |].
    exists e. split; [by apply FromPayload_error in Hf |].
    assert (handleMsg payload w = (w, Some e)) as Hh by (unfold handleMsg; by rewrite Hf).
    split; [exact Hh |]. cbn [eventStep]. by rewrite Hh.
  - intros H1 H2 H3.
    assert (handleCheckedMsg msg sender w = (w, Some errInvalidMessage)) as Hc.
    { unfold handleCheckedMsg.
      by rewrite (proj2 (dispatch_None msg w) (conj H1 (conj H2 H3))). }
    split; [exact Hc |]. split; [cbn [eventStep]; by rewrite Hc |].
    unfold accepted. intros Hacc.
    assert (handleMsg payload w = (w, Some errInvalidMessage)) as Hh.
    { unfold handleMsg.
      destruct (FromPayload payload (validator.Copy (valSet (st w))) CheckValidatorSignature)
        as [[m v] | e]; [| discriminate Hacc].
      injection Hacc as -> ->. exact Hc. }
    split; [exact Hh |]. cbn [eventStep]. by rewrite Hh.
Qed.

(** *** Messages that are accepted *)

Lemma GetByAddress_Some vs a v :
  validator.GetByAddress vs a = Some v ->
  In v (validator.List vs) /\ validator.Address v = a.
Proof.
  unfold validator.GetByAddress. intros Hf.
  apply find_some in Hf as [Hin Heq]. split; [done |].
  by apply N.eqb_eq.
Qed.

(** C4, as the code has it.  [handleMsg] passes a payload on to
    [handleCheckedMsg] only if it decodes and the recovered signer is a
    member of [c.valSet], the validator set the core currently holds (and is
    the sender the message names); in every other case it returns an error
    and leaves the world as it was. *)
Theorem handleMsg_accepts_members_of_valSet w payload :
  (exists msg sender,
      rlpDecode payload = inl msg /\
      recoverSigner msg = inl (validator.Address sender) /\
      In sender (validator.List (valSet (st w))) /\
      validator.Address sender = Address msg /\
      accepted payload w = Some (msg, sender) /\
      handleMsg payload w = handleCheckedMsg msg sender w) \/
  (exists e, accepted payload w = None /\ handleMsg payload w = (w, Some e)).
Proof.
  unfold handleMsg, accepted, FromPayload, CheckValidatorSignature, validator.Copy.
  destruct (rlpDecode payload) as [msg | e] eqn:Hm; [| right; by eexists].
  destruct (recoverSigner msg) as [a | e] eqn:Ha; [| right; by eexists].
  destruct (validator.GetByAddress (valSet (st w)) a) as [v |] eqn:Hv;
    [| right; by eexists].
  apply GetByAddress_Some in Hv as [Hin <-].
  destruct (N.eqb_spec (validator.Address v) (Address msg)) as [Heq | Hne];
    [| right; by eexists].
  left. exists msg, v. repeat split; done.
Qed.

(** *** Future messages *)






End driver_properties.

(** * Properties of the life cycle and of the event loop *)

Section lifecycle_properties.
Import Core.
Context {B Ext : Type} `{!Collaborators B Ext}.
Implicit Types (w : world B Ext) (msg : Message) (sender : validator.Validator).

(** *** Start and Stop *)

Lemma Start_guarded w :
  isStarted (st w) = 1 \/ isStarting (st w) <> 0 -> Start w = (w, None).
Proof.
  intros [Hs | Hs]; unfold Start.
  - by rewrite Hs.
  - destruct (isStarted (st w) =? 1); [done |].
    destruct (Z.eqb_spec (isStarting (st w)) 0); [done | reflexivity].
Qed.

Lemma Stop_guarded w :
  isStopped (st w) = 1 \/ isStopping (st w) <> 0 -> Stop w = (w, returns None).
Proof.
  intros [Hs | Hs]; unfold Stop.
  - by rewrite Hs.
  - destruct (isStopped (st w) =? 1); [done |].
    destruct (Z.eqb_spec (isStopping (st w)) 0); [done | reflexivity].
Qed.

(** Whatever way [Start] returns, the next [Start] meets a guard. *)
Lemma Start_leaves_guard w :
  isStarted (st (fst (Start w))) = 1 \/ isStarting (st (fst (Start w))) <> 0.
Proof.
  unfold Start.
  destruct (Z.eqb_spec (isStarted (st w)) 1) as [Hs | Hs]; [by left |].
  destruct (Z.eqb_spec (isStarting (st w)) 0) as [Hi | Hi]; [| by right].
  cbn [negb]. left.
  destruct (backend_Start _) as [b [err |]]; reflexivity.
Qed.

Lemma Stop_leaves_guard w :
  isStopped (st (fst (Stop w))) = 1 \/ isStopping (st (fst (Stop w))) <> 0.
Proof.
  unfold Stop.
  destruct (Z.eqb_spec (isStopped (st w)) 1) as [Hs | Hs]; [by left |].
  destruct (Z.eqb_spec (isStopping (st w)) 0) as [Hi | Hi]; [| by right].
  cbn [negb]. left.
  destruct (negb (cancel _)); [reflexivity |].
  destruct (unsubscribeEvents _) as [w' |]; [| reflexivity].
  destruct (backend_Close _) as [b [err |]]; reflexivity.
Qed.

(** *** The event loop only adds calls *)

Lemma extends_refl w : extends w w.
Proof. exists []. by rewrite app_nil_r. Qed.

Lemma extends_trans w1 w2 w3 : extends w1 w2 -> extends w2 w3 -> extends w1 w3.
Proof.
  intros [m1 H1] [m2 H2]. exists (m1 ++ m2). by rewrite H2, H1, app_assoc.
Qed.

Lemma extends_emit k w : extends w (emit k w).
Proof. by exists [k]. Qed.

Lemma extends_upd f w : extends w (upd f w).
Proof. exists []. by rewrite app_nil_r. Qed.

Lemma testBacklog_extends msg sender w err :
  extends w (fst (testBacklog msg sender w err)).
Proof.
  unfold testBacklog.
  destruct err as [[] |]; try apply extends_refl;
    try (by exists [call_storeBacklog msg sender]).
  destruct (decode_msgRound msg) as [r | e'];
    [| by exists [call_storeBacklog msg sender]].
  match goal with |- context [if ?b then _ else _] => destruct b end.
  - by exists [call_storeBacklog msg sender;
               call_startRound
                 (currentRoundState
                    (st (count_future_round r (do_storeBacklog msg sender w)))) r];
      cbn; rewrite <- app_assoc.
  - by exists [call_storeBacklog msg sender].
Qed.

Lemma handleCheckedMsg_extends msg sender w :
  extends w (fst (handleCheckedMsg msg sender w)).
Proof.
  unfold handleCheckedMsg.
  destruct (dispatch msg w) as [[w1 err] |] eqn:Hd; [| apply extends_refl].
  apply dispatch_calls in Hd as [k Hk].
  eapply extends_trans; [by exists [k] | apply testBacklog_extends].
Qed.

Lemma handleMsg_extends payload w :
  extends w (fst (handleMsg payload w)).
Proof.
  unfold handleMsg.
  destruct (FromPayload _ _ _) as [[msg sender] | e]; [| apply extends_refl].
  apply handleCheckedMsg_extends.
Qed.

Lemma eventStep_extends ev w : extends w (fst (eventStep ev w)).
Proof.
  destruct ev as [[[payload | msg src |] |] | [[e |] |] | [[|] |] |]; cbn [eventStep];
    try apply extends_refl.
  - pose proof (handleMsg_extends payload w) as He.
    destruct (handleMsg payload w) as [w1 [err |]]; [done |].
    eapply extends_trans; [exact He |]. unfold do_Gossip. cbn.
    eapply extends_trans; [apply extends_emit | apply extends_upd].
  - pose proof (handleCheckedMsg_extends msg src w) as He.
    destruct (handleCheckedMsg msg src w) as [w1 [err |]]; [done |].
    destruct (Payload msg) as [p | e]; [| done].
    eapply extends_trans; [exact He |]. unfold do_Gossip. cbn.
    eapply extends_trans; [apply extends_emit | apply extends_upd].
  - repeat match goal with |- context [if ?b then _ else _] => destruct b end;
      cbn; try apply extends_refl; apply extends_emit.
  - apply extends_emit.
Qed.

Lemma eventLoop_extends evs w : extends w (fst (eventLoop evs w)).
Proof.
  revert w. induction evs as [| ev evs IH]; intros w; [apply extends_refl |].
  cbn [eventLoop].
  pose proof (eventStep_extends ev w) as He.
  destruct (eventStep ev w) as [w1 [|]]; [| done].
  eapply extends_trans; [exact He | apply IH].
Qed.

(** The driver goroutine begins with [startRound(0)] and [go syncLoop]. *)
Lemma handleConsensusEvents_begins evs w :
  exists more,
    calls (fst (handleConsensusEvents evs w)) =
    calls w ++ call_startRound (currentRoundState (st w)) 0
            :: call_go go_syncLoop :: more.
Proof.
  unfold handleConsensusEvents.
  set (w1 := emit (call_go go_syncLoop) (do_startRound 0 w)).
  destruct (eventLoop_extends evs w1) as [more Hm].
  destruct (eventLoop evs w1) as [w2 [|]]; cbn [fst] in *.
  - exists (more ++ [call_send_stopped]).
    rewrite calls_emit, Hm. subst w1. cbn. by rewrite <- !app_assoc.
  - exists more. rewrite Hm. subst w1. cbn. by rewrite <- !app_assoc.
Qed.

(** C6.  A [Start] that passes both guards and whose [backend.Start]
    succeeds returns nil with the current round state at round 0 and at the
    height of the last committed block plus one.  Its only calls are
    [backend.Start], the five subscriptions, [LastCommittedProposal] and the
    three [go] statements: nothing is loaded, and the counters, the
    validator set and the rest of the struct (locks, old rounds, votes) are
    what they were.  The driver goroutine then first calls [startRound(0)],
    at that view. *)
Theorem Start_enters_round_zero w b :
  isStarted (st w) <> 1 ->
  isStarting (st w) = 0 ->
  backend_Start (backend (st w)) = (b, None) ->
  let w' := fst (Start w) in
  let view := {| Round := 0; Height := backend_LastCommittedProposal b + 1 |} in
  snd (Start w) = None /\
  currentRoundState (st w') = view /\
  ext (st w') = ext (st w) /\
  futureRoundsChange (st w') = futureRoundsChange (st w) /\
  valSet (st w') = valSet (st w) /\
  calls w' = calls w ++
    [call_backend_Start;
     call_backend_Subscribe [MessageEvent_t; backlogEvent_t];
     call_backend_Subscribe [NewUnminedBlockEvent_t];
     call_backend_Subscribe [TimeoutEvent_t];
     call_backend_Subscribe [CommitEvent_t];
     call_backend_Subscribe [SyncEvent_t];
     call_backend_LastCommittedProposal;
     call_go go_handleNewUnminedBlockEvent;
     call_go go_handleConsensusEvents;
     call_go go_HandleUnhandledMsgs] /\
  forall evs, exists more,
    calls (fst (handleConsensusEvents evs w')) =
    calls w' ++ call_startRound view 0 :: call_go go_syncLoop :: more.
Proof.
  intros Hs Hi Hb w' view.
  assert (Start w =
            (upd Start_deferred
               (emit (call_go go_HandleUnhandledMsgs)
               (emit (call_go go_handleConsensusEvents)
               (emit (call_go go_handleNewUnminedBlockEvent)
               (upd (fun c => set_currentRoundState
                                (Update 0 (backend_LastCommittedProposal b + 1)
                                   (currentRoundState c)) c)
               (emit call_backend_LastCommittedProposal
               (subscribeEvents
               (upd (set_backend b)
               (emit call_backend_Start
               (upd (set_cancel true) (upd (set_isStarting 1) w)))))))))),
             None)) as HS.
  { unfold Start.
    destruct (Z.eqb_spec (isStarted (st w)) 1) as [| _]; [done |].
    rewrite Hi. cbn [Z.eqb negb].
    cbn [st emit upd backend set_cancel set_isStarting set_flags].
    rewrite Hb. reflexivity. }
  subst w'. rewrite HS. cbn [fst snd].
  repeat (split; [first [reflexivity | cbn; by rewrite <- !app_assoc] |]).
  intros evs.
  destruct (handleConsensusEvents_begins evs
              (fst (Start w))) as [more Hm].
  rewrite HS in Hm. cbn [fst] in Hm.
  exists more. exact Hm.
Qed.

(** C8.  For a message event the driver gossips the payload exactly when
    [handleMsg] returned nil: on nil the only call it adds is the [Gossip]
    of that payload to a copy of the validator set, on an error (a future
    classification among them) it adds no call at all.  For a backlog event
    the driver gossips the message's payload once [handleCheckedMsg]
    returned nil and the payload could be rebuilt. *)
Theorem gossip_iff_handled w w1 payload e msg src p :
  (let handled := handleMsg payload w in
   calls (fst (eventStep (recv_messageEventSub (Some (MessageEvent payload))) w)) =
     calls (fst handled) ++ [call_backend_Gossip (valSet (st (fst handled))) payload]
   <-> snd handled = None) /\
  (handleMsg payload w = (w1, None) ->
   eventStep (recv_messageEventSub (Some (MessageEvent payload))) w =
     (do_Gossip payload w1, true) /\
   calls (do_Gossip payload w1) =
     calls w1 ++ [call_backend_Gossip (valSet (st w1)) payload]) /\
  (handleMsg payload w = (w1, Some e) ->
   eventStep (recv_messageEventSub (Some (MessageEvent payload))) w = (w1, true)) /\
  (handleCheckedMsg msg src w = (w1, None) ->
   Payload msg = inl p ->
   eventStep (recv_messageEventSub (Some (backlogEvent msg src))) w =
     (do_Gossip p w1, true) /\
   calls (do_Gossip p w1) =
     calls w1 ++ [call_backend_Gossip (valSet (st w1)) p]).
Proof.
  split; [| split; [| split]].
  - cbv zeta. cbn [eventStep].
    destruct (handleMsg payload w) as [wh [err |]]; cbn [fst snd].
    + split; [| done]. intros Hc.
      apply (f_equal length) in Hc. rewrite length_app in Hc. cbn in Hc. lia.
    + split; [done |]. intros _. reflexivity.
  - intros Hh. split; [| reflexivity]. cbn [eventStep]. by rewrite Hh.
  - intros Hh. cbn [eventStep]. by rewrite Hh.
  - intros Hh Hp. split; [| reflexivity]. cbn [eventStep]. by rewrite Hh, Hp.
Qed.

End lifecycle_properties.

(** * Properties of the backend *)

Section backend_properties.
Import backend.
Context `{!Host}.
Implicit Types (sb : Backend _) (valSet : validator.ValSet).

(** *** The targets *)

Lemma targets_of_acc sb (vals : list validator.Validator) (acc : gset common.Address) a :
  a ∈ foldl (fun targets val =>
               if decide (validator.Address val ≠ Address sb)
               then targets ∪ {[validator.Address val]} else targets) acc vals ->
  a ∈ acc \/ (a <> Address sb /\ exists v, In v vals /\ validator.Address v = a).
Proof.
  revert acc. induction vals as [| v vals IH]; intros acc; cbn [foldl]; [by left |].
  intros Ha. apply IH in Ha as [Ha | (Hne & v' & Hin & Hv')].
  - destruct (decide (validator.Address v ≠ Address sb)) as [Hne | _].
    + apply elem_of_union in Ha as [Ha | Ha]; [by left |].
      apply elem_of_singleton in Ha. subst a.
      right. split; [done |]. exists v. split; [by left | done].
    + by left.
  - right. split; [done |]. exists v'. split; [by right | done].
Qed.

(** The node's own address is never a target. *)
Lemma targets_of_spec sb valSet a :
  a ∈ targets_of sb valSet ->
  a <> Address sb /\ exists v, In v (validator.List valSet) /\ validator.Address v = a.
Proof.
  unfold targets_of. intros Ha.
  apply targets_of_acc in Ha as [Ha | Ha]; [| done].
  by apply not_elem_of_empty in Ha.
Qed.

Lemma targets_nonempty (targets : gset common.Address) a :
  a ∈ targets -> (Z.of_nat (size targets) >? 0) = true.
Proof.
  intros Ha. apply Z.gtb_lt.
  destruct (size targets) eqn:Hs; [| lia].
  apply size_empty_iff in Hs. apply Hs in Ha. by apply not_elem_of_empty in Ha.
Qed.

(** *** AskSync *)

(** The loop asks the peers in turn until [count] reaches the quorum. *)
Lemma AskSync_loop_sent ps count quorum sb :
  0 <= count <= quorum ->
  AskSync_loop ps count quorum sb =
  mkBackend (address sb) (broadcaster sb) (commitCh sb) (proposedBlockHash sb)
    (recentMessages sb) (knownMessages sb) (arcs sb)
    (sent sb ++ map sync_request (take (Z.to_nat (quorum - count)) ps)).
Proof.
  revert count sb. induction ps as [| [addr p] ps IH]; intros count sb Hc.
  - cbn. rewrite take_nil. cbn. rewrite app_nil_r. by destruct sb.
  - cbn [AskSync_loop].
    destruct (Z.eqb_spec count quorum) as [-> | Hne].
    + rewrite Z.sub_diag. cbn. rewrite app_nil_r. by destruct sb.
    + rewrite IH by lia. cbn [emit address broadcaster commitCh proposedBlockHash
                              recentMessages knownMessages arcs sent].
      replace (Z.to_nat (quorum - count)) with (S (Z.to_nat (quorum - (count + 1)))) by lia.
      cbn [take map]. by rewrite <- app_assoc.
Qed.

Lemma Quorum_nonneg valSet : 0 <= validator.Quorum valSet.
Proof.
  unfold validator.Quorum, validator.Size.
  apply Z.div_pos; lia.
Qed.

(** C10.  [AskSync] sends the sync request to the first [Quorum()] of the
    connected peers that [FindPeers] returns for the validators other than
    the node itself, and to nobody else: at most [Quorum()] requests, none
    to the node's own address, and none at all when there is no broadcaster
    or no peer is found.  Nothing else in the backend changes.  ([FindPeers]
    is taken to return peers among the targets it is asked for.) *)
Theorem AskSync_asks_a_quorum_of_peers sb valSet :
  (forall b addr p,
      broadcaster sb = Some b ->
      In (addr, p) (FindPeers b (targets_of sb valSet)) ->
      addr ∈ targets_of sb valSet) ->
  AskSync valSet sb =
    mkBackend (address sb) (broadcaster sb) (commitCh sb) (proposedBlockHash sb)
      (recentMessages sb) (knownMessages sb) (arcs sb)
      (sent sb ++ map sync_request (asked sb valSet)) /\
  Z.of_nat (length (asked sb valSet)) <= validator.Quorum valSet /\
  (forall addr p, In (addr, p) (asked sb valSet) ->
     addr <> Address sb /\
     exists b, broadcaster sb = Some b /\
               In (addr, p) (FindPeers b (targets_of sb valSet))) /\
  (broadcaster sb = None -> asked sb valSet = []) /\
  (forall b, broadcaster sb = Some b ->
     FindPeers b (targets_of sb valSet) = [] -> asked sb valSet = []).
Proof.
  intros Hfind.
  pose proof (Quorum_nonneg valSet) as Hq.
  split; [| split; [| split; [| split]]].
  - unfold AskSync, asked.
    destruct (broadcaster sb) as [b |] eqn:Hb.
    + destruct (Z.of_nat (size (targets_of sb valSet)) >? 0).
      * rewrite AskSync_loop_sent by lia. rewrite Hb. by rewrite Z.sub_0_r.
      * cbn. rewrite app_nil_r. destruct sb; cbn in *. by rewrite Hb.
    + cbn. rewrite app_nil_r. destruct sb; cbn in *. by rewrite Hb.
  - unfold asked.
    destruct (broadcaster sb) as [b |]; [| cbn; lia].
    destruct (Z.of_nat (size (targets_of sb valSet)) >? 0); [| cbn; lia].
    rewrite length_take. lia.
  - intros addr p Hin. unfold asked in Hin.
    destruct (broadcaster sb) as [b |] eqn:Hb; [| done].
    destruct (Z.of_nat (size (targets_of sb valSet)) >? 0); [| done].
    assert (In (addr, p) (FindPeers b (targets_of sb valSet))) as Hin'.
    { apply list_elem_of_In. apply list_elem_of_In in Hin.
      eapply subseteq_take, Hin. }
    split; [| by exists b].
    by destruct (targets_of_spec sb valSet addr (Hfind b addr p eq_refl Hin')).
  - intros Hb. unfold asked. by rewrite Hb.
  - intros b Hb Hnil. unfold asked. rewrite Hb, Hnil.
    destruct (Z.of_nat (size (targets_of sb valSet)) >? 0); [apply take_nil | done].
Qed.

(** *** Gossip *)

(** One turn of the loop, in terms of its test. *)
Lemma Gossip_peer_spec hash payload sb addr p :
  let sb' := Gossip_peer hash payload sb (addr, p) in
  if peer_has sb addr hash
  then sent sb' = sent sb
  else sent sb' = sent sb ++ [Send addr p tendermintMsg payload] /\
       exists l m,
         recentMessages sb' = Add (Get (recentMessages sb) addr).1 addr l /\
         arcs sb' !! l = Some (Add m hash true).
Proof.
  cbv zeta. unfold peer_has, Gossip_peer.
  destruct (Get (recentMessages sb) addr) as [rm [l |]] eqn:Hg; cbn [fst].
  - destruct (Get (deref (set_recentMessages rm sb) l) hash) as [m [k |]] eqn:Hm.
    + reflexivity.
    + split; [reflexivity |]. exists l, m. split; [reflexivity |].
      cbn. by rewrite lookup_insert_eq.
  - split; [reflexivity |].
    eexists _, _. split; [reflexivity |].
    cbn. by rewrite lookup_insert_eq.
Qed.

(** A turn leaves the rest of the backend alone. *)
Lemma Gossip_peer_frame hash payload sb ap :
  address (Gossip_peer hash payload sb ap) = address sb /\
  broadcaster (Gossip_peer hash payload sb ap) = broadcaster sb /\
  knownMessages (Gossip_peer hash payload sb ap) = knownMessages sb /\
  commitCh (Gossip_peer hash payload sb ap) = commitCh sb /\
  proposedBlockHash (Gossip_peer hash payload sb ap) = proposedBlockHash sb.
Proof.
  destruct ap as [addr p]. unfold Gossip_peer.
  destruct (Get (recentMessages sb) addr) as [rm [l |]].
  - destruct (Get _ hash) as [m [k |]]; repeat split.
  - repeat split.
Qed.

Lemma Gossip_loop_frame hash payload ps sb :
  address (foldl (Gossip_peer hash payload) sb ps) = address sb /\
  knownMessages (foldl (Gossip_peer hash payload) sb ps) = knownMessages sb.
Proof.
  revert sb. induction ps as [| ap ps IH]; intros sb; cbn [foldl]; [done |].
  destruct (IH (Gossip_peer hash payload sb ap)) as [-> ->].
  by destruct (Gossip_peer_frame hash payload sb ap) as (-> & _ & -> & _).
Qed.

(** The loop sends the payload, to peers of the list, and nothing else. *)
Lemma Gossip_loop_sent hash payload ps sb :
  exists new,
    sent (foldl (Gossip_peer hash payload) sb ps) = sent sb ++ new /\
    forall e, In e new ->
      exists addr p, In (addr, p) ps /\ e = Send addr p tendermintMsg payload.
Proof.
  revert sb. induction ps as [| [addr p] ps IH]; intros sb; cbn [foldl].
  - exists []. split; [by rewrite app_nil_r | intros e []].
  - destruct (IH (Gossip_peer hash payload sb (addr, p))) as (new & Hs & Hnew).
    pose proof (Gossip_peer_spec hash payload sb addr p) as Hp. cbv zeta in Hp.
    destruct (peer_has sb addr hash).
    + exists new. rewrite Hs, Hp. split; [done |].
      intros e He. destruct (Hnew e He) as (a & q & Hin & ->).
      exists a, q. split; [by right | done].
    + destruct Hp as [Hp _].
      exists (Send addr p tendermintMsg payload :: new).
      rewrite Hs, Hp, <- app_assoc. split; [done |].
      intros e [<- | He].
      * exists addr, p. split; [by left | done].
      * destruct (Hnew e He) as (a & q & Hin & ->).
        exists a, q. split; [by right | done].
Qed.

(** One turn of the loop on the caches themselves. *)
Lemma Gossip_peer_turn hash payload s addr p :
  let s' := Gossip_peer hash payload s (addr, p) in
  let rm := (Get (recentMessages s) addr).1 in
  match (Get (recentMessages s) addr).2 with
  | Some l =>
      forall m0, arcs s !! l = Some m0 ->
        let m1 := (Get m0 hash).1 in
        match (Get m0 hash).2 with
        | Some _ =>
            sent s' = sent s /\
            recentMessages s' = rm /\
            arcs s' = <[l := m1]> (arcs s)
        | None =>
            sent s' = sent s ++ [gossip_message payload (addr, p)] /\
            recentMessages s' = Add rm addr l /\
            arcs s' = <[l := Add m1 hash true]> (arcs s)
        end
  | None =>
      let l := fresh (dom (arcs s)) in
      arcs s !! l = None /\
      sent s' = sent s ++ [gossip_message payload (addr, p)] /\
      recentMessages s' = Add rm addr l /\
      arcs s' = <[l := Add (NewARC inmemoryMessages) hash true]> (arcs s)
  end.
Proof.
  cbv zeta. unfold Gossip_peer.
  destruct (Get (recentMessages s) addr) as [rm [l |]] eqn:Hg; cbn [fst snd].
  - intros m0 Hm0. unfold deref. cbn [arcs set_recentMessages]. rewrite Hm0. cbn [default].
    unfold id.
    destruct (Get m0 hash) as [m1 [k |]]; cbn [fst snd]; [done |].
    unfold Gossip_send. cbn [sent recentMessages arcs emit set_arcs set_recentMessages].
    by rewrite insert_insert_eq.
  - split; [| done].
    apply not_elem_of_dom. apply is_fresh.
Qed.

(** A peer whose cache holds the hash is skipped. *)
Lemma Gossip_peer_skips hash payload s addr p :
  peer_cache_holds s addr hash ->
  sent (Gossip_peer hash payload s (addr, p)) = sent s.
Proof.
  intros (l & m & Hl & Hm & Hk).
  pose proof (Gossip_peer_turn hash payload s addr p) as Ht. cbv zeta in Ht.
  rewrite Hl in Ht. specialize (Ht m Hm).
  destruct (Get m hash).2; [by destruct Ht | by destruct Hk].
Qed.

(** The loop sends to peers of the list, each at most once and in the order
    of the list. *)
Lemma Gossip_loop_sublist hash payload ps : forall s,
  exists new,
    sent (foldl (Gossip_peer hash payload) s ps) = sent s ++ new /\
    sublist new (gossip_message payload <$> ps).
Proof.
  induction ps as [| [addr p] ps IH]; intros s; cbn [foldl fmap list_fmap].
  - exists []. split; [by rewrite app_nil_r | constructor].
  - destruct (IH (Gossip_peer hash payload s (addr, p))) as (new & Hs & Hsub).
    pose proof (Gossip_peer_spec hash payload s addr p) as Hp. cbv zeta in Hp.
    destruct (peer_has s addr hash).
    + exists new. rewrite Hs, Hp. split; [done |]. by apply sublist_cons.
    + destruct Hp as [Hp _].
      exists (gossip_message payload (addr, p) :: new).
      rewrite Hs, Hp, <- app_assoc. split; [done |]. by apply sublist_skip.
Qed.

(** C9.  [Gossip] records the hash of the payload in the known-messages
    cache.  What it sends is that payload, to peers other than the node
    itself, and to each peer that [FindPeers] returned at most once.  At a
    peer's turn it looks up the peer's cache in [recentMessages]: when that
    cache holds the hash the peer is skipped; when it does not, the hash is
    added to that very cache, the cache is stored under the peer's address
    and the payload is sent; a peer without a cache gets a new one that
    holds the hash.  So in any state in which the peer's cache holds the
    hash, as it does right after a send as long as the caches return what
    was last added, the peer's turn sends nothing.  ([FindPeers] is taken to
    return peers among the targets it is asked for.) *)
Theorem Gossip_skips_self_and_served_peers sb valSet payload :
  (forall b addr p,
      broadcaster sb = Some b ->
      In (addr, p) (FindPeers b (targets_of sb valSet)) ->
      addr ∈ targets_of sb valSet) ->
  let hash := RLPHash payload in
  let sb0 := set_knownMessages (Add (knownMessages sb) hash true) sb in
  let sb' := Gossip valSet payload sb in
  let peers :=
    match broadcaster sb with
    | Some b =>
        if Z.of_nat (size (targets_of sb valSet)) >? 0
        then FindPeers b (targets_of sb valSet) else []
    | None => []
    end in
  knownMessages sb' = Add (knownMessages sb) hash true /\
  sb' = foldl (Gossip_peer hash payload) sb0 peers /\
  (exists new,
      sent sb' = sent sb ++ new /\
      sublist new (gossip_message payload <$> peers) /\
      forall e, In e new ->
        exists addr p, e = Send addr p tendermintMsg payload /\ addr <> Address sb) /\
  (forall s addr p,
      let s' := Gossip_peer hash payload s (addr, p) in
      let rm := (Get (recentMessages s) addr).1 in
      match (Get (recentMessages s) addr).2 with
      | Some l =>
          forall m0, arcs s !! l = Some m0 ->
            let m1 := (Get m0 hash).1 in
            match (Get m0 hash).2 with
            | Some _ =>
                sent s' = sent s /\
                recentMessages s' = rm /\
                arcs s' = <[l := m1]> (arcs s)
            | None =>
                sent s' = sent s ++ [Send addr p tendermintMsg payload] /\
                recentMessages s' = Add rm addr l /\
                arcs s' = <[l := Add m1 hash true]> (arcs s) /\
                ((Get (Add rm addr l) addr).2 = Some l ->
                 is_Some (Get (Add m1 hash true) hash).2 ->
                 peer_cache_holds s' addr hash)
            end
      | None =>
          let l := fresh (dom (arcs s)) in
          arcs s !! l = None /\
          sent s' = sent s ++ [Send addr p tendermintMsg payload] /\
          recentMessages s' = Add rm addr l /\
          arcs s' = <[l := Add (NewARC inmemoryMessages) hash true]> (arcs s) /\
          ((Get (Add rm addr l) addr).2 = Some l ->
           is_Some (Get (Add (NewARC inmemoryMessages) hash true) hash).2 ->
           peer_cache_holds s' addr hash)
      end) /\
  (forall s addr p,
      peer_cache_holds s addr hash ->
      sent (Gossip_peer hash payload s (addr, p)) = sent s).
Proof.
  intros Hfind hash sb0 sb' peers.
  assert (Hloop : sb' = foldl (Gossip_peer hash payload) sb0 peers).
  { subst sb' peers. unfold Gossip. fold hash. fold sb0.
    change (broadcaster sb0) with (broadcaster sb).
    change (targets_of sb0 valSet) with (targets_of sb valSet).
    destruct (broadcaster sb) as [b |]; [| done].
    by destruct (Z.of_nat (size (targets_of sb valSet)) >? 0). }
  assert (Hpeers : forall addr p, In (addr, p) peers -> addr <> Address sb).
  { intros addr p Hin. subst peers.
    destruct (broadcaster sb) as [b |] eqn:Hb; [| done].
    destruct (Z.of_nat (size (targets_of sb valSet)) >? 0); [| done].
    by destruct (targets_of_spec sb valSet addr (Hfind b addr p eq_refl Hin)). }
  split; [| split; [exact Hloop | split; [| split]]].
  - rewrite Hloop.
    by destruct (Gossip_loop_frame hash payload peers sb0) as [_ ->].
  - rewrite Hloop.
    destruct (Gossip_loop_sublist hash payload peers sb0) as (new & Hs & Hsub).
    exists new. split; [exact Hs |]. split; [exact Hsub |].
    intros e He. apply list_elem_of_In in He.
    pose proof (sublist_subseteq _ _ Hsub e He) as He'.
    apply list_elem_of_fmap in He' as ([addr p] & -> & Hin).
    exists addr, p. split; [reflexivity |].
    apply (Hpeers addr p). by apply list_elem_of_In.
  - intros s addr p.
    pose proof (Gossip_peer_turn hash payload s addr p) as Ht. cbv zeta in Ht |- *.
    destruct (Get (recentMessages s) addr).2 as [l |].
    + intros m0 Hm0. specialize (Ht m0 Hm0).
      destruct (Get m0 hash).2; [exact Ht |].
      destruct Ht as (Hsent & Hrm & Harcs).
      split; [exact Hsent |]. split; [exact Hrm |]. split; [exact Harcs |].
      intros Hl Hk. exists l, (Add (Get m0 hash).1 hash true).
      rewrite Hrm, Harcs. split; [exact Hl |]. split; [apply lookup_insert_eq | exact Hk].
    + destruct Ht as (Hnew & Hsent & Hrm & Harcs).
      split; [exact Hnew |]. split; [exact Hsent |]. split; [exact Hrm |].
      split; [exact Harcs |].
      intros Hl Hk. eexists _, _.
      rewrite Hrm, Harcs. split; [exact Hl |]. split; [apply lookup_insert_eq | exact Hk].
  - intros s addr p. apply Gossip_peer_skips.
Qed.

(** *** Commit *)

(** C7, as the code has it.  [Commit] writes the seals into a copy of the
    header first; if that fails it returns the error and delivers nothing.
    Otherwise it returns nil, and the re-sealed block goes to the result
    channel of [Seal] when its hash is the proposed block's and the channel
    is live, else to the fetcher queue when a broadcaster is set, and
    nowhere when none is set; nothing else in the backend changes. *)
Theorem Commit_delivers_sealed_block sb proposal seals :
  match WriteCommittedSeals (Block_Header proposal) seals with
  | inr err => Commit proposal seals sb = (sb, Some err)
  | inl h =>
      let block := WithSeal proposal h in
      let out :=
        if (proposedBlockHash sb =? Block_Hash block)%N && commitCh sb
        then [sendResultChan_send block]
        else match broadcaster sb with
             | Some _ => [Enqueue fetcherID block]
             | None => []
             end in
      Commit proposal seals sb =
        (mkBackend (address sb) (broadcaster sb) (commitCh sb) (proposedBlockHash sb)
           (recentMessages sb) (knownMessages sb) (arcs sb) (sent sb ++ out),
         None)
  end.
Proof.
  unfold Commit, isResultChanNil.
  destruct (WriteCommittedSeals (Block_Header proposal) seals) as [h | err]; [| done].
  cbv zeta. rewrite negb_involutive.
  destruct ((proposedBlockHash sb =? Block_Hash (WithSeal proposal h))%N && commitCh sb);
    [reflexivity |].
  destruct (broadcaster sb) eqn:Hb; [unfold emit; by rewrite Hb |].
  rewrite app_nil_r. destruct sb; cbn in *. by rewrite Hb.
Qed.

End backend_properties.

(** * The properties on the doubles *)

Section scenarios.
Import Core double.
#[local] Existing Instance collaborators.
#[local] Existing Instance host.

(** The connected peers of the double are among the targets asked for. *)
Lemma all_connected_within (targets : gset common.Address) addr p :
  In (addr, p) (backend.FindPeers all_connected targets) -> addr ∈ targets.
Proof.
  cbn. intros Hin. apply list_elem_of_In in Hin.
  apply list_elem_of_fmap in Hin as (a & [= -> _] & Ha).
  by apply elem_of_elements.
Qed.




(** The empty payload does not decode; E is not in the set node B holds;
    7 is no message code. *)
Lemma malformed_message_is_dropped_witness :
  (exists e,
     (e = errInvalidMessage \/ is_errFailedDecode e = true) /\
     handleMsg [] world0 = (world0, Some e) /\
     eventStep (recv_messageEventSub (Some (MessageEvent []))) world0 = (world0, true)) /\
  (exists e,
     (e = errInvalidMessage \/ is_errFailedDecode e = true) /\
     handleMsg double2.prevote_E_r0 world0 = (world0, Some e) /\
     eventStep (recv_messageEventSub (Some (MessageEvent double2.prevote_E_r0))) world0 =
       (world0, true)) /\
  handleCheckedMsg unknown_code valC world0 = (world0, Some errInvalidMessage).
Proof.
  split; [| split].
  - refine (proj1 (proj2 (malformed_message_is_dropped world0 [] unknown_code valC)) _).
    reflexivity.
  - refine (proj1 (proj2 (malformed_message_is_dropped world0 double2.prevote_E_r0
                            unknown_code valC)) _).
    reflexivity.
  - refine (proj1 (proj1 (proj2 (proj2
               (malformed_message_is_dropped world0 [] unknown_code valC)))
                     _ _ _)); vm_compute; discriminate.
Defined.

(** Both payloads are answered with [errInvalidMessage]. *)
Example undecodable_and_unauthorized :
  handleMsg [] world0 = (world0, Some errInvalidMessage) /\
  handleMsg double2.prevote_E_r0 world0 = (world0, Some errInvalidMessage).
Proof. split; reflexivity. Qed.

(** D signs a prevote for height 2 while node B is at height 1.  D is in the
    set B holds, so the message is taken in, yet D is no validator of
    height 2. *)
Lemma message_height_validators_counterexample :
  valSet (st world0) = Validators (Height (currentRoundState (st world0))) /\
  ~ rules.accepts_validators_of_message_height Validators prevote_D_h2 world0.
Proof.
  split; [reflexivity |].
  intros Hrule.
  destruct (Hrule {| Code := 1; Msg := [Byte.x00; Byte.x02]; Address := 13%N;
                     Signature := []; CommittedSeal := [] |} valD eq_refl)
    as (h & Hh & v & Hv).
  vm_compute in Hh. injection Hh as <-.
  vm_compute in Hv. discriminate Hv.
Qed.

Lemma Start_enters_round_zero_witness :
  currentRoundState (st (fst (Start world0))) = {| Round := 0; Height := 1 |}.
Proof.
  refine (proj1 (proj2 (Start_enters_round_zero world0 0 _ _ _))).
  - vm_compute. discriminate.
  - reflexivity.
  - reflexivity.
Defined.

Lemma Commit_without_broadcaster_counterexample :
  ~ rules.commit_delivers_once (backendB None) block1 [seal1].
Proof.
  intros Hrule.
  destruct (Hrule {| backend.Number := 1; backend.Extra := [Byte.x01] |} eq_refl)
    as (_ & d & Hd & _).
  vm_compute in Hd. discriminate Hd.
Qed.

Lemma gossip_iff_handled_witness :
  eventStep (recv_messageEventSub (Some (MessageEvent prevote_C_r2))) world2 =
    (do_Gossip prevote_C_r2 (emit (call_handlePrevote prevote_C) world2), true) /\
  eventStep (recv_messageEventSub (Some (MessageEvent prevote_C_r2))) world0 =
    ((fst (handleMsg prevote_C_r2 world0)), true) /\
  eventStep (recv_messageEventSub (Some (backlogEvent prevote_C valC))) world2 =
    (do_Gossip prevote_C_r2 (emit (call_handlePrevote prevote_C) world2), true).
Proof.
  split; [| split].
  - refine (proj1 (proj1 (proj2 (gossip_iff_handled world2
              (emit (call_handlePrevote prevote_C) world2) prevote_C_r2
              errInvalidMessage prevote_C valC prevote_C_r2)) _)).
    reflexivity.
  - refine (proj1 (proj2 (proj2 (gossip_iff_handled world0
              (fst (handleMsg prevote_C_r2 world0)) prevote_C_r2
              errFutureRoundMessage prevote_C valC prevote_C_r2))) _).
    reflexivity.
  - refine (proj1 (proj2 (proj2 (proj2 (gossip_iff_handled world2
              (emit (call_handlePrevote prevote_C) world2) prevote_C_r2
              errInvalidMessage prevote_C valC prevote_C_r2))) _ _)).
    + reflexivity.
    + reflexivity.
Defined.

Lemma Gossip_skips_self_and_served_peers_witness :
  exists new,
    backend.sent (backend.Gossip abcd prevote_C_r2 (backendB (Some all_connected))) =
      [] ++ new /\
    sublist new
      (backend.gossip_message prevote_C_r2 <$>
         backend.FindPeers all_connected
           (backend.targets_of (backendB (Some all_connected)) abcd)) /\
    forall e, In e new ->
      exists addr p, e = backend.Send addr p backend.tendermintMsg prevote_C_r2 /\
                     addr <> 11%N.
Proof.
  refine (proj1 (proj2 (proj2 (Gossip_skips_self_and_served_peers
            (backendB (Some all_connected)) abcd prevote_C_r2 _)))).
  intros b addr p [= <-]. apply all_connected_within.
Defined.

(** With six validators five peers are found and four are asked. *)
Example AskSync_stops_at_quorum :
  length (backend.FindPeers all_connected (backend.targets_of (backendB (Some all_connected)) six)) = 5%nat /\
  length (backend.sent (backend.AskSync six (backendB (Some all_connected)))) = 4%nat.
Proof. split; vm_compute; reflexivity. Qed.

(** Gossiping the same payload again reaches nobody: the three peers were
    served the first time and their caches still hold the hash. *)
Example Gossip_twice_sends_once :
  let once := backend.Gossip abcd prevote_C_r2 (backendB (Some all_connected)) in
  length (backend.sent once) = 3%nat /\
  backend.sent (backend.Gossip abcd prevote_C_r2 once) = backend.sent once.
Proof. split; vm_compute; reflexivity. Qed.

Lemma AskSync_asks_a_quorum_of_peers_witness :
  Z.of_nat (length (backend.asked (backendB (Some all_connected)) abcd)) <= 3.
Proof.
  refine (proj1 (proj2 (AskSync_asks_a_quorum_of_peers
            (backendB (Some all_connected)) abcd _))).
  intros b addr p [= <-]. apply all_connected_within.
Defined.

End scenarios.

(** * More properties of the driver *)

Section more_driver_properties.
Import Core CoreExt.
Context {B Ext : Type} `{!Collaborators B Ext}.
Implicit Types (w : world B Ext) (msg : Message) (sender : validator.Validator).

Lemma wrap64_small z : - 2 ^ 63 <= z < 2 ^ 63 -> wrap64 z = z.
Proof. intros Hz. unfold wrap64. rewrite Z.mod_small; lia. Qed.

(** What [testBacklog] does with an error that is no future classification
    (nil included): nothing. *)
Lemma testBacklog_not_future msg sender w (r : result) :
  (forall e, r = Some e -> is_future e = false) ->
  testBacklog msg sender w r = (w, r).
Proof.
  intros Hr. unfold testBacklog.
  destruct r as [e |]; [| done].
  specialize (Hr e eq_refl). destruct e; try done; discriminate Hr.
Qed.

(** What it does with a future classification begins with the call of
    [storeBacklog]. *)
Lemma testBacklog_future_stores msg sender w e :
  is_future e = true ->
  exists more,
    calls (fst (testBacklog msg sender w (Some e))) =
    calls w ++ call_storeBacklog msg sender :: more.
Proof.
  intros He. unfold testBacklog.
  destruct e; try discriminate He.
  - by exists [].
  - destruct (decode_msgRound msg) as [r | e']; [| by exists []].
    match goal with |- context [if ?b then _ else _] => destruct b end.
    + eexists [_]. cbn. by rewrite <- app_assoc.
    + by exists [].
  - by exists [].
Qed.

(** X1.  [handleCheckedMsg] calls [storeBacklog] for a message exactly when
    the handler returned one of the three future classifications.  With any
    other result, nil or an error, it adds nothing to what the handler did
    and returns the handler's result. *)
Theorem only_future_messages_are_stored w msg sender w1 (r : result) :
  dispatch msg w = Some (w1, r) ->
  ((exists more,
       calls (fst (handleCheckedMsg msg sender w)) =
       calls w1 ++ call_storeBacklog msg sender :: more)
   <-> exists e, r = Some e /\ is_future e = true) /\
  ((forall e, r = Some e -> is_future e = false) ->
   handleCheckedMsg msg sender w = (w1, r)).
Proof.
  intros Hd. unfold handleCheckedMsg. rewrite Hd.
  split; [split |].
  - intros [more Hc].
    destruct r as [e |].
    + destruct (is_future e) eqn:He; [by exists e |].
      rewrite testBacklog_not_future in Hc by (by intros ? [= <-]).
      cbn in Hc. apply (f_equal length) in Hc. rewrite length_app in Hc.
      cbn in Hc. lia.
    + cbn in Hc. apply (f_equal length) in Hc. rewrite length_app in Hc.
      cbn in Hc. lia.
  - intros (e & -> & He). by apply testBacklog_future_stores.
  - apply testBacklog_not_future.
Qed.

(** Feeding messages of round [r] while the count stays within [F()]. *)
Lemma feed_future_round_below msgs : forall w r,
  (forall m s c, futureRoundsChange (storeBacklog m s c) = futureRoundsChange c /\
                 valSet (storeBacklog m s c) = valSet c) ->
  (forall ms, In ms msgs -> decode_msgRound ms.1 = inl r) ->
  - 2 ^ 63 <= map_get (futureRoundsChange (st w)) r ->
  validator.F (valSet (st w)) < 2 ^ 63 ->
  map_get (futureRoundsChange (st w)) r + Z.of_nat (length msgs)
    <= validator.F (valSet (st w)) ->
  calls (feed_future_round msgs w) =
    calls w ++ map (fun ms => call_storeBacklog ms.1 ms.2) msgs /\
  map_get (futureRoundsChange (st (feed_future_round msgs w))) r =
    map_get (futureRoundsChange (st w)) r + Z.of_nat (length msgs) /\
  valSet (st (feed_future_round msgs w)) = valSet (st w).
Proof.
  induction msgs as [| [m s] msgs IH]; intros w r Hframe Hdec Hlo HF Hsum.
  - cbn. rewrite app_nil_r, Z.add_0_r. done.
  - cbn [length] in Hsum. rewrite Nat2Z.inj_succ in Hsum.
    assert (decode_msgRound m = inl r) as Hm by (apply (Hdec (m, s)); by left).
    unfold feed_future_round. cbn [foldl fst snd].
    rewrite (testBacklog_future_round m s w r Hm). cbv zeta.
    set (w3 := count_future_round r (do_storeBacklog m s w)).
    destruct (Hframe m s (st w)) as [Hfrc Hvs].
    assert (map_get (futureRoundsChange (st w3)) r =
            map_get (futureRoundsChange (st w)) r + 1) as Hn.
    { subst w3. rewrite count_future_round_at. cbn [st do_storeBacklog upd emit].
      rewrite Hfrc. apply wrap64_small. lia. }
    assert (valSet (st w3) = valSet (st w)) as Hv by (subst w3; cbn; exact Hvs).
    rewrite Hn, Hv.
    destruct (Z.gtb_spec (map_get (futureRoundsChange (st w)) r + 1)
                (validator.F (valSet (st w)))) as [Hgt | _]; [lia |].
    cbn [fst].
    destruct (IH w3 r Hframe) as (Hc & Hcount & Hvs').
    + intros ms Hin. apply Hdec. by right.
    + lia.
    + by rewrite Hv.
    + rewrite Hn, Hv. lia.
    + fold (feed_future_round msgs w3).
      rewrite Hc, Hcount, Hvs', Hn, Hv. cbn [map length].
      rewrite Nat2Z.inj_succ.
      split; [| split; [lia | done]].
      subst w3. cbn. by rewrite <- app_assoc.
Qed.

(** X2.  The round-skip threshold.  Let [storeBacklog] leave the counters
    and the validator set alone, and let the counter of round [r] stand at
    [c0].  Of a run of future-round messages of round [r] (any senders), the
    first [F() - c0] are parked and counted without any call of
    [startRound]; the next one makes [testBacklog] call [startRound(r)].
    From an empty counter that is message number [F() + 1]. *)
Theorem round_skip_at_threshold w msgs m s r :
  (forall m s c, futureRoundsChange (storeBacklog m s c) = futureRoundsChange c /\
                 valSet (storeBacklog m s c) = valSet c) ->
  (forall ms, In ms msgs -> decode_msgRound ms.1 = inl r) ->
  decode_msgRound m = inl r ->
  - 2 ^ 63 <= map_get (futureRoundsChange (st w)) r ->
  validator.F (valSet (st w)) < 2 ^ 63 - 1 ->
  map_get (futureRoundsChange (st w)) r + Z.of_nat (length msgs)
    = validator.F (valSet (st w)) ->
  let w' := feed_future_round msgs w in
  calls w' = calls w ++ map (fun ms => call_storeBacklog ms.1 ms.2) msgs /\
  testBacklog m s w' (Some errFutureRoundMessage) =
    (do_startRound r (count_future_round r (do_storeBacklog m s w')),
     Some errFutureRoundMessage).
Proof.
  intros Hframe Hdec Hm Hlo HF Hsum w'.
  destruct (feed_future_round_below msgs w r Hframe Hdec Hlo) as (Hc & Hcount & Hvs);
    [lia | lia |].
  fold w' in Hc, Hcount, Hvs.
  split; [exact Hc |].
  rewrite (testBacklog_future_round m s w' r Hm). cbv zeta.
  set (w3 := count_future_round r (do_storeBacklog m s w')).
  destruct (Hframe m s (st w')) as [Hfrc Hv].
  assert (map_get (futureRoundsChange (st w3)) r = validator.F (valSet (st w)) + 1) as Hn.
  { subst w3. rewrite count_future_round_at. cbn [st do_storeBacklog upd emit].
    rewrite Hfrc, Hcount, Hsum. apply wrap64_small. lia. }
  assert (valSet (st w3) = valSet (st w)) as Hv3.
  { subst w3. cbn. by rewrite Hv. }
  rewrite Hn, Hv3.
  destruct (Z.gtb_spec (validator.F (valSet (st w)) + 1)
              (validator.F (valSet (st w)))) as [_ | Hle]; [done | lia].
Qed.

End more_driver_properties.

Section more_lifecycle_properties.
Import Core CoreExt Atomic.
Context {B Ext : Type} `{!Collaborators B Ext}.
Implicit Types (w : world B Ext).

Lemma Start_past_guards w :
  isStarted (st w) <> 1 -> isStarting (st w) = 0 ->
  Start w =
    let '(b, err) := backend_Start (backend (st w)) in
    let w := upd (set_backend b) (Start_entered w) in
    match err with
    | Some err => (upd Start_deferred w, Some err)
    | None =>
        let w := subscribeEvents w in
        let w := emit call_backend_LastCommittedProposal w in
        let height := backend_LastCommittedProposal (backend (st w)) + 1 in
        let w := upd (fun c => set_currentRoundState
                                 (Update 0 height (currentRoundState c)) c) w in
        let w := emit (call_go go_handleNewUnminedBlockEvent) w in
        let w := emit (call_go go_handleConsensusEvents) w in
        let w := emit (call_go go_HandleUnhandledMsgs) w in
        (upd Start_deferred w, None)
    end.
Proof.
  intros Hs Hi. unfold Start.
  destruct (Z.eqb_spec (isStarted (st w)) 1) as [| _]; [done |].
  rewrite Hi. reflexivity.
Qed.

(** Past its guards [Start] is its body between the compare-and-swap and
    the deferred function. *)
Lemma Start_as_body w :
  isStarted (st w) <> 1 -> isStarting (st w) = 0 ->
  Start w =
    (upd Start_deferred (fst (Start_body (upd (set_isStarting 1) w))),
     snd (Start_body (upd (set_isStarting 1) w))).
Proof.
  intros Hs Hi. rewrite (Start_past_guards w Hs Hi). unfold Start_body, Start_entered.
  cbn [st upd emit backend set_cancel set_isStarting set_flags].
  by destruct (backend_Start (backend (st w))) as [b [err |]].
Qed.

Lemma Stop_as_body w :
  isStopped (st w) <> 1 -> isStopping (st w) = 0 ->
  Stop w =
    (upd Stop_deferred (fst (Stop_body (upd (set_isStopping 1) w))),
     snd (Stop_body (upd (set_isStopping 1) w))).
Proof.
  intros Hs Hi. unfold Stop, Stop_body.
  destruct (Z.eqb_spec (isStopped (st w)) 1) as [| _]; [done |].
  rewrite Hi. cbn [Z.eqb negb].
  destruct (negb (cancel _)); [reflexivity |].
  destruct (unsubscribeEvents _) as [w' |]; [| reflexivity].
  by destruct (backend_Close _) as [b [err |]].
Qed.

(** What a [Start] that went through leaves in the struct. *)
Lemma Start_through w b :
  isStarted (st w) <> 1 -> isStarting (st w) = 0 ->
  backend_Start (backend (st w)) = (b, None) ->
  let c := st (fst (Start w)) in
  isStarted c = 1 /\ isStarting c = 0 /\ isStopped c = 0 /\
  isStopping c = isStopping (st w) /\
  cancel c = true /\ backend c = b /\
  messageEventSub c = Some [MessageEvent_t; backlogEvent_t] /\
  newUnminedBlockEventSub c = Some [NewUnminedBlockEvent_t] /\
  timeoutEventSub c = Some [TimeoutEvent_t] /\
  committedSub c = Some [CommitEvent_t] /\
  syncEventSub c = Some [SyncEvent_t].
Proof.
  intros Hs Hi Hb. rewrite (Start_past_guards w Hs Hi), Hb. cbv zeta.
  repeat split.
Qed.

(** [Stop] on a core that is not stopped and holds a context and its five
    subscriptions. *)
Lemma Stop_through w s s1 s2 s3 s4 b' r :
  isStopped (st w) <> 1 -> isStopping (st w) = 0 ->
  cancel (st w) = true ->
  messageEventSub (st w) = Some s ->
  newUnminedBlockEventSub (st w) = Some s1 ->
  timeoutEventSub (st w) = Some s2 ->
  committedSub (st w) = Some s3 ->
  syncEventSub (st w) = Some s4 ->
  backend_Close (backend (st w)) = (b', r) ->
  Stop w =
    (mkWorld (Stop_deferred (set_backend b' (set_isStopping 1 (st w))))
       (calls w ++
        [call_stopTimer proposeTimeout; call_stopTimer prevoteTimeout;
         call_stopTimer precommitTimeout; call_cancel; call_stopFutureProposalTimer;
         call_Unsubscribe s; call_Unsubscribe s1; call_Unsubscribe s2;
         call_Unsubscribe s3; call_Unsubscribe s4;
         call_recv_stopped; call_recv_stopped; call_backend_Close]),
     returns r).
Proof.
  intros Hs Hi Hc H0 H1 H2 H3 H4 Hb.
  rewrite (Stop_as_body w Hs Hi). unfold Stop_body, unsubscribeEvents.
  cbn [st upd emit cancel set_isStopping set_flags messageEventSub
       newUnminedBlockEventSub timeoutEventSub committedSub syncEventSub backend].
  rewrite Hc, H0, H1, H2, H3, H4. cbn [negb unsubscribeAll].
  cbn [st upd emit backend set_isStopping set_flags]. rewrite Hb.
  cbn [fst snd]. unfold upd, emit. cbn [st calls].
  repeat rewrite <- app_assoc. reflexivity.
Qed.

(** Past the guards the first call is [backend.Start]. *)
Lemma Start_calls_backend_Start w :
  isStarted (st w) <> 1 -> isStarting (st w) = 0 ->
  exists more, calls (fst (Start w)) = calls w ++ call_backend_Start :: more.
Proof.
  intros Hs Hi. rewrite (Start_past_guards w Hs Hi).
  destruct (backend_Start (backend (st w))) as [b [e |]].
  - by exists [].
  - eexists. cbn. rewrite <- !app_assoc. reflexivity.
Qed.

(** X3.  When [backend.Start] fails, [Start] returns the error without
    subscribing, without touching the round state and without spawning a
    goroutine; the deferred function still marks the core as started, so a
    second [Start] returns nil and does nothing. *)
Theorem Start_failure_still_marks_started w b err :
  isStarted (st w) <> 1 ->
  isStarting (st w) = 0 ->
  backend_Start (backend (st w)) = (b, Some err) ->
  let w' := fst (Start w) in
  snd (Start w) = Some err /\
  calls w' = calls w ++ [call_backend_Start] /\
  isStarted (st w') = 1 /\ isStarting (st w') = 0 /\ isStopped (st w') = 0 /\
  currentRoundState (st w') = currentRoundState (st w) /\
  messageEventSub (st w') = messageEventSub (st w) /\
  syncEventSub (st w') = syncEventSub (st w) /\
  Start w' = (w', None).
Proof.
  intros Hs Hi Hb w'. subst w'.
  rewrite (Start_past_guards w Hs Hi), Hb. cbn [fst snd].
  repeat (split; [reflexivity |]).
  apply Start_guarded. left. reflexivity.
Qed.

(** X4.  A started core can be stopped and started again.  After a [Start]
    that went through, [Stop] does not panic: it stops the three timers,
    cancels the context, closes the five subscriptions [Start] opened, waits
    for the two goroutines and returns what [backend.Close] returns.  The
    core is then marked stopped, and the next [Start] is not turned away by a
    guard: it calls [backend.Start] again. *)
Theorem Stop_after_Start_then_restart w b b' r :
  isStarted (st w) <> 1 ->
  isStarting (st w) = 0 ->
  isStopping (st w) = 0 ->
  backend_Start (backend (st w)) = (b, None) ->
  backend_Close b = (b', r) ->
  let w1 := fst (Start w) in
  let w2 := fst (Stop w1) in
  snd (Stop w1) = returns r /\
  calls w2 = calls w1 ++
    [call_stopTimer proposeTimeout; call_stopTimer prevoteTimeout;
     call_stopTimer precommitTimeout; call_cancel; call_stopFutureProposalTimer;
     call_Unsubscribe [MessageEvent_t; backlogEvent_t];
     call_Unsubscribe [NewUnminedBlockEvent_t];
     call_Unsubscribe [TimeoutEvent_t];
     call_Unsubscribe [CommitEvent_t];
     call_Unsubscribe [SyncEvent_t];
     call_recv_stopped; call_recv_stopped; call_backend_Close] /\
  isStopped (st w2) = 1 /\ isStarted (st w2) = 0 /\
  isStarting (st w2) = 0 /\ isStopping (st w2) = 0 /\
  exists more, calls (fst (Start w2)) = calls w2 ++ call_backend_Start :: more.
Proof.
  intros Hs Hi Hp Hb Hc w1 w2.
  destruct (Start_through w b Hs Hi Hb)
    as (F1 & F2 & F3 & F4 & F5 & F6 & S0 & S1 & S2 & S3 & S4).
  fold w1 in F1, F2, F3, F4, F5, F6, S0, S1, S2, S3, S4.
  assert (isStopped (st w1) <> 1) as Hn by (rewrite F3; discriminate).
  rewrite Hp in F4. rewrite <- F6 in Hc.
  pose proof (Stop_through w1 _ _ _ _ _ b' r Hn F4 F5 S0 S1 S2 S3 S4 Hc) as HS.
  subst w2. clearbody w1. rewrite HS. cbn [fst snd calls st].
  split; [reflexivity |]. split; [reflexivity |].
  repeat (split; [reflexivity |]).
  split; [exact F2 |]. split; [reflexivity |].
  apply Start_calls_backend_Start; cbn; [discriminate | exact F2].
Qed.

(** X5.  [Stop] on a core whose [cancel] was never set, or whose message
    subscription was never opened, panics: with a nil [cancel] right after
    the three timers are stopped, with a nil subscription after the context
    is cancelled.  Neither the wait for the goroutines nor [backend.Close] is
    reached.  The deferred function has run all the same, so the core is
    marked stopped and a later [Stop] returns nil without doing anything. *)
Theorem Stop_panics_when_never_started w :
  isStopped (st w) <> 1 ->
  isStopping (st w) = 0 ->
  cancel (st w) = false \/ messageEventSub (st w) = None ->
  let w' := fst (Stop w) in
  snd (Stop w) = panics /\
  calls w' = calls w ++
    [call_stopTimer proposeTimeout; call_stopTimer prevoteTimeout;
     call_stopTimer precommitTimeout] ++
    (if cancel (st w) then [call_cancel; call_stopFutureProposalTimer] else []) /\
  isStopped (st w') = 1 /\ isStarted (st w') = 0 /\ isStopping (st w') = 0 /\
  backend (st w') = backend (st w) /\
  Stop w' = (w', returns None).
Proof.
  intros Hs Hp Hnil w'.
  assert (Stop w =
    (let w := upd (set_isStopping 1) w in
     let w := emit (call_stopTimer proposeTimeout) w in
     let w := emit (call_stopTimer prevoteTimeout) w in
     let w := emit (call_stopTimer precommitTimeout) w in
     upd Stop_deferred
       (if cancel (st w)
        then emit call_stopFutureProposalTimer (emit call_cancel w) else w),
     panics)) as HS.
  { unfold Stop.
    destruct (Z.eqb_spec (isStopped (st w)) 1) as [| _]; [done |].
    rewrite Hp. cbn -[unsubscribeEvents].
    destruct (cancel (st w)) eqn:Hc; [| reflexivity].
    destruct Hnil as [Hnil | Hnil]; [done |].
    cbn. by rewrite Hnil. }
  subst w'. rewrite HS. cbv zeta. cbn [fst snd].
  change (cancel (st (emit (call_stopTimer precommitTimeout)
            (emit (call_stopTimer prevoteTimeout)
               (emit (call_stopTimer proposeTimeout) (upd (set_isStopping 1) w))))))
    with (cancel (st w)).
  destruct (cancel (st w)).
  - split; [reflexivity |].
    split; [cbn; by rewrite <- !app_assoc |].
    repeat (split; [reflexivity |]).
    apply Stop_guarded. left. reflexivity.
  - split; [reflexivity |].
    split; [cbn; by rewrite <- !app_assoc |].
    repeat (split; [reflexivity |]).
    apply Stop_guarded. left. reflexivity.
Qed.

End more_lifecycle_properties.

(** * Start and Stop against a second call *)

Section atomic_properties.
Import Core CoreExt Atomic.
Context {B Ext : Type} `{!Collaborators B Ext}.
Implicit Types (w : world B Ext).

Lemma Start_body_flags w : flags (st (fst (Start_body w))) = flags (st w).
Proof.
  unfold Start_body.
  by destruct (backend_Start _) as [b [err |]].
Qed.

Lemma unsubscribeAll_st subs : forall w w',
  unsubscribeAll subs w = Some w' -> st w' = st w.
Proof.
  induction subs as [| [s |] subs IH]; intros w w'; cbn [unsubscribeAll].
  - by intros [= <-].
  - intros Hu. by rewrite (IH _ _ Hu).
  - discriminate.
Qed.

Lemma Stop_body_flags w : flags (st (fst (Stop_body w))) = flags (st w).
Proof.
  unfold Stop_body.
  destruct (negb (cancel _)); [reflexivity |].
  destruct (unsubscribeEvents _) as [w' |] eqn:Hu; [| reflexivity].
  apply unsubscribeAll_st in Hu.
  destruct (backend_Close _) as [b err]. cbn. by rewrite Hu.
Qed.

Lemma run_returned step n r w :
  (forall w, step (returned r) w = (returned r, w)) ->
  run step n (returned r) w = (returned r, w).
Proof.
  intros Hstep. induction n as [| n IH]; [reflexivity |].
  cbn [run]. by rewrite Hstep.
Qed.

Lemma run_S step n p w :
  run step (S n) p w = run step n (fst (step p w)) (snd (step p w)).
Proof. cbn [run]. by destruct (step p w). Qed.

Lemma Start_step_guards w :
  isStarted (st w) <> 1 -> isStarting (st w) = 0 ->
  Start_step at_load w = (at_cas, w) /\
  Start_step at_cas w = (at_body, upd (set_isStarting 1) w).
Proof.
  intros Hs Hi. cbn [Start_step].
  destruct (Z.eqb_spec (isStarted (st w)) 1) as [| _]; [done |].
  by rewrite Hi.
Qed.

Lemma Stop_step_guards w :
  isStopped (st w) <> 1 -> isStopping (st w) = 0 ->
  Stop_step at_load w = (at_cas, w) /\
  Stop_step at_cas w = (at_body, upd (set_isStopping 1) w).
Proof.
  intros Hs Hi. cbn [Stop_step].
  destruct (Z.eqb_spec (isStopped (st w)) 1) as [| _]; [done |].
  by rewrite Hi.
Qed.

(** A [Start] that passes its guards, step by step. *)
Lemma run_Start_passed w n :
  isStarted (st w) <> 1 -> isStarting (st w) = 0 ->
  let wb := fst (Start_body (upd (set_isStarting 1) w)) in
  let r := returns (snd (Start_body (upd (set_isStarting 1) w))) in
  run Start_step (2 + n) at_load w =
    match n with
    | 0 => (at_body, upd (set_isStarting 1) w)
    | 1 => (at_store1 r, wb)
    | 2 => (at_store2 r, upd (set_isStarting 0) wb)
    | 3 => (at_store3 r, upd (set_isStopped 0) (upd (set_isStarting 0) wb))
    | _ => (returned r, upd Start_deferred wb)
    end%nat.
Proof.
  intros Hs Hi wb r. destruct (Start_step_guards w Hs Hi) as [H1 H2].
  cbn [Nat.add]. rewrite !run_S, H1. cbn [fst snd]. rewrite H2. cbn [fst snd].
  assert (Start_step at_body (upd (set_isStarting 1) w) = (at_store1 r, wb)) as H3.
  { subst wb r. cbn [Start_step]. by destruct (Start_body _). }
  destruct n as [| n]; [reflexivity |].
  rewrite run_S, H3. cbn [fst snd].
  destruct n as [| n]; [reflexivity |]. rewrite run_S. cbn [Start_step fst snd].
  destruct n as [| n]; [reflexivity |]. rewrite run_S. cbn [Start_step fst snd].
  destruct n as [| n]; [reflexivity |]. rewrite run_S. cbn [Start_step fst snd].
  by apply run_returned.
Qed.

Lemma run_Stop_passed w n :
  isStopped (st w) <> 1 -> isStopping (st w) = 0 ->
  let wb := fst (Stop_body (upd (set_isStopping 1) w)) in
  let r := snd (Stop_body (upd (set_isStopping 1) w)) in
  run Stop_step (2 + n) at_load w =
    match n with
    | 0 => (at_body, upd (set_isStopping 1) w)
    | 1 => (at_store1 r, wb)
    | 2 => (at_store2 r, upd (set_isStopping 0) wb)
    | 3 => (at_store3 r, upd (set_isStopped 1) (upd (set_isStopping 0) wb))
    | _ => (returned r, upd Stop_deferred wb)
    end%nat.
Proof.
  intros Hs Hi wb r. destruct (Stop_step_guards w Hs Hi) as [H1 H2].
  cbn [Nat.add]. rewrite !run_S, H1. cbn [fst snd]. rewrite H2. cbn [fst snd].
  assert (Stop_step at_body (upd (set_isStopping 1) w) = (at_store1 r, wb)) as H3.
  { subst wb r. cbn [Stop_step]. by destruct (Stop_body _). }
  destruct n as [| n]; [reflexivity |].
  rewrite run_S, H3. cbn [fst snd].
  destruct n as [| n]; [reflexivity |]. rewrite run_S. cbn [Stop_step fst snd].
  destruct n as [| n]; [reflexivity |]. rewrite run_S. cbn [Stop_step fst snd].
  destruct n as [| n]; [reflexivity |]. rewrite run_S. cbn [Stop_step fst snd].
  by apply run_returned.
Qed.

(** A call that runs alone is the function [Start], [Stop]. *)
Lemma run_Start w :
  run Start_step 6 at_load w = (returned (returns (snd (Start w))), fst (Start w)).
Proof.
  destruct (Z.eqb_spec (isStarted (st w)) 1) as [Hs | Hs].
  - rewrite (Start_guarded w (or_introl Hs)), run_S. cbn [Start_step]. rewrite Hs.
    cbn [Z.eqb Pos.eqb fst snd]. by apply run_returned.
  - destruct (Z.eqb_spec (isStarting (st w)) 0) as [Hi | Hi].
    + rewrite (Start_as_body w Hs Hi). exact (run_Start_passed w 4 Hs Hi).
    + rewrite (Start_guarded w (or_intror Hi)), run_S. cbn [Start_step].
      destruct (Z.eqb_spec (isStarted (st w)) 1) as [| _]; [done |]. cbn [fst snd].
      rewrite run_S. cbn [Start_step].
      destruct (Z.eqb_spec (isStarting (st w)) 0) as [| _]; [done |]. cbn [negb fst snd].
      by apply run_returned.
Qed.

Lemma run_Stop w :
  run Stop_step 6 at_load w = (returned (snd (Stop w)), fst (Stop w)).
Proof.
  destruct (Z.eqb_spec (isStopped (st w)) 1) as [Hs | Hs].
  - rewrite (Stop_guarded w (or_introl Hs)), run_S. cbn [Stop_step]. rewrite Hs.
    cbn [Z.eqb Pos.eqb fst snd]. by apply run_returned.
  - destruct (Z.eqb_spec (isStopping (st w)) 0) as [Hi | Hi].
    + rewrite (Stop_as_body w Hs Hi). exact (run_Stop_passed w 4 Hs Hi).
    + rewrite (Stop_guarded w (or_intror Hi)), run_S. cbn [Stop_step].
      destruct (Z.eqb_spec (isStopped (st w)) 1) as [| _]; [done |]. cbn [fst snd].
      rewrite run_S. cbn [Stop_step].
      destruct (Z.eqb_spec (isStopping (st w)) 0) as [| _]; [done |]. cbn [negb fst snd].
      by apply run_returned.
Qed.

Lemma unsubscribeAll_calls subs : forall w w',
  unsubscribeAll subs w = Some w' -> exists more, calls w' = calls w ++ more.
Proof.
  induction subs as [| [s |] subs IH]; intros w w'; cbn [unsubscribeAll].
  - intros [= <-]. exists []. by rewrite app_nil_r.
  - intros Hu. destruct (IH _ _ Hu) as [more Hm].
    exists (call_Unsubscribe s :: more). rewrite Hm. cbn. by rewrite <- app_assoc.
  - discriminate.
Qed.

(** Past the guards the first call of [Stop] stops the propose timer. *)
Lemma Stop_calls_stopTimer w :
  isStopped (st w) <> 1 -> isStopping (st w) = 0 ->
  exists more, calls (fst (Stop w)) = calls w ++ call_stopTimer proposeTimeout :: more.
Proof.
  intros Hs Hi. rewrite (Stop_as_body w Hs Hi). unfold Stop_body.
  cbn [fst calls upd].
  destruct (negb (cancel _)).
  - eexists. cbn. rewrite <- !app_assoc. reflexivity.
  - destruct (unsubscribeEvents _) as [w' |] eqn:Hu.
    + apply unsubscribeAll_calls in Hu as [more Hm].
      destruct (backend_Close _) as [b err]. cbn [fst calls upd emit].
      eexists. rewrite Hm. cbn. rewrite <- !app_assoc. cbn. reflexivity.
    + eexists. cbn. rewrite <- !app_assoc. reflexivity.
Qed.

(** C5, on the code.  [Start] on a core whose flags read started or
    starting, and [Stop] on a core whose flags read stopped or stopping,
    return nil and leave the world as it was, so that a second [Start]
    ([Stop]) after the first has returned changes nothing; and a call that
    runs alone, one atomic operation after the other, is [Start] ([Stop]).
    Now let a
    [Start] that passed both guards be suspended after [n] of its steps and
    let a second [Start] run.  From the compare-and-swap until the body is
    done, and once the first call has returned, the second call is turned
    away.  But when the first call stands in its deferred function, after
    the store that clears [isStarting] and before the store that sets
    [isStarted], the second [Start] passes both guards and calls
    [backend.Start] again.  [Stop] has the same gap between its first and
    its second deferred store. *)
Theorem Start_Stop_guard_window w :
  (isStarted (st w) = 1 \/ isStarting (st w) <> 0 -> Start w = (w, None)) /\
  (isStopped (st w) = 1 \/ isStopping (st w) <> 0 -> Stop w = (w, returns None)) /\
  Start (fst (Start w)) = (fst (Start w), None) /\
  Stop (fst (Stop w)) = (fst (Stop w), returns None) /\
  run Start_step 6 at_load w = (returned (returns (snd (Start w))), fst (Start w)) /\
  run Stop_step 6 at_load w = (returned (snd (Stop w)), fst (Stop w)) /\
  (isStarted (st w) <> 1 -> isStarting (st w) = 0 ->
   forall n,
     let p := fst (run Start_step n at_load w) in
     let w1 := snd (run Start_step n at_load w) in
     ((2 <= n <= 3 \/ 6 <= n)%nat -> Start w1 = (w1, None)) /\
     ((4 <= n <= 5)%nat ->
      in_deferred p = true /\
      exists more, calls (fst (Start w1)) = calls w1 ++ call_backend_Start :: more)) /\
  (isStopped (st w) <> 1 -> isStopping (st w) = 0 ->
   forall n,
     let p := fst (run Stop_step n at_load w) in
     let w1 := snd (run Stop_step n at_load w) in
     ((2 <= n <= 3 \/ 5 <= n)%nat -> Stop w1 = (w1, returns None)) /\
     (n = 4%nat ->
      in_deferred p = true /\
      exists more,
        calls (fst (Stop w1)) = calls w1 ++ call_stopTimer proposeTimeout :: more)).
Proof.
  split; [apply Start_guarded |].
  split; [apply Stop_guarded |].
  split; [apply Start_guarded, Start_leaves_guard |].
  split; [apply Stop_guarded, Stop_leaves_guard |].
  split; [apply run_Start |].
  split; [apply run_Stop |].
  split.
  - intros Hs Hi n p w1.
    pose proof (Start_body_flags (upd (set_isStarting 1) w)) as Hf.
    unfold flags in Hf. cbn [st upd set_isStarting set_flags isStarted isStarting
                               isStopped isStopping] in Hf.
    injection Hf as Hf1 Hf2 Hf3 Hf4.
    assert (forall k, run Start_step (S (S k)) at_load w = _) as Hrun
      by (intros k; exact (run_Start_passed w k Hs Hi)).
    split.
    + intros Hn. apply Start_guarded. subst p w1.
      destruct n as [| [| [| [| [| [| n]]]]]]; try lia; rewrite Hrun; cbn [snd].
      * right. cbn. lia.
      * right. cbn. rewrite Hf2. lia.
      * left. reflexivity.
    + intros Hn. subst p w1.
      destruct n as [| [| [| [| [| [| n]]]]]]; try lia; rewrite Hrun; cbn [fst snd];
        (split; [reflexivity |]);
        apply Start_calls_backend_Start; cbn; first [by rewrite Hf1 | reflexivity].
  - intros Hs Hi n p w1.
    pose proof (Stop_body_flags (upd (set_isStopping 1) w)) as Hf.
    unfold flags in Hf. cbn [st upd set_isStopping set_flags isStarted isStarting
                               isStopped isStopping] in Hf.
    injection Hf as Hf1 Hf2 Hf3 Hf4.
    assert (forall k, run Stop_step (S (S k)) at_load w = _) as Hrun
      by (intros k; exact (run_Stop_passed w k Hs Hi)).
    split.
    + intros Hn. apply Stop_guarded. subst p w1.
      destruct n as [| [| [| [| [| [| n]]]]]]; try lia; rewrite Hrun; cbn [snd].
      * right. cbn. lia.
      * right. cbn. rewrite Hf4. lia.
      * left. reflexivity.
      * left. reflexivity.
    + intros ->. subst p w1. rewrite Hrun. cbn [fst snd]. split; [reflexivity |].
      apply Stop_calls_stopTimer; cbn; first [by rewrite Hf3 | reflexivity].
Qed.

End atomic_properties.

(** * Properties of [startRound] and [setCore] *)

Section round_properties.
Import Core CoreRound.
Context {B Ext : Type}.
Variable LastCommittedProposal_Number : B -> Z.
Variable LastCommittedProposal_Proposer : B -> common.Address.
Variable backend_Validators : Z -> B -> validator.ValSet.
Variable new_height : Ext -> Ext.
Variable new_round : Z -> common.Address -> roundState -> Ext -> Ext.
Variable enter_propose : Z -> Z -> core B Ext -> core B Ext.




End round_properties.

Section loop_properties.
Import Core CoreExt.
Context {B Ext : Type} `{!Collaborators B Ext}.
Implicit Types (w : world B Ext) (c : core B Ext).

Lemma eventStep_ends ev w :
  ends_eventLoop ev = true -> eventStep ev w = (w, false).
Proof. by destruct ev as [[[| |] |] | [[|] |] | [[|] |] |]. Qed.

Lemma eventStep_goes_on ev w :
  ends_eventLoop ev = false -> snd (eventStep ev w) = true.
Proof.
  destruct ev as [[[payload | msg src |] |] | [[e |] |] | [[|] |] |];
    try discriminate; intros _; cbn [eventStep]; try reflexivity.
  - by destruct (handleMsg payload w) as [w1 [err |]].
  - destruct (handleCheckedMsg msg src w) as [w1 [err |]]; [done |].
    by destruct (Payload msg).
  - by repeat match goal with |- context [if ?b then _ else _] => destruct b end.
Qed.

Lemma eventLoop_app pre post w :
  eventLoop (pre ++ post) w =
  if snd (eventLoop pre w) then (fst (eventLoop pre w), true)
  else eventLoop post (fst (eventLoop pre w)).
Proof.
  revert w. induction pre as [| ev pre IH]; intros w; [reflexivity |].
  cbn [app eventLoop].
  destruct (eventStep ev w) as [w1 [|]]; [apply IH | reflexivity].
Qed.

Lemma eventLoop_waits evs w :
  forallb (fun ev => negb (ends_eventLoop ev)) evs = true ->
  snd (eventLoop evs w) = false.
Proof.
  revert w. induction evs as [| ev evs IH]; intros w Hall; [reflexivity |].
  cbn [forallb] in Hall. apply andb_true_iff in Hall as [Hev Hall].
  apply negb_true_iff in Hev.
  cbn [eventLoop].
  pose proof (eventStep_goes_on ev w Hev) as Hgo.
  destruct (eventStep ev w) as [w1 go]. cbn in Hgo. subst go.
  by apply IH.
Qed.

(** X6.  The driver leaves its loop at the first closed subscription channel
    or at [ctx.Done], whichever event comes first: the events after it are
    not handled, and [handleConsensusEvents] then signals [c.stopped] once,
    as its last action.  While no such event has arrived the goroutine is
    still in the loop and has not signalled. *)
Theorem driver_leaves_at_first_end w pre t post :
  forallb (fun ev => negb (ends_eventLoop ev)) pre = true ->
  ends_eventLoop t = true ->
  let w0 := emit (call_go go_syncLoop) (do_startRound 0 w) in
  eventLoop (pre ++ t :: post) w = (fst (eventLoop pre w), true) /\
  handleConsensusEvents (pre ++ t :: post) w =
    (emit call_send_stopped (fst (eventLoop pre w0)), true) /\
  handleConsensusEvents pre w = (fst (eventLoop pre w0), false).
Proof.
  intros Hpre Ht w0.
  assert (forall w, eventLoop (pre ++ t :: post) w = (fst (eventLoop pre w), true)) as Hl.
  { intros w'. rewrite eventLoop_app, (eventLoop_waits pre w' Hpre).
    cbn [eventLoop]. by rewrite (eventStep_ends t _ Ht). }
  split; [apply Hl |]. split.
  - unfold handleConsensusEvents. fold w0. by rewrite Hl.
  - unfold handleConsensusEvents. fold w0.
    pose proof (eventLoop_waits pre w0 Hpre) as Hw.
    destruct (eventLoop pre w0) as [w1 ex]. cbn in Hw. by subst ex.
Qed.

(** *** handleNewUnminedBlockEvent *)

Variable storeUnminedBlockMsg : backend.Block -> core B Ext -> core B Ext.

Lemma unminedLoop_blocks blocks rest c :
  unminedLoop storeUnminedBlockMsg
    (map (fun pb => recv_newUnminedBlockEventSub (Some pb)) blocks ++ rest) c =
  let '(c', log, exited) :=
    unminedLoop storeUnminedBlockMsg rest
      (foldl (fun c pb => storeUnminedBlockMsg pb c) c blocks) in
  (c', map call_storeUnminedBlockMsg blocks ++ log, exited).
Proof.
  revert c. induction blocks as [| pb blocks IH]; intros c; cbn [map app foldl unminedLoop].
  - by destruct (unminedLoop _ rest c) as [[c' log] ex].
  - rewrite IH. by destruct (unminedLoop _ rest _) as [[c' log] ex].
Qed.

(** X7.  [handleNewUnminedBlockEvent] hands every block it receives to
    [storeUnminedBlockMsg], in the order of arrival, until the subscription
    channel is closed or the context is cancelled; it then signals
    [c.stopped] once and handles nothing that comes later.  Before that it
    does not signal. *)
Theorem unmined_blocks_are_stored_in_order blocks t post c :
  t = recv_newUnminedBlockEventSub None \/ t = unmined_ctx_Done ->
  let received := map (fun pb => recv_newUnminedBlockEventSub (Some pb)) blocks in
  let c' := foldl (fun c pb => storeUnminedBlockMsg pb c) c blocks in
  handleNewUnminedBlockEvent storeUnminedBlockMsg (received ++ t :: post) c =
    (c', map call_storeUnminedBlockMsg blocks ++ [call_stopped_send], true) /\
  handleNewUnminedBlockEvent storeUnminedBlockMsg received c =
    (c', map call_storeUnminedBlockMsg blocks, false).
Proof.
  intros Ht received c'. subst received c'. unfold handleNewUnminedBlockEvent.
  split.
  - rewrite unminedLoop_blocks.
    destruct Ht as [-> | ->]; cbn [unminedLoop]; by rewrite app_nil_r.
  - rewrite <- (app_nil_r (map _ blocks)) at 1. rewrite unminedLoop_blocks.
    cbn [unminedLoop]. by rewrite app_nil_r.
Qed.

(** *** syncLoop *)

Lemma syncLoop_loop_app round height pre post :
  forallb sync_goes_on pre = true ->
  exists round' height',
    syncLoop_loop round height (pre ++ post) =
    (fst (syncLoop_loop round height pre) ++ fst (syncLoop_loop round' height' post),
     snd (syncLoop_loop round' height' post)) /\
    snd (syncLoop_loop round height pre) = false.
Proof.
  revert round height.
  induction pre as [| ev pre IH]; intros round height Hall.
  - exists round, height. cbn. by destruct (syncLoop_loop round height post).
  - cbn [forallb] in Hall. apply andb_true_iff in Hall as [Hev Hall].
    destruct ev as [view vs | [addr |] |]; try discriminate Hev; cbn [app syncLoop_loop].
    + destruct (IH (Round view) (Height view) Hall) as (r' & h' & Heq & Hno).
      exists r', h'. rewrite Heq.
      destruct (syncLoop_loop (Round view) (Height view) pre) as [l1 b1].
      cbn [fst snd] in *. subst b1. split; [| done].
      by rewrite <- app_assoc.
    + destruct (IH round height Hall) as (r' & h' & Heq & Hno).
      exists r', h'. rewrite Heq.
      destruct (syncLoop_loop round height pre) as [l1 b1].
      cbn [fst snd] in *. by subst b1.
Qed.

Lemma syncLoop_loop_serves round height evs :
  forallb sync_goes_on evs = true ->
  synced_peers (fst (syncLoop_loop round height evs)) = sync_requests evs.
Proof.
  revert round height.
  induction evs as [| ev evs IH]; intros round height Hall; [reflexivity |].
  cbn [forallb] in Hall. apply andb_true_iff in Hall as [Hev Hall].
  destruct ev as [view vs | [addr |] |]; try discriminate Hev; cbn [syncLoop_loop].
  - specialize (IH (Round view) (Height view) Hall).
    destruct (syncLoop_loop (Round view) (Height view) evs) as [l b]. cbn [fst] in *.
    unfold synced_peers, sync_requests in *. rewrite omap_app. cbn.
    rewrite IH.
    by match goal with |- context [if ?b then _ else _] => destruct b end.
  - specialize (IH round height Hall).
    destruct (syncLoop_loop round height evs) as [l b]. cbn [fst] in *.
    unfold synced_peers, sync_requests in *. cbn. by rewrite IH.
Qed.

Lemma syncLoop_loop_never_signals evs : forall round height,
  ~ In call_stopped_send (fst (syncLoop_loop round height evs)).
Proof.
  induction evs as [| ev evs IH]; intros round height; [by intros [] |].
  destruct ev as [view vs | [addr |] |]; cbn [syncLoop_loop]; try (by intros []).
  - specialize (IH (Round view) (Height view)).
    destruct (syncLoop_loop (Round view) (Height view) evs) as [l b]. cbn [fst] in *.
    intros Hin. apply in_app_or in Hin as [Hin | [Hin | Hin]]; [| discriminate | done].
    destruct ((Height view =? height) && (Round view =? round)).
    + destruct Hin as [Hin | []]. discriminate.
    + destruct Hin.
  - specialize (IH round height).
    destruct (syncLoop_loop round height evs) as [l b]. cbn [fst] in *.
    intros [Hin | Hin]; [discriminate | done].
Qed.

(** X8.  [syncLoop] answers every sync request it receives with [SyncPeer]
    for the requesting address, in the order of arrival and whatever the
    view is, until the subscription channel is closed or the context is
    cancelled; then it returns and serves nothing that comes later.  Unlike
    the two other goroutines it never signals [c.stopped]. *)
Theorem sync_requests_are_served c pre t post :
  forallb sync_goes_on pre = true ->
  sync_goes_on t = false ->
  syncLoop c (pre ++ t :: post) = (fst (syncLoop c pre), true) /\
  snd (syncLoop c pre) = false /\
  synced_peers (fst (syncLoop c pre)) = sync_requests pre /\
  ~ In call_stopped_send (fst (syncLoop c (pre ++ t :: post))).
Proof.
  intros Hpre Ht.
  assert (forall evs, ~ In call_stopped_send (fst (syncLoop c evs))) as Hnever.
  { intros evs. unfold syncLoop.
    pose proof (syncLoop_loop_never_signals evs (Round (currentRoundState c))
                  (Height (currentRoundState c))) as Hn.
    destruct (syncLoop_loop _ _ evs) as [l b]. cbn [fst] in *.
    intros [Hin | [Hin | Hin]]; [discriminate | discriminate | done]. }
  split; [| split; [| split; [| apply Hnever]]].
  - unfold syncLoop.
    destruct (syncLoop_loop_app (Round (currentRoundState c))
                (Height (currentRoundState c)) pre (t :: post) Hpre)
      as (r' & h' & Heq & Hno).
    assert (syncLoop_loop r' h' (t :: post) = ([], true)) as Hend.
    { destruct t as [view vs | [addr |] |]; try discriminate Ht; reflexivity. }
    rewrite Heq, Hend. cbn [fst snd]. rewrite app_nil_r.
    by destruct (syncLoop_loop _ _ pre) as [l b].
  - unfold syncLoop.
    destruct (syncLoop_loop_app (Round (currentRoundState c))
                (Height (currentRoundState c)) pre [] Hpre)
      as (r' & h' & _ & Hno).
    destruct (syncLoop_loop _ _ pre) as [l b]. cbn [snd] in *. by subst b.
  - unfold syncLoop.
    pose proof (syncLoop_loop_serves (Round (currentRoundState c))
                  (Height (currentRoundState c)) pre Hpre) as Hserve.
    by destruct (syncLoop_loop _ _ pre) as [l b].
Qed.

Lemma roundState_eqb (v prev : roundState) :
  (Height v =? Height prev) && (Round v =? Round prev) = true <-> v = prev.
Proof.
  destruct v as [r h], prev as [r' h']. cbn. rewrite andb_true_iff, !Z.eqb_eq.
  split; [intros [-> ->]; reflexivity | intros [= -> ->]; done].
Qed.

Lemma syncLoop_loop_stuck evs : forall prev,
  forallb sync_goes_on evs = true ->
  (forall v, In v (ticks evs) -> v = prev) ->
  length (List.filter is_AskSync
            (fst (syncLoop_loop (Round prev) (Height prev) evs))) =
  length (ticks evs).
Proof.
  induction evs as [| ev evs IH]; intros prev Hall Hsame; [reflexivity |].
  cbn [forallb] in Hall. apply andb_true_iff in Hall as [Hev Hall].
  destruct ev as [view vs | [addr |] |]; try discriminate Hev; cbn [syncLoop_loop].
  - assert (view = prev) as -> by (apply Hsame; by left).
    rewrite (proj2 (roundState_eqb prev prev) eq_refl).
    specialize (IH prev Hall (fun v Hv => Hsame v (or_intror Hv))).
    destruct (syncLoop_loop (Round prev) (Height prev) evs) as [l b]. cbn [fst] in *.
    cbn. by rewrite IH.
  - specialize (IH prev Hall Hsame).
    destruct (syncLoop_loop (Round prev) (Height prev) evs) as [l b]. cbn [fst] in *.
    cbn. exact IH.
Qed.

Lemma syncLoop_loop_progress evs : forall prev,
  forallb sync_goes_on evs = true ->
  view_changes prev (ticks evs) ->
  List.filter is_AskSync
    (fst (syncLoop_loop (Round prev) (Height prev) evs)) = [].
Proof.
  induction evs as [| ev evs IH]; intros prev Hall Hch; [reflexivity |].
  cbn [forallb] in Hall. apply andb_true_iff in Hall as [Hev Hall].
  destruct ev as [view vs | [addr |] |]; try discriminate Hev; cbn [syncLoop_loop].
  - destruct Hch as [Hne Hch].
    destruct ((Height view =? Height prev) && (Round view =? Round prev)) eqn:Heq;
      [by apply roundState_eqb in Heq |].
    specialize (IH view Hall Hch).
    destruct (syncLoop_loop (Round view) (Height view) evs) as [l b]. cbn [fst] in *.
    cbn. exact IH.
  - specialize (IH prev Hall Hch).
    destruct (syncLoop_loop (Round prev) (Height prev) evs) as [l b]. cbn [fst] in *.
    cbn. exact IH.
Qed.

(** X9.  [syncLoop] asks the network for sync once when it starts, with the
    validator set the core then holds.  After that it asks again at a firing
    of the timer only if the view is the one it saw at the previous firing
    (at the start, for the first): a core that stays at one view asks at
    every firing, a core whose view has changed at every firing never asks
    again. *)
Theorem sync_is_asked_only_when_stuck c evs :
  forallb sync_goes_on evs = true ->
  let asks := List.filter is_AskSync (fst (syncLoop c evs)) in
  (exists more, fst (syncLoop c evs) =
     call_NewTimer :: call_backend_AskSync (valSet c) :: more) /\
  ((forall v, In v (ticks evs) -> v = currentRoundState c) ->
   length asks = S (length (ticks evs))) /\
  (view_changes (currentRoundState c) (ticks evs) ->
   asks = [call_backend_AskSync (valSet c)]).
Proof.
  intros Hall asks. subst asks. unfold syncLoop.
  pose proof (syncLoop_loop_stuck evs (currentRoundState c) Hall) as Hstuck.
  pose proof (syncLoop_loop_progress evs (currentRoundState c) Hall) as Hprog.
  destruct (syncLoop_loop _ _ evs) as [l b]. cbn [fst] in *.
  split; [by exists l |]. split.
  - intros Hsame. cbn. by rewrite (Hstuck Hsame).
  - intros Hch. cbn. by rewrite (Hprog Hch).
Qed.

End loop_properties.

(** * More properties of the backend *)

Section more_backend_properties.
Import backend backendExt.
Context `{!Host} `{!Chain}.
Variable Payload : Core.Message -> bytes + error.
Variable Purge : ARCCache bool -> ARCCache bool.
Variable inmemorySnapshots inmemoryPeers : Z.
Implicit Types (sb : Backend _) (valSet : validator.ValSet) (n : Node).

Lemma targets_of_acc_rev sb (vals : list validator.Validator) (acc : gset common.Address) a :
  a ∈ acc \/ (a <> Address sb /\ exists v, In v vals /\ validator.Address v = a) ->
  a ∈ foldl (fun targets val =>
               if decide (validator.Address val ≠ Address sb)
               then targets ∪ {[validator.Address val]} else targets) acc vals.
Proof.
  revert acc. induction vals as [| v vals IH]; intros acc; cbn [foldl].
  - intros [Ha | (_ & v & [] & _)]. exact Ha.
  - intros [Ha | (Hne & v' & [<- | Hin] & Hv')]; apply IH.
    + left. destruct (decide _); [apply elem_of_union; by left | done].
    + left. subst a. destruct (decide _) as [_ | Hn]; [| done].
      apply elem_of_union. right. by apply elem_of_singleton.
    + right. split; [done |]. by exists v'.
Qed.

(** X10.  The targets of [AskSync] and of [Gossip] are exactly the addresses
    of the validators of the set other than the node's own address: no
    validator but the node itself is left out, and the node is never in. *)
Theorem targets_are_the_other_validators sb valSet a :
  a ∈ targets_of sb valSet <->
  a <> Address sb /\ exists v, In v (validator.List valSet) /\ validator.Address v = a.
Proof.
  split; [apply targets_of_spec |].
  intros Ha. unfold targets_of. apply targets_of_acc_rev. by right.
Qed.

Lemma targets_of_empty sb valSet :
  (forall v, In v (validator.List valSet) -> validator.Address v = Address sb) ->
  (Z.of_nat (size (targets_of sb valSet)) >? 0) = false.
Proof.
  intros Hself.
  assert (size (targets_of sb valSet) = 0%nat) as ->; [| reflexivity].
  apply size_empty_iff. apply elem_of_equiv_empty. intros a Ha.
  apply targets_of_spec in Ha as (Hne & v & Hin & <-). by apply Hne, Hself.
Qed.

(** X11.  With a validator set that holds nobody but the node itself (the
    empty set, which [Validators] returns when the lookup of the saved
    validators fails, is one), [AskSync] does nothing and [Gossip] only
    records the hash of the payload as known: nothing is sent and the
    per-peer caches are untouched, whoever is connected. *)
Theorem nobody_else_to_reach sb valSet payload number n e :
  ((forall v, In v (validator.List valSet) -> validator.Address v = Address sb) ->
   AskSync valSet sb = sb /\
   Gossip valSet payload sb =
     set_knownMessages (Add (knownMessages sb) (RLPHash payload) true) sb) /\
  (retrieveSavedValidators number = inr e ->
   validator.List (Validators number n) = [] /\
   AskSync (Validators number n) sb = sb /\
   sent (Gossip (Validators number n) payload sb) = sent sb).
Proof.
  assert (forall vs, (forall v, In v (validator.List vs) -> validator.Address v = Address sb) ->
            AskSync vs sb = sb /\
            Gossip vs payload sb =
              set_knownMessages (Add (knownMessages sb) (RLPHash payload) true) sb) as Hgen.
  { intros vs Hself. pose proof (targets_of_empty sb vs Hself) as Hsz. split.
    - unfold AskSync. rewrite Hsz. by destruct (broadcaster sb).
    - unfold Gossip.
      change (targets_of (set_knownMessages _ sb) vs) with (targets_of sb vs).
      rewrite Hsz. by destruct (broadcaster (set_knownMessages _ sb)). }
  split; [apply Hgen |].
  intros Hfail.
  assert (validator.List (Validators number n) = []) as Hnil.
  { unfold Validators. by rewrite Hfail. }
  split; [exact Hnil |].
  destruct (Hgen (Validators number n)) as [Ha Hg].
  { rewrite Hnil. intros v []. }
  split; [exact Ha |]. by rewrite Hg.
Qed.

(** *** SyncPeer *)

Lemma SyncPeer_loop address p messages : forall sb,
  foldl (SyncPeer_send Payload address p) sb messages =
  mkBackend (backend.address sb) (broadcaster sb) (commitCh sb) (proposedBlockHash sb)
    (recentMessages sb) (knownMessages sb) (arcs sb)
    (sent sb ++ sync_payloads Payload address p messages).
Proof.
  induction messages as [| msg messages IH]; intros sb; cbn [foldl].
  - cbn. rewrite app_nil_r. by destruct sb.
  - rewrite IH. unfold SyncPeer_send, sync_payloads. cbn.
    destruct (Payload msg) as [payload | err]; [| reflexivity].
    cbn. by rewrite <- app_assoc.
Qed.

Lemma sync_payloads_shape address p messages :
  (forall e, In e (sync_payloads Payload address p messages) ->
     exists p payload, e = Send address p tendermintMsg payload) /\
  (length (sync_payloads Payload address p messages) <= length messages)%nat.
Proof.
  unfold sync_payloads.
  induction messages as [| msg msgs IH]; [split; [intros e [] | done] |].
  destruct IH as [IH1 IH2]. cbn.
  destruct (Payload msg) as [payload | err]; cbn.
  - split; [| lia]. intros e [<- | He]; [by exists p, payload | by apply IH1].
  - split; [exact IH1 | lia].
Qed.

(** X12.  [SyncPeer] sends to the one peer connected under the given
    address, and to nobody when there is no broadcaster or that peer is not
    connected: one message per payload that could be built, in the order of
    the list, a message whose payload fails being skipped.  It records
    nothing in the caches, so what [Gossip] will skip for any peer is what it
    would have skipped before. *)
Theorem SyncPeer_sends_without_recording sb address messages :
  let out :=
    match broadcaster sb with
    | None => []
    | Some b =>
        match lookup_peer (FindPeers b {[address]}) address with
        | None => []
        | Some p => sync_payloads Payload address p messages
        end
    end in
  let sb' := SyncPeer Payload address messages sb in
  sb' = mkBackend (backend.address sb) (broadcaster sb) (commitCh sb)
          (proposedBlockHash sb) (recentMessages sb) (knownMessages sb) (arcs sb)
          (sent sb ++ out) /\
  (forall addr hash, peer_has sb' addr hash = peer_has sb addr hash) /\
  (forall e, In e out ->
     exists p payload, e = Send address p tendermintMsg payload) /\
  (length out <= length messages)%nat.
Proof.
  cbv zeta.
  assert (SyncPeer Payload address messages sb =
          mkBackend (backend.address sb) (broadcaster sb) (commitCh sb)
            (proposedBlockHash sb) (recentMessages sb) (knownMessages sb) (arcs sb)
            (sent sb ++
             match broadcaster sb with
             | None => []
             | Some b =>
                 match lookup_peer (FindPeers b {[address]}) address with
                 | None => []
                 | Some p => sync_payloads Payload address p messages
                 end
             end)) as Heq.
  { unfold SyncPeer.
    destruct (broadcaster sb) as [b |] eqn:Hb.
    - destruct (lookup_peer _ address) as [p |].
      + rewrite SyncPeer_loop. by rewrite Hb.
      + rewrite app_nil_r. destruct sb; cbn in *. by rewrite Hb.
    - rewrite app_nil_r. destruct sb; cbn in *. by rewrite Hb. }
  split; [exact Heq |]. split; [by rewrite Heq |].
  destruct (broadcaster sb) as [b |]; [| split; [intros e [] | cbn; lia]].
  destruct (lookup_peer _ address) as [p |];
    [apply sync_payloads_shape | split; [intros e [] | cbn; lia]].
Qed.

(** X13.  After [ResetPeerCache] for an address, the peer's cache holds no
    hash any more ([Purge] empties a cache, a lookup loses nothing): the next
    turn of [Gossip] for that peer sends, whatever the payload.  The reset
    itself sends nothing and leaves the known-messages cache alone. *)
Theorem ResetPeerCache_makes_Gossip_send_again sb address :
  (forall m h, (Get (Purge m) h).2 = None) ->
  (forall V (c : ARCCache V) k k', (Get (Get c k).1 k').2 = (Get c k').2) ->
  let sb' := ResetPeerCache Purge address sb in
  sent sb' = sent sb /\
  knownMessages sb' = knownMessages sb /\
  (forall hash, peer_has sb' address hash = false) /\
  (forall hash payload p,
     sent (Gossip_peer hash payload sb' (address, p)) =
     sent sb ++ [Send address p tendermintMsg payload]).
Proof.
  intros Hpurge Hget sb'.
  assert (sent sb' = sent sb) as Hsent.
  { subst sb'. unfold ResetPeerCache.
    by destruct (Get (recentMessages sb) address) as [rm [l |]]. }
  assert (forall hash, peer_has sb' address hash = false) as Hhas.
  { intros hash. subst sb'. unfold ResetPeerCache, peer_has.
    pose proof (Hget _ (recentMessages sb) address address) as Hg.
    destruct (Get (recentMessages sb) address) as [rm [l |]] eqn:Hrm; cbn [fst snd] in Hg.
    - cbn [recentMessages set_arcs set_recentMessages].
      destruct (Get rm address) as [rm2 o]. cbn in Hg. subst o.
      unfold deref at 1. cbn [arcs set_arcs set_recentMessages].
      rewrite lookup_insert_eq. cbn [default]. unfold id.
      pose proof (Hpurge (deref (set_recentMessages rm sb) l) hash) as Hp.
      destruct (Get (Purge _) hash) as [m o]. cbn in Hp. by subst o.
    - cbn [recentMessages set_recentMessages].
      destruct (Get rm address) as [rm2 o]. cbn in Hg. by subst o. }
  split; [exact Hsent |]. split.
  - subst sb'. unfold ResetPeerCache.
    by destruct (Get (recentMessages sb) address) as [rm [l |]].
  - split; [exact Hhas |].
    intros hash payload p.
    pose proof (Gossip_peer_spec hash payload sb' address p) as Hspec.
    cbv zeta in Hspec. rewrite Hhas in Hspec. destruct Hspec as [-> _].
    by rewrite Hsent.
Qed.

(** X14.  A backend fresh from [New] has the address of its key, takes the
    epoch, the request timeout and the block period of the chain
    configuration only where they are not zero (the proposer policy always),
    and has neither a broadcaster nor a result channel nor a bad-block
    check: it reports no hash as bad, and until a broadcaster is set
    [Gossip], [AskSync] and [SyncPeer] send nothing and [Commit] delivers
    the block nowhere. *)
Theorem New_backend_is_inert cfg key chainCfg :
  let n := New inmemorySnapshots inmemoryPeers cfg key chainCfg in
  Node_Address n = PubkeyToAddress key /\
  GetPrivateKey n = key /\
  coreStarted n = false /\
  Epoch (config n) = (if Epoch chainCfg =? 0 then Epoch cfg else Epoch chainCfg) /\
  RequestTimeout (config n) =
    (if RequestTimeout chainCfg =? 0 then RequestTimeout cfg else RequestTimeout chainCfg) /\
  BlockPeriod (config n) =
    (if BlockPeriod chainCfg =? 0 then BlockPeriod cfg else BlockPeriod chainCfg) /\
  ProposerPolicy (config n) = ProposerPolicy chainCfg /\
  (forall h, HasBadProposal n h = false) /\
  (forall vs payload, sent (Gossip vs payload (base n)) = []) /\
  (forall vs, AskSync vs (base n) = base n) /\
  (forall address messages, SyncPeer Payload address messages (base n) = base n) /\
  (forall block seals, sent (fst (Commit block seals (base n))) = []).
Proof.
  cbv zeta. unfold New.
  split; [reflexivity |]. split; [reflexivity |]. split; [reflexivity |].
  split; [by destruct (Epoch chainCfg =? 0), (RequestTimeout chainCfg =? 0),
             (BlockPeriod chainCfg =? 0) |].
  split; [by destruct (Epoch chainCfg =? 0), (RequestTimeout chainCfg =? 0),
             (BlockPeriod chainCfg =? 0) |].
  split; [by destruct (Epoch chainCfg =? 0), (RequestTimeout chainCfg =? 0),
             (BlockPeriod chainCfg =? 0) |].
  split; [reflexivity |]. split; [reflexivity |].
  cbn [base].
  split; [intros vs payload; reflexivity |].
  split; [intros vs; reflexivity |].
  split; [intros address messages; reflexivity |].
  intros block seals. unfold Commit.
  destruct (WriteCommittedSeals _ seals); [| reflexivity].
  cbn. rewrite andb_false_r. reflexivity.
Qed.

(** X15.  The key and the address stay together.  After [SetPrivateKey], and
    on a backend fresh from [New], a signature that [Sign] produces is
    accepted by [CheckSignature] for the backend's own [Address] and refused
    with [ErrInvalidSignature] for every other address.  (A signature over
    the Keccak hash of the data recovers to the address of the signing
    key.) *)
Theorem own_signature_verifies n key cfg chainCfg data sig :
  (forall d k s, crypto_Sign (Keccak256 d) k = inl s ->
                 GetSignatureAddress d s = inl (PubkeyToAddress k)) ->
  (Sign data (SetPrivateKey key n) = inl sig ->
   GetPrivateKey (SetPrivateKey key n) = key /\
   CheckSignature data (Node_Address (SetPrivateKey key n)) sig = None /\
   forall a, a <> Node_Address (SetPrivateKey key n) ->
             CheckSignature data a sig = Some ErrInvalidSignature) /\
  (Sign data (New inmemorySnapshots inmemoryPeers cfg key chainCfg) = inl sig ->
   CheckSignature data
     (Node_Address (New inmemorySnapshots inmemoryPeers cfg key chainCfg)) sig = None).
Proof.
  intros Hrecover.
  assert (forall a, crypto_Sign (Keccak256 data) key = inl sig ->
            CheckSignature data a sig =
            if (PubkeyToAddress key =? a)%N then None else Some ErrInvalidSignature) as Hc.
  { intros a Hs. unfold CheckSignature. rewrite (Hrecover data key sig Hs).
    by destruct (PubkeyToAddress key =? a)%N. }
  split.
  - intros Hs. unfold Sign in Hs. cbn in Hs.
    split; [reflexivity |]. split.
    + rewrite (Hc _ Hs). cbn. by rewrite N.eqb_refl.
    + intros a Ha. rewrite (Hc _ Hs). cbn in Ha.
      destruct (N.eqb_spec (PubkeyToAddress key) a); [by subst a | done].
  - intros Hs. unfold Sign in Hs. cbn in Hs.
    rewrite (Hc _ Hs). cbn. by rewrite N.eqb_refl.
Qed.

(** *** Gossiping a payload again *)

Section again.
Variable content : forall V, ARCCache V -> gmap N V.
Variable room : forall V, ARCCache V -> nat.
Hypothesis Hcache : bounded_cache content room.
Variable hash : N.
Variable payload : bytes.

Lemma cache_get V (c : ARCCache V) k :
  (Get c k).2 = content V c !! k /\
  content V (Get c k).1 = content V c /\
  room V (Get c k).1 = room V c.
Proof. by destruct Hcache as (HG & _). Qed.

Lemma cache_add V (c : ARCCache V) k v :
  is_Some (content V c !! k) \/ (0 < room V c)%nat ->
  content V (Add c k v) = <[k := v]> (content V c).
Proof. destruct Hcache as (_ & HA & _). apply HA. Qed.

Lemma cache_add_hit V (c : ARCCache V) k v :
  is_Some (content V c !! k) -> room V (Add c k v) = room V c.
Proof. destruct Hcache as (_ & _ & HA & _). apply HA. Qed.

Lemma cache_add_new V (c : ARCCache V) k v :
  content V c !! k = None -> (0 < room V c)%nat ->
  room V (Add c k v) = pred (room V c).
Proof. destruct Hcache as (_ & _ & _ & HA). apply HA. Qed.

(** A turn of the first call: the peer is served afterwards, every peer
    that was served still is, and there is room left for the peers to
    come. *)
Local Ltac simp_caches :=
  cbn [arcs recentMessages sent set_arcs set_recentMessages emit].

Lemma Gossip_peer_serves sb (a' : N) p' (j : nat) :
  (0 < room _ (NewARC (V := bool) inmemoryMessages))%nat ->
  roomy content room hash sb ->
  (S j <= room _ (recentMessages sb))%nat ->
  let sb' := Gossip_peer hash payload sb (a', p') in
  roomy content room hash sb' /\
  (j <= room _ (recentMessages sb'))%nat /\
  forall addr, addr = a' \/ served content hash sb addr -> served content hash sb' addr.
Proof.
  intros Hnew Hroomy Hroom. cbv zeta. unfold Gossip_peer.
  destruct (cache_get _ (recentMessages sb) a') as (G1 & G2 & G3).
  destruct (Get (recentMessages sb) a') as [rm ms]. cbn [fst snd] in G1, G2, G3.
  assert (forall addr l, content _ (recentMessages sb) !! addr = Some l ->
                         content _ rm !! addr = Some l) as Hrm
    by (intros addr l; by rewrite G2).
  destruct ms as [l0 |].
  - (* the peer has a cache *)
    set (m0 := deref (set_recentMessages rm sb) l0).
    assert (is_Some (content _ m0 !! hash) \/ (0 < room _ m0)%nat) as Hm0.
    { subst m0. unfold deref. cbn [arcs set_recentMessages].
      destruct (arcs sb !! l0) as [m |] eqn:Hl0; cbn [default]; [by apply (Hroomy l0) |].
      by right. }
    destruct (cache_get _ m0 hash) as (K1 & K2 & K3).
    destruct (Get m0 hash) as [m1 k]. cbn [fst snd] in K1, K2, K3.
    destruct k as [v |].
    + (* skipped *)
      cbn [arcs recentMessages set_arcs set_recentMessages].
      assert (is_Some (content _ m1 !! hash)) as Hm1 by (rewrite K2, <- K1; by eexists).
      split; [| split].
      * intros l m. cbn [arcs set_arcs set_recentMessages emit]. rewrite lookup_insert.
        destruct (decide (l0 = l)) as [-> | _]; [intros [= <-]; by left | apply Hroomy].
      * lia.
      * intros addr [-> | (l & m & Hl & Hm & Hh)].
        -- exists l0, m1. simp_caches. rewrite G2, <- G1. split; [done |].
           split; [apply lookup_insert_eq | done].
        -- destruct (decide (l0 = l)) as [-> | Hne].
           ++ exists l, m1. simp_caches. split; [by apply Hrm |]. split; [apply lookup_insert_eq | done].
           ++ exists l, m. simp_caches. split; [by apply Hrm |]. split; [by rewrite lookup_insert_ne | done].
    + (* sent *)
      unfold Gossip_send. cbn [arcs recentMessages sent emit set_arcs set_recentMessages].
      rewrite insert_insert_eq.
      assert ((0 < room _ m1)%nat) as Hr1.
      { rewrite K3. destruct Hm0 as [Hh | Hr]; [| done].
        rewrite <- K1 in Hh. by destruct Hh. }
      assert (is_Some (content _ (Add m1 hash true) !! hash)) as Hadd.
      { rewrite cache_add by (by right). rewrite lookup_insert_eq. by eexists. }
      assert (is_Some (content _ rm !! a')) as Hhit by (rewrite G2, <- G1; by eexists).
      assert (content _ (Add rm a' l0) = <[a' := l0]> (content _ rm)) as Hc
        by (apply cache_add; by left).
      split; [| split].
      * intros l m. cbn [arcs set_arcs set_recentMessages emit]. rewrite lookup_insert.
        destruct (decide (l0 = l)) as [-> | _]; [intros [= <-]; by left | apply Hroomy].
      * rewrite cache_add_hit by done. lia.
      * intros addr Hpre.
        assert (addr = a' \/ (addr <> a' /\ served content hash sb addr)) as [-> | [Hne (l & m & Hl & Hm & Hh)]].
        { destruct (decide (addr = a')); [by left |]. destruct Hpre; [done | by right]. }
        -- exists l0, (Add m1 hash true). simp_caches. rewrite Hc, lookup_insert_eq.
           split; [done |]. split; [apply lookup_insert_eq | done].
        -- destruct (decide (l0 = l)) as [-> | Hl0].
           ++ exists l, (Add m1 hash true). simp_caches. rewrite Hc, lookup_insert_ne by done.
              split; [by apply Hrm |]. split; [apply lookup_insert_eq | done].
           ++ exists l, m. simp_caches. rewrite Hc, lookup_insert_ne by done.
              split; [by apply Hrm |]. split; [by rewrite lookup_insert_ne | done].
  - (* the peer has no cache *)
    unfold Gossip_send. cbn [arcs recentMessages sent emit set_arcs set_recentMessages].
    set (lf := fresh (dom (arcs sb))).
    assert (arcs sb !! lf = None) as Hlf by (apply not_elem_of_dom, is_fresh).
    assert (is_Some (content _ (Add (NewARC inmemoryMessages) hash true) !! hash)) as Hadd.
    { rewrite cache_add by (by right). rewrite lookup_insert_eq. by eexists. }
    assert (content _ rm !! a' = None) as Hmiss by (by rewrite G2, <- G1).
    assert (content _ (Add rm a' lf) = <[a' := lf]> (content _ rm)) as Hc
      by (apply cache_add; right; lia).
    split; [| split].
    + intros l m. cbn [arcs set_arcs set_recentMessages emit]. rewrite lookup_insert.
      destruct (decide (lf = l)) as [-> | _]; [intros [= <-]; by left | apply Hroomy].
    + rewrite cache_add_new by (done || lia). lia.
    + intros addr Hpre.
      assert (addr = a' \/ (addr <> a' /\ served content hash sb addr)) as [-> | [Hne (l & m & Hl & Hm & Hh)]].
      { destruct (decide (addr = a')); [by left |]. destruct Hpre; [done | by right]. }
      * exists lf, (Add (NewARC inmemoryMessages) hash true). simp_caches. rewrite Hc, lookup_insert_eq.
        split; [done |]. split; [apply lookup_insert_eq | done].
      * assert (lf <> l) as Hl0 by (intros ->; by rewrite Hlf in Hm).
        exists l, m. simp_caches. rewrite Hc, lookup_insert_ne by done.
        split; [by apply Hrm |]. split; [by rewrite lookup_insert_ne | done].
Qed.

Lemma Gossip_loop_serves ps : forall sb,
  (0 < room _ (NewARC (V := bool) inmemoryMessages))%nat ->
  roomy content room hash sb ->
  (length ps <= room _ (recentMessages sb))%nat ->
  forall addr p, In (addr, p) ps ->
    served content hash (foldl (Gossip_peer hash payload) sb ps) addr.
Proof.
  assert (forall ps sb,
            (0 < room _ (NewARC (V := bool) inmemoryMessages))%nat ->
            roomy content room hash sb ->
            (length ps <= room _ (recentMessages sb))%nat ->
            forall addr, served content hash sb addr \/ (exists p, In (addr, p) ps) ->
              served content hash (foldl (Gossip_peer hash payload) sb ps) addr) as Hgen.
  { clear ps. induction ps as [| [a' p'] ps IH]; intros sb Hnew Hroomy Hroom addr Hpre;
      cbn [foldl].
    - destruct Hpre as [Hs | (p & [])]. exact Hs.
    - destruct (Gossip_peer_serves sb a' p' (length ps) Hnew Hroomy Hroom)
        as (Hroomy' & Hroom' & Hserved).
      apply IH; [done | done | done |].
      destruct Hpre as [Hs | (p & [[= <- <-] | Hin])].
      + left. apply Hserved. by right.
      + left. apply Hserved. by left.
      + right. by exists p. }
  intros sb Hnew Hroomy Hroom addr p Hin. apply Hgen; [done | done | done |].
  right. by exists p.
Qed.

(** A turn for a peer that is served: nothing is sent and every peer that
    was served still is. *)
Lemma Gossip_peer_served sb (a' : N) p' :
  served content hash sb a' ->
  sent (Gossip_peer hash payload sb (a', p')) = sent sb /\
  forall addr, served content hash sb addr -> served content hash (Gossip_peer hash payload sb (a', p')) addr.
Proof.
  intros (l0 & m0 & Hl0 & Hm0 & Hh0). unfold Gossip_peer.
  destruct (cache_get _ (recentMessages sb) a') as (G1 & G2 & G3).
  destruct (Get (recentMessages sb) a') as [rm ms]. cbn [fst snd] in G1, G2, G3.
  rewrite G1, Hl0. unfold deref. cbn [arcs set_recentMessages]. rewrite Hm0. cbn [default].
  unfold id.
  destruct (cache_get _ m0 hash) as (K1 & K2 & K3).
  destruct (Get m0 hash) as [m1 k]. cbn [fst snd] in K1, K2, K3.
  rewrite K1. destruct Hh0 as [v Hv]. rewrite Hv.
  cbn [sent arcs recentMessages set_arcs set_recentMessages].
  split; [reflexivity |].
  intros addr (l & m & Hl & Hm & Hh).
  destruct (decide (l0 = l)) as [-> | Hne].
  - exists l, m1. simp_caches. rewrite G2. split; [done |].
    split; [apply lookup_insert_eq |].
    rewrite K2, Hv. by eexists.
  - exists l, m. simp_caches. rewrite G2. split; [done |].
    split; [by rewrite lookup_insert_ne | done].
Qed.

Lemma Gossip_loop_silent ps : forall sb,
  (forall addr p, In (addr, p) ps -> served content hash sb addr) ->
  sent (foldl (Gossip_peer hash payload) sb ps) = sent sb.
Proof.
  induction ps as [| [a' p'] ps IH]; intros sb Hall; cbn [foldl]; [done |].
  destruct (Gossip_peer_served sb a' p') as [Hsent Hkeep]; [apply (Hall a' p'); by left |].
  rewrite IH; [exact Hsent |].
  intros addr p Hin. apply Hkeep, (Hall addr p). by right.
Qed.

End again.

Lemma Gossip_loop_broadcaster hash payload ps : forall sb,
  broadcaster (foldl (Gossip_peer hash payload) sb ps) = broadcaster sb.
Proof.
  induction ps as [| ap ps IH]; intros sb; cbn [foldl]; [done |].
  rewrite IH. by destruct (Gossip_peer_frame hash payload sb ap) as (_ & -> & _).
Qed.

Lemma targets_of_address sb sb' valSet :
  backend.address sb = backend.address sb' -> targets_of sb valSet = targets_of sb' valSet.
Proof. intros Ha. unfold targets_of, Address. by rewrite Ha. Qed.

Lemma Gossip_as_loop valSet payload sb :
  Gossip valSet payload sb =
  foldl (Gossip_peer (RLPHash payload) payload)
    (set_knownMessages (Add (knownMessages sb) (RLPHash payload) true) sb)
    (gossip_peers valSet sb).
Proof.
  unfold Gossip, gossip_peers.
  change (broadcaster (set_knownMessages _ sb)) with (broadcaster sb).
  change (targets_of (set_knownMessages _ sb) valSet) with (targets_of sb valSet).
  destruct (broadcaster sb) as [b |]; [| done].
  by destruct (Z.of_nat (size (targets_of sb valSet)) >? 0).
Qed.

(** X16.  Gossiping a payload a second time sends nothing as long as no
    cache had to evict an entry: when [recentMessages] has room for the
    peers found, a new per-peer cache has room for one hash, and every
    per-peer cache there is holds the hash already or has room for it, then
    after the first [Gossip] every peer found has the hash in its cache and
    the second [Gossip] of the same payload to the same validators skips
    them all.  (The caches are bounded: see [bounded_cache] for what is
    assumed of them.) *)
Theorem Gossip_again_sends_nothing
    (content : forall V, ARCCache V -> gmap N V) (room : forall V, ARCCache V -> nat)
    sb valSet payload :
  bounded_cache content room ->
  (length (gossip_peers valSet sb) <= room _ (recentMessages sb))%nat ->
  (0 < room _ (NewARC (V := bool) inmemoryMessages))%nat ->
  (forall l m, arcs sb !! l = Some m ->
     is_Some (content _ m !! RLPHash payload) \/ (0 < room _ m)%nat) ->
  let sb1 := Gossip valSet payload sb in
  (forall addr p, In (addr, p) (gossip_peers valSet sb) ->
     peer_cache_holds sb1 addr (RLPHash payload)) /\
  gossip_peers valSet sb1 = gossip_peers valSet sb /\
  sent (Gossip valSet payload sb1) = sent sb1.
Proof.
  intros Hcache Hroom Hnew Hroomy sb1.
  set (hash := RLPHash payload).
  set (sb0 := set_knownMessages (Add (knownMessages sb) hash true) sb).
  assert (sb1 = foldl (Gossip_peer hash payload) sb0 (gossip_peers valSet sb)) as Hsb1
    by apply Gossip_as_loop.
  assert (forall addr p, In (addr, p) (gossip_peers valSet sb) ->
            backendExt.served content hash sb1 addr) as Hserved.
  { rewrite Hsb1. by apply (Gossip_loop_serves content room Hcache). }
  assert (gossip_peers valSet sb1 = gossip_peers valSet sb) as Hpeers.
  { unfold gossip_peers. rewrite Hsb1, Gossip_loop_broadcaster.
    rewrite (targets_of_address _ sb0 valSet)
      by (by destruct (Gossip_loop_frame hash payload (gossip_peers valSet sb) sb0) as [-> _]).
    reflexivity. }
  split; [| split; [exact Hpeers |]].
  - intros addr p Hin. destruct (Hserved addr p Hin) as (l & m & Hl & Hm & Hh).
    exists l, m. destruct Hcache as (HG & _).
    destruct (HG _ (recentMessages sb1) addr) as (-> & _).
    destruct (HG _ m hash) as (-> & _). done.
  - rewrite (Gossip_as_loop valSet payload sb1), Hpeers. fold hash.
    rewrite (Gossip_loop_silent content room Hcache); [reflexivity |].
    intros addr p Hin. destruct (Hserved addr p Hin) as (l & m & Hl & Hm & Hh).
    by exists l, m.
Qed.

(** *** VerifyProposal *)

Lemma apply_transactions_app header block pre : forall rest i state rs,
  apply_transactions header block i (pre ++ rest) state rs =
  match apply_transactions header block i pre state rs with
  | inr e => inr e
  | inl (s, rs') => apply_transactions header block (i + length pre) rest s rs'
  end.
Proof.
  induction pre as [| tx pre IH]; intros rest i state rs; cbn [app apply_transactions length].
  - by rewrite Nat.add_0_r.
  - destruct (ApplyTransaction header tx _) as [[s r] | e]; [| done].
    rewrite IH. by replace (S i + length pre)%nat with (i + S (length pre))%nat by lia.
Qed.

Lemma apply_transactions_length header block txs : forall i state rs s rs',
  apply_transactions header block i txs state rs = inl (s, rs') ->
  length rs' = (length rs + length txs)%nat.
Proof.
  induction txs as [| tx txs IH]; intros i state rs s rs'; cbn [apply_transactions length].
  - intros [= _ <-]. lia.
  - destruct (ApplyTransaction header tx _) as [[s1 r] | e]; [| done].
    intros Happ. apply IH in Happ. rewrite length_app in Happ. cbn in Happ. lia.
Qed.

Lemma same_validators_eq extra : forall validators,
  length extra = length validators ->
  same_validators extra validators = true <-> extra = validators.
Proof.
  induction extra as [| e extra IH]; intros [| v validators] Hlen; try discriminate Hlen.
  - done.
  - cbn [same_validators]. injection Hlen as Hlen.
    destruct (N.eqb_spec e v) as [-> | Hne]; cbn [negb].
    + rewrite (IH validators Hlen). split; [by intros -> | by intros [= ->]].
    + split; [done | by intros [= -> _]].
Qed.

(** The header's validators pass the comparison exactly when they are the
    list they are compared with. *)
Lemma compare_validators_None extra validators :
  compare_validators extra validators = None <-> extra = validators.
Proof.
  unfold compare_validators.
  destruct (Nat.eqb_spec (length extra) (length validators)) as [Hlen | Hlen]; cbn [negb].
  - rewrite <- (same_validators_eq extra validators Hlen).
    by destruct (same_validators extra validators).
  - split; [done |]. by intros ->.
Qed.

(** X17.  What [VerifyProposal] refuses before it executes anything.  A
    block whose hash the bad-block check reports is refused with
    [ErrBlacklistedHash], whatever its header.  Otherwise an error of the
    header check other than [ErrEmptyCommittedSeals] is returned as it is:
    for [ErrFutureBlock] together with the time left until the block's
    timestamp, for any other error with a zero duration. *)
Theorem VerifyProposal_refuses_before_executing proposal n f e :
  (hasBadBlock n = Some f -> f (Block_Hash proposal) = true ->
   VerifyProposal proposal n = verdict_return 0 (Some ErrBlacklistedHash)) /\
  (HasBadProposal n (Block_Hash proposal) = false ->
   VerifyHeader (Block_Header proposal) = Some e ->
   e <> ErrEmptyCommittedSeals ->
   VerifyProposal proposal n =
     verdict_return
       (if decide (e = ErrFutureBlock)
        then Sub_now (Header_Time (Block_Header proposal)) else 0)
       (Some e)).
Proof.
  split.
  - intros Hf Hbad. unfold VerifyProposal, HasBadProposal. by rewrite Hf, Hbad.
  - intros Hok He Hne. unfold VerifyProposal. rewrite Hok, He.
    rewrite bool_decide_eq_false_2 by (intros [[=] | [= ->]]; done).
    destruct (decide (e = ErrFutureBlock)) as [-> | Hnf].
    + by rewrite bool_decide_eq_true_2.
    + by rewrite bool_decide_eq_false_2 by (intros [= ->]; done).
Qed.

(** X18.  What an accepted proposal went through.  If [VerifyProposal]
    returns nil, then the duration is zero, the hash is not reported bad,
    the header check returned nil or [ErrEmptyCommittedSeals], the parent
    block was found and its state opened, the body is valid, every
    transaction of the block was applied to that state in turn (one receipt
    each), the contract step for the block's number (deployment for block 1,
    redistribution for a later block, nothing for block 0) succeeded on the
    state the transactions left, the state it produced is valid for the
    block with those receipts, and the validators written in the header are,
    one by one, the validators the contract reports in that state (the
    saved set of block 1 for a block up to 1). *)
Theorem VerifyProposal_accepts_consistent_validators proposal n d :
  VerifyProposal proposal n = verdict_return d None ->
  let header := Block_Header proposal in
  let proposalNumber := wrapU64 (Number header) in
  d = 0 /\
  HasBadProposal n (Block_Hash proposal) = false /\
  (VerifyHeader header = None \/ VerifyHeader header = Some ErrEmptyCommittedSeals) /\
  ValidateBody proposal = None /\
  exists parent state0 state1 receipts state2 validators,
    GetBlock (Block_ParentHash proposal) (wrapU64 (proposalNumber - 1)) = Some parent /\
    StateAt (Block_Root parent) = inl state0 /\
    apply_transactions header proposal 0 (Block_Transactions proposal) state0 [] =
      inl (state1, receipts) /\
    length receipts = length (Block_Transactions proposal) /\
    (if proposalNumber =? 1 then DeployAutonityContract header state1
     else if proposalNumber >? 1 then
       ApplyPerformRedistribution (Block_Transactions proposal) receipts header state1
     else (state1, None)) = (state2, None) /\
    ValidateState proposal state2 receipts = None /\
    (if proposalNumber >? 1 then ContractGetValidators header state2
     else retrieveSavedValidators 1) = inl validators /\
    ExtractBFTHeaderExtra header = Some validators.
Proof.
  intros Hv header proposalNumber. unfold VerifyProposal in Hv.
  destruct (HasBadProposal n (Block_Hash proposal)) eqn:Hbad; [discriminate Hv |].
  fold header in Hv.
  destruct (bool_decide (VerifyHeader header = None \/
                         VerifyHeader header = Some ErrEmptyCommittedSeals)) eqn:Hh.
  2: { destruct (bool_decide (VerifyHeader header = Some ErrFutureBlock)) eqn:Hf;
         [discriminate Hv |].
       injection Hv as _ Hnil. apply bool_decide_eq_false in Hh. tauto. }
  apply bool_decide_eq_true in Hh.
  unfold VerifyProposal_body in Hv. fold header proposalNumber in Hv.
  destruct (GetBlock _ _) as [parent |] eqn:Hparent; [| discriminate Hv].
  destruct (StateAt (Block_Root parent)) as [state0 | stateErr] eqn:Hstate; [| discriminate Hv].
  destruct (ValidateBody proposal) as [err |] eqn:Hbody; [discriminate Hv |].
  destruct (apply_transactions header proposal 0 _ state0 [])
    as [[state1 receipts] | receiptErr] eqn:Htxs; [| discriminate Hv].
  destruct (if proposalNumber =? 1 then _ else _) as [state2 [err |]] eqn:Hcontract;
    [discriminate Hv |].
  destruct (ValidateState proposal state2 receipts) as [err |] eqn:Hvs; [discriminate Hv |].
  destruct (if proposalNumber >? 1 then ContractGetValidators header state2
            else retrieveSavedValidators 1) as [validators | err] eqn:Hvals;
    [| discriminate Hv].
  destruct (ExtractBFTHeaderExtra header) as [extra |] eqn:Hextra; [| discriminate Hv].
  injection Hv as <- Hcmp. apply compare_validators_None in Hcmp. subst extra.
  repeat split; try done.
  exists parent, state0, state1, receipts, state2, validators.
  repeat split; try done.
  by rewrite (apply_transactions_length _ _ _ _ _ _ _ _ Htxs).
Qed.

(** X19.  A block with a transaction that fails is refused with that
    transaction's error, and the transactions after it are not applied: when
    the hash is not reported bad, the header check passes, the parent's state
    opens, the body is valid and the transactions before [tx] succeed, the
    verdict is the error of [tx] whatever follows it in the block. *)
Theorem VerifyProposal_stops_at_failing_transaction
    proposal n parent state0 pre tx post s1 rs1 e :
  HasBadProposal n (Block_Hash proposal) = false ->
  VerifyHeader (Block_Header proposal) = None ->
  GetBlock (Block_ParentHash proposal)
    (wrapU64 (wrapU64 (Number (Block_Header proposal)) - 1)) = Some parent ->
  StateAt (Block_Root parent) = inl state0 ->
  ValidateBody proposal = None ->
  Block_Transactions proposal = pre ++ tx :: post ->
  apply_transactions (Block_Header proposal) proposal 0 pre state0 [] = inl (s1, rs1) ->
  ApplyTransaction (Block_Header proposal) tx
    (Prepare tx proposal (length pre) s1) = inr e ->
  VerifyProposal proposal n = verdict_return 0 (Some e) /\
  length rs1 = length pre.
Proof.
  intros Hbad Hh Hparent Hstate Hbody Htxs Hpre Htx.
  split; [| by rewrite (apply_transactions_length _ _ _ _ _ _ _ _ Hpre)].
  unfold VerifyProposal. rewrite Hbad, Hh.
  rewrite bool_decide_eq_true_2 by (by left).
  unfold VerifyProposal_body. rewrite Hparent, Hstate, Hbody, Htxs.
  rewrite apply_transactions_app, Hpre. cbn [apply_transactions Nat.add].
  by rewrite Htx.
Qed.

End more_backend_properties.

(** * The further properties on the doubles *)

Section more_scenarios.
Import Core CoreExt double double2.
#[local] Existing Instance collaborators.
#[local] Existing Instance host_unbounded.
#[local] Existing Instance chain.

Lemma only_future_messages_are_stored_witness :
  (exists more,
      calls (fst (handleCheckedMsg prevote_C valC world0)) =
      calls (emit (call_handlePrevote prevote_C) world0)
        ++ call_storeBacklog prevote_C valC :: more)
  <-> exists e, Some errFutureRoundMessage = Some e /\ is_future e = true.
Proof.
  refine (proj1 (only_future_messages_are_stored
                   world0 prevote_C valC (emit (call_handlePrevote prevote_C) world0)
                   (Some errFutureRoundMessage) _)).
  reflexivity.
Defined.

(** n = 4, f = 1: the first future-round message is counted, the second
    starts the round. *)
Lemma round_skip_at_threshold_witness :
  testBacklog prevote_C valC
    (feed_future_round [(prevote_C, valC)] world0)
    (Some errFutureRoundMessage) =
  (do_startRound 2
     (count_future_round 2
        (do_storeBacklog prevote_C valC
           (feed_future_round [(prevote_C, valC)] world0))),
   Some errFutureRoundMessage).
Proof.
  refine (proj2 (round_skip_at_threshold
                   world0 [(prevote_C, valC)] prevote_C valC 2 _ _ _ _ _ _)).
  - intros m s c. split; reflexivity.
  - intros ms [<- | []]. reflexivity.
  - reflexivity.
  - vm_compute. discriminate.
  - vm_compute. reflexivity.
  - reflexivity.
Defined.

Lemma Start_failure_still_marks_started_witness :
  snd (Start (H := collaborators_down) world0) = Some ErrStoppedEngine /\
  isStarted (st (fst (Start (H := collaborators_down) world0))) = 1.
Proof.
  pose proof (Start_failure_still_marks_started (Collaborators0 := collaborators_down)
                world0 0 ErrStoppedEngine) as Hw.
  cbv zeta in Hw.
  destruct Hw as (Herr & _ & Hstarted & _).
  - vm_compute. discriminate.
  - reflexivity.
  - reflexivity.
  - split; [exact Herr | exact Hstarted].
Defined.

Lemma Stop_after_Start_then_restart_witness :
  snd (Stop (fst (Start world0))) = returns None.
Proof.
  refine (proj1 (Stop_after_Start_then_restart
                   world0 0 0 None _ _ _ _ _)).
  - vm_compute. discriminate.
  - reflexivity.
  - reflexivity.
  - reflexivity.
  - reflexivity.
Defined.

Lemma Stop_panics_when_never_started_witness :
  snd (Stop world_new) = panics.
Proof.
  refine (proj1 (Stop_panics_when_never_started
                   world_new _ _ _)).
  - vm_compute. discriminate.
  - reflexivity.
  - left. reflexivity.
Defined.

Lemma driver_leaves_at_first_end_witness :
  eventLoop
    ([recv_messageEventSub (Some (MessageEvent prevote_C_r2))]
       ++ ctx_Done :: [recv_messageEventSub (Some (MessageEvent precommit_C_r2))]) world0 =
  (fst (eventLoop
          [recv_messageEventSub (Some (MessageEvent prevote_C_r2))] world0), true).
Proof.
  refine (proj1 (driver_leaves_at_first_end world0
                   [recv_messageEventSub (Some (MessageEvent prevote_C_r2))] ctx_Done
                   [recv_messageEventSub (Some (MessageEvent precommit_C_r2))] _ _)).
  - reflexivity.
  - reflexivity.
Defined.

Lemma unmined_blocks_are_stored_in_order_witness :
  handleNewUnminedBlockEvent storeUnminedBlockMsg
    (map (fun pb => recv_newUnminedBlockEventSub (Some pb)) [block1; block_ok]
       ++ unmined_ctx_Done :: [recv_newUnminedBlockEventSub (Some block_future)]) core0 =
  (foldl (fun c pb => storeUnminedBlockMsg pb c) core0 [block1; block_ok],
   map call_storeUnminedBlockMsg [block1; block_ok] ++ [call_stopped_send], true).
Proof.
  refine (proj1 (unmined_blocks_are_stored_in_order storeUnminedBlockMsg
                   [block1; block_ok] unmined_ctx_Done
                   [recv_newUnminedBlockEventSub (Some block_future)] core0 _)).
  right. reflexivity.
Defined.

Lemma sync_requests_are_served_witness :
  synced_peers
    (fst (syncLoop core0 [recv_syncEventSub (Some 12%N); recv_syncEventSub (Some 10%N)])) =
  [12%N; 10%N].
Proof.
  refine (proj1 (proj2 (proj2 (sync_requests_are_served core0
                   [recv_syncEventSub (Some 12%N); recv_syncEventSub (Some 10%N)]
                   sync_ctx_Done [] _ _)))).
  - reflexivity.
  - reflexivity.
Defined.

(** Two firings of the timer with the core still at round 0 of height 1:
    three requests in all. *)
Lemma sync_is_asked_only_when_stuck_witness :
  length (List.filter is_AskSync
            (fst (syncLoop core0 [timer_C {| Round := 0; Height := 1 |} abcd;
                                  timer_C {| Round := 0; Height := 1 |} abcd]))) = 3%nat.
Proof.
  refine (proj1 (proj2 (sync_is_asked_only_when_stuck core0
                   [timer_C {| Round := 0; Height := 1 |} abcd;
                    timer_C {| Round := 0; Height := 1 |} abcd] _)) _).
  - reflexivity.
  - intros v [<- | [<- | []]]; reflexivity.
Defined.

(** The set that holds B alone, on B's backend. *)
Lemma nobody_else_to_reach_witness :
  backend.AskSync {| validator.List := [valB] |} (backendU (Some all_connected)) =
    backendU (Some all_connected) /\
  validator.List
    (backendExt.Validators 101 node0) = [].
Proof.
  pose proof (nobody_else_to_reach
                (backendU (Some all_connected)) {| validator.List := [valB] |}
                prevote_C_r2 101 node0 (errOther 8)) as [Hself Hfail].
  split.
  - refine (proj1 (Hself _)). intros v [<- | []]. reflexivity.
  - refine (proj1 (Hfail _)). reflexivity.
Defined.

(** The payload gossiped to A is forgotten for A after the reset. *)
Lemma ResetPeerCache_makes_Gossip_send_again_witness :
  backend.peer_has
    (backendExt.ResetPeerCache Purge 10%N
       (backend.Gossip abcd prevote_C_r2 (backendU (Some all_connected))))
    10%N (hash_bytes prevote_C_r2) = false.
Proof.
  refine (proj1 (proj2 (proj2 (ResetPeerCache_makes_Gossip_send_again Purge
                   (backend.Gossip abcd prevote_C_r2 (backendU (Some all_connected)))
                   10%N _ _))) (hash_bytes prevote_C_r2)).
  - intros m h. reflexivity.
  - intros V c k k'. reflexivity.
Defined.

Lemma own_signature_verifies_witness :
  backendExt.CheckSignature prevote_C_r2
    (backendExt.Node_Address (backendExt.SetPrivateKey Byte.x0c node0)) [Byte.x0c] = None.
Proof.
  refine (proj1 (proj2 (proj1 (own_signature_verifies
                   128 64 node0 Byte.x0c config0 config0 prevote_C_r2 [Byte.x0c] _) _))).
  - intros d k s [= <-]. reflexivity.
  - reflexivity.
Defined.

Lemma VerifyProposal_refuses_before_executing_witness :
  backendExt.VerifyProposal block_listed node_wary =
    backendExt.verdict_return 0 (Some backendExt.ErrBlacklistedHash) /\
  backendExt.VerifyProposal block_future node0 =
    backendExt.verdict_return (-1000) (Some backendExt.ErrFutureBlock).
Proof.
  split.
  - refine (proj1 (VerifyProposal_refuses_before_executing block_listed node_wary (fun h => (h =? 8)%N)
                     ErrStoppedEngine) _ _); reflexivity.
  - refine (proj2 (VerifyProposal_refuses_before_executing block_future node0 (fun h => (h =? 8)%N)
                     backendExt.ErrFutureBlock) _ _ _).
    + reflexivity.
    + reflexivity.
    + discriminate.
Defined.

Lemma VerifyProposal_accepts_consistent_validators_witness :
  backendExt.ExtractBFTHeaderExtra (backend.Block_Header block_ok) =
    Some [10; 11; 12; 13]%N /\
  backendExt.ValidateBody block_ok = None.
Proof.
  pose proof (VerifyProposal_accepts_consistent_validators block_ok node0 0 eq_refl) as Hw.
  cbv zeta in Hw.
  destruct Hw as (_ & _ & _ & Hbody & parent & s0 & s1 & rs & s2 & vals
                  & _ & _ & _ & _ & _ & _ & Hvals & Hextra).
  split; [| exact Hbody].
  rewrite Hextra. f_equal. vm_compute in Hvals. by injection Hvals as <-.
Defined.

Lemma VerifyProposal_stops_at_failing_transaction_witness :
  backendExt.VerifyProposal block_bad_tx node0 =
    backendExt.verdict_return 0 (Some (errOther 7)).
Proof.
  refine (proj1 (VerifyProposal_stops_at_failing_transaction block_bad_tx node0
                   {| backend.header := {| backend.Number := 1; backend.Extra := [] |};
                      backend.body := 4%N |}
                   0%nat [1%N] 0%N [3%N] 1%nat [1%N] (errOther 7) _ _ _ _ _ _ _ _));
    reflexivity.
Defined.

(** Node B, stopped: a [Start] is suspended after the first store of its
    deferred function, and a second [Start] runs. *)
Lemma Start_Stop_guard_window_witness :
  Atomic.in_deferred (fst (Atomic.run Atomic.Start_step 4 Atomic.at_load world0)) = true /\
  exists more,
    calls (fst (Start (snd (Atomic.run Atomic.Start_step 4 Atomic.at_load world0)))) =
    calls (snd (Atomic.run Atomic.Start_step 4 Atomic.at_load world0))
      ++ call_backend_Start :: more.
Proof.
  refine (proj2 (proj1 (proj2 (proj2 (proj2 (proj2 (proj2 (proj2
            (Start_Stop_guard_window world0)))))))
                   _ _ 4%nat) _).
  - vm_compute. discriminate.
  - reflexivity.
  - lia.
Defined.

(** The calls of the two: the second [Start] starts the backend, subscribes
    and spawns the goroutines a second time. *)
Example Start_in_the_window_runs_again :
  let suspended := snd (Atomic.run Atomic.Start_step 4 Atomic.at_load world0) in
  let once :=
    [call_backend_Start;
     call_backend_Subscribe [MessageEvent_t; backlogEvent_t];
     call_backend_Subscribe [NewUnminedBlockEvent_t];
     call_backend_Subscribe [TimeoutEvent_t];
     call_backend_Subscribe [CommitEvent_t];
     call_backend_Subscribe [SyncEvent_t];
     call_backend_LastCommittedProposal;
     call_go go_handleNewUnminedBlockEvent;
     call_go go_handleConsensusEvents;
     call_go go_HandleUnhandledMsgs] in
  isStarted (st suspended) = 0 /\ isStarting (st suspended) = 0 /\
  calls suspended = once /\
  Start suspended <> (suspended, None) /\
  calls (fst (Start suspended)) = once ++ once.
Proof.
  cbv zeta. repeat split; try (vm_compute; reflexivity).
  intros Heq. apply (f_equal (fun x => length (calls (fst x)))) in Heq.
  vm_compute in Heq. discriminate Heq.
Qed.

(** The same for [Stop] on the started node, suspended after the store that
    clears [isStopping]: the second [Stop] stops the timers and cancels
    again. *)
Example Stop_in_the_window_runs_again :
  let started := fst (Start world0) in
  let suspended := snd (Atomic.run Atomic.Stop_step 4 Atomic.at_load started) in
  isStopped (st suspended) = 0 /\ isStopping (st suspended) = 0 /\
  length (calls suspended) = 23%nat /\
  length (calls (fst (Stop suspended))) = 36%nat.
Proof. cbv zeta. repeat split; vm_compute; reflexivity. Qed.


End more_scenarios.

Section bounded_scenarios.
Import double double2.
#[local] Existing Instance host_bounded.

(** The bounded cache double is a bounded cache: it holds its table and has
    room for as many new keys as its limit exceeds the size of the table. *)
Lemma bounded_is_bounded_cache :
  backendExt.bounded_cache (fun V c => table c)
    (fun V c => (limit c - size (table c))%nat).
Proof.
  split; [| split; [| split]].
  - intros V c k. repeat split.
  - intros V c k v Hroom. cbn. unfold bounded_add.
    destruct (decide _) as [_ | Hfull]; [reflexivity |].
    exfalso. apply Hfull. destruct Hroom as [Hhit | Hroom]; [by left | right; lia].
  - intros V c k v Hhit. cbn. unfold bounded_add.
    destruct (decide _) as [_ | Hfull]; [| exfalso; apply Hfull; by left].
    cbn [limit table]. by rewrite map_size_insert_Some.
  - intros V c k v Hmiss Hroom. cbn. unfold bounded_add.
    destruct (decide _) as [_ | Hfull]; [| exfalso; apply Hfull; right; lia].
    cbn [limit table]. rewrite map_size_insert_None by done. lia.
Qed.

(** Node B gossips C's prevote twice to A, C and D: three messages in
    all. *)
Lemma Gossip_again_sends_nothing_witness :
  backend.sent
    (backend.Gossip abcd prevote_C_r2
       (backend.Gossip abcd prevote_C_r2 (backendS (Some all_connected)))) =
  backend.sent (backend.Gossip abcd prevote_C_r2 (backendS (Some all_connected))).
Proof.
  refine (proj2 (proj2 (Gossip_again_sends_nothing
                   (fun V c => table c) (fun V c => (limit c - size (table c))%nat)
                   (backendS (Some all_connected)) abcd prevote_C_r2 _ _ _ _))).
  - exact bounded_is_bounded_cache.
  - vm_compute. lia.
  - vm_compute. lia.
  - intros l m Hl. discriminate Hl.
Defined.

(** With room for two peers only, entries are dropped on the way, and the
    second call sends to all three peers again. *)
Example Gossip_again_after_eviction :
  let small :=
    backend.mkBackend 11%N (Some all_connected) false 0%N
      (bounded_new (V := backend.loc) 2) (bounded_new (V := bool) 1024) ∅ [] in
  let once := backend.Gossip abcd prevote_C_r2 small in
  length (backend.sent once) = 3%nat /\
  length (backend.sent (backend.Gossip abcd prevote_C_r2 once)) = 6%nat.
Proof. cbv zeta. split; vm_compute; reflexivity. Qed.

End bounded_scenarios.

Section wide_scenarios.
Import Core double double2.
#[local] Existing Instance collaborators_wide.


End wide_scenarios.
